(** * The BitBake cooker (lib/bb/cooker.py): layer priorities, file
      collection, the parser pool driver and the cooker state machine.

    The Python code is embedded shallowly.  Dictionaries are [gmap]s, sets
    are [gset]s, lists are lists; exceptions are an explicit [outcome];
    the depth of a recursion is bounded by a fuel argument, as the
    interpreter bounds it, and a wait that never ends is [Diverge].  The modules [re], [os], [glob] and
    [bb.cache] are not part of cooker.py: they enter through the type
    classes [Regex], [FileSystem] and [RecipeParser]. *)

From stdpp Require Import gmap strings list fin_maps pretty.
From Stdlib Require Import Ascii ZArith Lia Permutation.

Open Scope Z_scope.

(** ** Python strings *)

Module PyStr.

(** [str.isspace] on one ASCII character. *)
Definition is_space (a : ascii) : bool :=
  let n := nat_of_ascii a in
  (Nat.eqb n 32 || (Nat.leb 9 n && Nat.leb n 13))%bool.

Definition is_digit (a : ascii) : bool :=
  let n := nat_of_ascii a in (Nat.leb 48 n && Nat.leb n 57)%bool.

(** [s.split()]: the maximal runs of non-blank characters.  [cur] is the
    word being read, reversed. *)
Fixpoint split_go (cur : list ascii) (s : string) : list string :=
  let flush := match cur with
               | [] => []
               | _ => [String.string_of_list_ascii (rev cur)]
               end in
  match s with
  | EmptyString => flush
  | String a s' =>
      if is_space a then flush ++ split_go [] s' else split_go (a :: cur) s'
  end.

Definition split (s : string) : list string := split_go [] s.

(** [s.split(sep)] for a one-character separator: empty fields are kept,
    so the result is never empty. *)
Fixpoint split_on_go (sep : ascii) (cur : list ascii) (s : string)
  : list string :=
  match s with
  | EmptyString => [String.string_of_list_ascii (rev cur)]
  | String a s' =>
      if Ascii.eqb a sep
      then String.string_of_list_ascii (rev cur) :: split_on_go sep [] s'
      else split_on_go sep (a :: cur) s'
  end.

Definition split_on (sep : ascii) (s : string) : list string :=
  split_on_go sep [] s.

Fixpoint lstrip (s : string) : string :=
  match s with
  | String a s' => if is_space a then lstrip s' else s
  | EmptyString => EmptyString
  end.

Definition rev_string (s : string) : string :=
  String.string_of_list_ascii (rev (String.list_ascii_of_string s)).

Definition strip (s : string) : string :=
  rev_string (lstrip (rev_string (lstrip s))).

Fixpoint digits_go (acc : Z) (s : string) : option Z :=
  match s with
  | EmptyString => Some acc
  | String a s' =>
      if is_digit a
      then digits_go (10 * acc + Z.of_nat (nat_of_ascii a - 48)) s'
      else None
  end.

Definition digits (s : string) : option Z :=
  match s with
  | EmptyString => None
  | _ => digits_go 0 s
  end.

(** [int(s)] in base ten: blanks around, an optional sign, at least one
    digit.  [None] stands for [ValueError]. *)
Definition int (s : string) : option Z :=
  match strip s with
  | String "-" s' => Z.opp <$> digits s'
  | String "+" s' => digits s'
  | s' => digits s'
  end.

Definition startswith (s p : string) : bool := String.prefix p s.

Definition endswith (s p : string) : bool :=
  String.prefix (rev_string p) (rev_string s).

(** [c in s] and [s.index(c)] for a character [c]. *)
Fixpoint index (c : ascii) (s : string) : option nat :=
  match s with
  | EmptyString => None
  | String a s' => if Ascii.eqb a c then Some O else S <$> index c s'
  end.

(** [s[:k]]. *)
Definition take (k : nat) (s : string) : string := String.substring 0 k s.

Definition drop (k : nat) (s : string) : string :=
  String.substring k (String.length s - k) s.

(** [s.replace(old, new)] for a non-empty [old]: all occurrences, left to
    right, not overlapping.  [fuel] bounds the scan by the length. *)
Fixpoint replace_go (fuel : nat) (old new s : string) : string :=
  match fuel with
  | O => s
  | S fuel' =>
      match s with
      | EmptyString => EmptyString
      | String a s' =>
          if String.prefix old s
          then new +:+ replace_go fuel' old new (drop (String.length old) s)
          else String a (replace_go fuel' old new s')
      end
  end.

Definition replace (old new s : string) : string :=
  replace_go (String.length s) old new s.

(** [os.path.basename]: what follows the last slash. *)
Fixpoint basename_go (cur : list ascii) (s : string) : string :=
  match s with
  | EmptyString => String.string_of_list_ascii (rev cur)
  | String a s' =>
      if Ascii.eqb a "/" then basename_go [] s' else basename_go (a :: cur) s'
  end.

Definition basename (s : string) : string := basename_go [] s.

(** [s.lower()] on ASCII. *)
Definition lower_ascii (a : ascii) : ascii :=
  let n := nat_of_ascii a in
  if (Nat.leb 65 n && Nat.leb n 90)%bool then ascii_of_nat (n + 32) else a.

Fixpoint lower (s : string) : string :=
  match s with
  | EmptyString => EmptyString
  | String a s' => String (lower_ascii a) (lower s')
  end.

End PyStr.

Example split_blank : PyStr.split " A  B
C " = ["A"; "B"; "C"].
Proof. reflexivity. Qed.

Example split_on_colon : PyStr.split_on ":" "core:3" = ["core"; "3"].
Proof. reflexivity. Qed.

Example split_on_trailing : PyStr.split_on ":" "core:" = ["core"; ""].
Proof. reflexivity. Qed.

Example int_plain : PyStr.int " 42 " = Some 42.
Proof. reflexivity. Qed.

Example int_negative : PyStr.int "-7" = Some (-7).
Proof. reflexivity. Qed.

Example int_bad : PyStr.int "1.5" = None /\ PyStr.int "" = None /\ PyStr.int "-" = None.
Proof. repeat split; reflexivity. Qed.

Example replace_suffix : PyStr.replace ".bbappend" ".bb" "foo_%.bbappend" = "foo_%.bb".
Proof. reflexivity. Qed.

Example basename_path : PyStr.basename "/layers/a/foo_1.0.bb" = "foo_1.0.bb".
Proof. reflexivity. Qed.

Example endswith_bb :
  PyStr.endswith "x.bb" ".bb" = true /\ PyStr.endswith "x.bbappend" ".bb" = false.
Proof. split; reflexivity. Qed.

(** ** Exceptions, outcomes, log records and events *)

(** The exception classes the cooker raises or handles.  [SystemExit] and
    [KeyboardInterrupt] derive from [BaseException] only; all the others
    derive from [Exception].  [CollectionError] derives from
    [BBHandledException]. *)
Inductive exn_class :=
| KeyError | IndexError | ValueError | TypeError | UnboundLocalError
| AttributeError | SyntaxError | RuntimeError
| BBHandledException | CollectionError | NothingToBuild
| ParsingFailure | ParseError | ExpansionError | OtherException
| SystemExit | KeyboardInterrupt.

Definition is_Exception (c : exn_class) : bool :=
  match c with
  | SystemExit | KeyboardInterrupt => false
  | _ => true
  end.

(** An exception object: its class and the attributes the worker attaches
    ([recipe], [traceback]); [realexception] is the field of
    [ParsingFailure]. *)
Record exc := {
  exc_class : exn_class;
  recipe : option string;
  traceback : bool;
  realexception : option exn_class
}.

Definition new_exc (c : exn_class) : exc :=
  {| exc_class := c; recipe := None; traceback := false;
     realexception := None |}.

(** What a call does: return, raise, or never come back. *)
Inductive outcome (A : Type) :=
| Ret (a : A)
| Raise (e : exc)
| Diverge.
Arguments Ret {A} a.
Arguments Raise {A} e.
Arguments Diverge {A}.

(** Python code that updates a state [S] and may raise: the state is kept
    when an exception leaves the call, as the objects it mutated are. *)
Definition M (S A : Type) : Type := S -> outcome A * S.

Definition ret {S A} (a : A) : M S A := fun s => (Ret a, s).

Definition bind {S A B} (m : M S A) (k : A -> M S B) : M S B :=
  fun s =>
    match m s with
    | (Ret a, s') => k a s'
    | (Raise e, s') => (Raise e, s')
    | (Diverge, s') => (Diverge, s')
    end.

Notation "x <- m ;; k" := (bind m (fun x => k))
  (at level 100, m at next level, right associativity).
Notation "m ;;; k" := (bind m (fun _ => k))
  (at level 100, right associativity).

(** [raise e] for an exception object, and for a new object of a class. *)
Definition throw {S A} (e : exc) : M S A := fun s => (Raise e, s).

Definition raise {S A} (c : exn_class) : M S A := throw (new_exc c).

Definition diverge {S A} : M S A := fun s => (Diverge, s).

(** [try: m / except Exception as e: handler(e) / else: ok(a)]. *)
Definition catch {S A B} (m : M S A) (ok : A -> M S B)
    (handler : exc -> M S B) : M S B :=
  fun s =>
    match m s with
    | (Ret a, s') => ok a s'
    | (Raise e, s') => handler e s'
    | (Diverge, s') => (Diverge, s')
    end.

Definition gets {S A} (f : S -> A) : M S A := fun s => (Ret (f s), s).

Definition modify {S} (f : S -> S) : M S unit := fun s => (Ret tt, f s).

(** [for x in l: body(x)]. *)
Fixpoint for_ {S A} (l : list A) (body : A -> M S unit) : M S unit :=
  match l with
  | [] => ret tt
  | x :: l' => body x ;;; for_ l' body
  end.

(** A loop that carries a local variable of type [B]. *)
Fixpoint fold_ {S A B} (l : list A) (body : B -> A -> M S B) (b : B) : M S B :=
  match l with
  | [] => ret b
  | x :: l' => b' <- body b x ;; fold_ l' body b'
  end.

Inductive level := Debug (n : nat) | Warn | Error | Critical.

Inductive arg := AStr (s : string) | AInt (z : Z).

(** One call of a logger: the level, the format string of the source and
    its arguments. *)
Record log_record := Log { lvl : level; fmt : string; args : list arg }.

Inductive event :=
| ParseStarted (total : Z)
| ParseProgress (current total : Z)
| ParseCompleted (cached parsed skipped masked virtuals errors total : Z)
| SanityCheck
| CookerExit.

(** The datastore after expansion: [getVar(name, True)]. *)
Definition getVar (d : gmap string string) (name : string) : option string :=
  d !! name.

(** Truth of an optional string: [None] and the empty string are false. *)
Definition nonempty (v : option string) : option string :=
  match v with
  | Some EmptyString | None => None
  | Some s => Some s
  end.

(** ** The modules outside cooker.py *)

(** Python's [re]: [compile] ([None] is [re.error]), [match] and
    [search] of a compiled pattern. *)
Class Regex := {
  regex : Type;
  re_compile : string -> option regex;
  re_match : regex -> string -> bool;
  re_search : regex -> string -> bool
}.

(** An entry of [bbfile_config_priorities]:
    (collection, pattern, compiled pattern, priority). *)
Record layer_entry `{Regex} := LayerEntry {
  le_name : string;
  le_pattern : string;
  le_regex : regex;
  le_priority : Z
}.

(** Python's [os], [os.path] and [glob] on the build host. *)
(** A directory: its name, its subdirectories and the names of its files. *)
#[warnings="-register-all"] Inductive dirtree :=
  Dir (name : string) (subdirs : list dirtree) (files : list string).

Class FileSystem := {
  getcwd : string;
  listdir : string -> list string;
  abspath : string -> string;
  (** the directory at a path, if the path is a directory *)
  tree_at : string -> option dirtree;
  path_exists : string -> bool;
  glob : string -> list string
}.

Definition isdir `{FileSystem} (p : string) : bool :=
  match tree_at p with Some _ => true | None => false end.

(** [os.path.join(a, b)] for a relative [b]. *)
Definition path_join (a b : string) : string :=
  if PyStr.endswith a "/" || bool_decide (a = EmptyString)
  then a +:+ b else a +:+ "/" +:+ b.

(** ** The data model *)

(** [class state]. *)
Module State.
Inductive t :=
| initial | parsing | running | shutdown | forceshutdown | stopped | error.
End State.

Abbreviation cooker_state := State.t.

#[global] Instance cooker_state_eq_dec : EqDecision cooker_state.
Proof. solve_decision. Defined.

(** [bb.cache.CacheData], the fields cooker.py reads or writes. *)
Record recipe_cache `{Regex} := RecipeCache {
  bbfile_config_priorities : list layer_entry;
  ignored_dependencies : gset string;
  world_target : gset string;
  universe_target : gset string;
  possible_world : list string;
  pkg_fn : gmap string string;
  pn_provides : gmap string (list string);
  providers : gmap string (list string);
  preferred : gmap string string;
  bbfile_priority : gmap string Z
}.

Definition empty_recipe_cache `{Regex} : recipe_cache :=
  RecipeCache _ [] ∅ ∅ ∅ [] ∅ ∅ ∅ ∅ ∅.

(** [bb.cache.Cache], which parses recipes and keeps the on-disk cache.
    [cache_parse] is [Cache.parse]: it returns the
    (virtual filename, info array) pairs of a recipe or raises. *)
Class RecipeParser `{Regex} := {
  info : Type;
  skipped : info -> bool;
  cacheValid : string -> list string -> bool;
  cache_load : string -> list string -> bool * list (string * list info);
  cache_parse : string -> list string -> list (string * list info) + exc;
  add_info : string -> list info -> recipe_cache -> bool -> recipe_cache;
  virtualfn2realfn : string -> string * string
}.

(** A [CookerCollectFiles] object.  [overlayed] does not exist until
    [collect_bbfiles] sets it. *)
Record collector `{Regex} := Collector {
  appendlist : gmap string (list string);
  appliedappendlist : list string;
  cc_priorities : list layer_entry;
  overlayed : option (gmap string (list string))
}.

(** What travels on the results queue: [(True, infos)] or
    [(True, exception)]. *)
Inductive value `{RecipeParser} :=
| Infos (infos : list (string * list info))
| Exc (e : exc).

Definition result `{RecipeParser} : Type := bool * value.

(** The iterator [CookerParser.results]:
    [itertools.chain(load_cached(), parse_generator())].  [cached_left]
    is what [load_cached] has still to yield, [chained] tells whether
    [parse_generator] follows, [exhausted] that the iterator is over. *)
Record results_iter := ResultsIter {
  cached_left : list (string * list string);
  chained : bool;
  exhausted : bool
}.

(** A [CookerParser] object and its process pool.  [result_queue] holds
    the results of the workers in their order of arrival. *)
Record cooker_parser `{RecipeParser} := CookerParser {
  filelist : list string;
  parsed : Z;
  cached : Z;
  error_count : Z;
  masked : Z;
  skipped_count : Z;
  virtuals : Z;
  total : Z;
  current : Z;
  num_processes : Z;
  fromcache : list (string * list string);
  willparse : list (string * list string);
  toparse : Z;
  progress_chunk : Z;
  results : results_iter;
  result_queue : list result;
  feeder_quit : list (option string);
  parser_quit : Z;
  job_sentinels : Z;
  processes_alive : bool;
  cache_synced : bool;
  haveshutdown : bool
}.

Inductive feature :=
| HOB_EXTRA_CACHES | SEND_DEPENDS_TREE | BASEDATASTORE_TRACKING
| SEND_SANITYEVENTS.

#[global] Instance feature_eq_dec : EqDecision feature.
Proof. solve_decision. Defined.

(** A [BBCooker] object with what it owns.  [prserv_ok] tells whether the
    PR service starts; [heap] holds the list objects passed to and
    returned by [checkPackages], by reference. *)
Record cooker `{RecipeParser} := Cooker {
  state : cooker_state;
  data : gmap string string;
  log : list log_record;
  events : list event;
  recipecache : recipe_cache;
  skiplist : gmap string info;
  collection : option collector;
  parser : option cooker_parser;
  featureset : list feature;
  extra_assume_provided : list string;
  prserv_ok : bool;
  cpu_count : Z;
  heap : gmap nat (list string)
}.

Section cooker_state.
Context `{RecipeParser}.

Definition set_state (v : cooker_state) (c : cooker) : cooker :=
  Cooker _ _ v (data c) (log c) (events c) (recipecache c) (skiplist c)
    (collection c) (parser c) (featureset c) (extra_assume_provided c)
    (prserv_ok c) (cpu_count c) (heap c).

Definition set_data (v : gmap string string) (c : cooker) : cooker :=
  Cooker _ _ (state c) v (log c) (events c) (recipecache c) (skiplist c)
    (collection c) (parser c) (featureset c) (extra_assume_provided c)
    (prserv_ok c) (cpu_count c) (heap c).

Definition add_log (r : log_record) (c : cooker) : cooker :=
  Cooker _ _ (state c) (data c) (log c ++ [r]) (events c) (recipecache c)
    (skiplist c) (collection c) (parser c) (featureset c)
    (extra_assume_provided c) (prserv_ok c) (cpu_count c) (heap c).

Definition add_event (e : event) (c : cooker) : cooker :=
  Cooker _ _ (state c) (data c) (log c) (events c ++ [e]) (recipecache c)
    (skiplist c) (collection c) (parser c) (featureset c)
    (extra_assume_provided c) (prserv_ok c) (cpu_count c) (heap c).

Definition set_recipecache (v : recipe_cache) (c : cooker) : cooker :=
  Cooker _ _ (state c) (data c) (log c) (events c) v (skiplist c)
    (collection c) (parser c) (featureset c) (extra_assume_provided c)
    (prserv_ok c) (cpu_count c) (heap c).

Definition set_skiplist (v : gmap string info) (c : cooker) : cooker :=
  Cooker _ _ (state c) (data c) (log c) (events c) (recipecache c) v
    (collection c) (parser c) (featureset c) (extra_assume_provided c)
    (prserv_ok c) (cpu_count c) (heap c).

Definition set_collection (v : option collector) (c : cooker) : cooker :=
  Cooker _ _ (state c) (data c) (log c) (events c) (recipecache c)
    (skiplist c) v (parser c) (featureset c) (extra_assume_provided c)
    (prserv_ok c) (cpu_count c) (heap c).

Definition set_parser (v : option cooker_parser) (c : cooker) : cooker :=
  Cooker _ _ (state c) (data c) (log c) (events c) (recipecache c)
    (skiplist c) (collection c) v (featureset c) (extra_assume_provided c)
    (prserv_ok c) (cpu_count c) (heap c).

Definition set_heap (v : gmap nat (list string)) (c : cooker) : cooker :=
  Cooker _ _ (state c) (data c) (log c) (events c) (recipecache c)
    (skiplist c) (collection c) (parser c) (featureset c)
    (extra_assume_provided c) (prserv_ok c) (cpu_count c) v.

(** Logger calls and [bb.event.fire]. *)
Definition logger (l : level) (f : string) (a : list arg) : M cooker unit :=
  modify (add_log (Log l f a)).

Definition fire (e : event) : M cooker unit := modify (add_event e).

(** [self.collection] and [self.parser]; an attribute that is not there
    is an [AttributeError]. *)
Definition the_collection : M cooker collector :=
  fun c => match collection c with
           | Some cc => (Ret cc, c)
           | None => (Raise (new_exc AttributeError), c)
           end.

Definition the_parser : M cooker cooker_parser :=
  fun c => match parser c with
           | Some p => (Ret p, c)
           | None => (Raise (new_exc AttributeError), c)
           end.

End cooker_state.

(** ** BBCooker.handleCollections *)

Module Collections.
Section defs.
Context `{Regex}.
Variable data : gmap string string.

(** The local variables of [handleCollections], and the list it stores
    in the recipe cache.  [prio] is [None] until the name is bound. *)
Record locals := Locals {
  errors : bool;
  log : list log_record;
  collection_priorities : gmap string (option Z);
  collection_depends : gmap string (list string);
  min_prio : Z;
  prio : option Z;
  bbfile_config_priorities : list layer_entry
}.

Definition init : locals := Locals false [] ∅ ∅ 0 None [].

Definition error (r : log_record) : M locals unit :=
  modify (fun L => Locals true (log L ++ [r]) (collection_priorities L)
    (collection_depends L) (min_prio L) (prio L) (bbfile_config_priorities L)).

Definition debug (r : log_record) : M locals unit :=
  modify (fun L => Locals (errors L) (log L ++ [r]) (collection_priorities L)
    (collection_depends L) (min_prio L) (prio L) (bbfile_config_priorities L)).

Definition set_priority (c : string) (v : option Z) : M locals unit :=
  modify (fun L => Locals (errors L) (log L)
    (<[c := v]> (collection_priorities L))
    (collection_depends L) (min_prio L) (prio L) (bbfile_config_priorities L)).

Definition set_depends (c : string) (v : list string) : M locals unit :=
  modify (fun L => Locals (errors L) (log L) (collection_priorities L)
    (<[c := v]> (collection_depends L)) (min_prio L) (prio L)
    (bbfile_config_priorities L)).

Definition set_prio (p : Z) : M locals unit :=
  modify (fun L => Locals (errors L) (log L) (collection_priorities L)
    (collection_depends L) (min_prio L) (Some p) (bbfile_config_priorities L)).

Definition set_min_prio (p : Z) : M locals unit :=
  modify (fun L => Locals (errors L) (log L) (collection_priorities L)
    (collection_depends L) p (prio L) (bbfile_config_priorities L)).

Definition append_entry (e : layer_entry) : M locals unit :=
  modify (fun L => Locals (errors L) (log L) (collection_priorities L)
    (collection_depends L) (min_prio L) (prio L)
    (bbfile_config_priorities L ++ [e])).

(** Reading a local name that may be unbound. *)
Definition get_prio : M locals Z :=
  fun L => match prio L with
           | Some p => (Ret p, L)
           | None => (Raise (new_exc UnboundLocalError), L)
           end.

(** [collection_priorities[c]] and [collection_depends[c]]. *)
Definition priority_of (c : string) : M locals (option Z) :=
  fun L => match collection_priorities L !! c with
           | Some v => (Ret v, L)
           | None => (Raise (new_exc KeyError), L)
           end.

Definition depends_of (c : string) : M locals (list string) :=
  fun L => match collection_depends L !! c with
           | Some v => (Ret v, L)
           | None => (Raise (new_exc KeyError), L)
           end.

(** Lines 943-955: the explicit priority of collection [c]. *)
Definition read_priority (c : string) : M locals unit :=
  match nonempty (getVar data ("BBFILE_PRIORITY_" +:+ c)) with
  | Some priority =>
      match PyStr.int priority with
      | Some p => set_prio p
      | None =>
          error (Log Error "invalid value for BBFILE_PRIORITY_%s: '%s'"
                     [AStr c; AStr priority])
      end ;;;
      p <- get_prio ;;
      m <- gets min_prio ;;
      (if (m =? 0) || (p <? m) then set_min_prio p else ret tt) ;;;
      set_priority c (Some p)
  | None => set_priority c None
  end.

(** Lines 962-994: one entry [dep] of LAYERDEPENDS_c; [depnamelist] is
    carried through the loop.  A version that is not a number skips the
    entry ([continue]) before its name is recorded. *)
Definition read_dep (collection_list : list string) (c : string)
    (depnamelist : list string) (dep : string) : M locals (list string) :=
  let depsplit := PyStr.split_on ":" dep in
  let name := hd EmptyString depsplit in
  let check (depver : option Z) : M locals (list string) :=
    let depnamelist' := depnamelist ++ [name] in
    (if bool_decide (name ∈ collection_list) then
       match depver with
       | Some v =>
           if v =? 0 then ret tt else
           match nonempty (getVar data ("LAYERVERSION_" +:+ name)) with
           | Some layerver =>
               match PyStr.int layerver with
               | None =>
                   error (Log Error "invalid value for LAYERVERSION_%s: '%s'"
                              [AStr c; AStr layerver])
               | Some lver =>
                   if lver =? v then ret tt else
                   error (Log Error
                     "Layer '%s' depends on version %d of layer '%s', but version %d is enabled in your configuration"
                     [AStr c; AInt v; AStr name; AInt lver])
               end
           | None =>
               error (Log Error
                 "Layer '%s' depends on version %d of layer '%s', which exists in your configuration but does not specify a version"
                 [AStr c; AInt v; AStr name])
           end
       | None => ret tt
       end
     else
       error (Log Error
         "Layer '%s' depends on layer '%s', but this layer is not enabled in your configuration"
         [AStr c; AStr name])) ;;;
    ret depnamelist' in
  match depsplit with
  | _ :: ver :: _ =>
      match PyStr.int ver with
      | Some v => check (Some v)
      | None =>
          error (Log Error "invalid version value in LAYERDEPENDS_%s: '%s'"
                     [AStr c; AStr dep]) ;;;
          ret depnamelist
      end
  | _ => check None
  end.

(** Lines 958-997. *)
Definition read_depends (collection_list : list string) (c : string)
  : M locals unit :=
  match nonempty (getVar data ("LAYERDEPENDS_" +:+ c)) with
  | Some deps =>
      depnamelist <- fold_ (PyStr.split deps) (read_dep collection_list c) [] ;;
      set_depends c depnamelist
  | None => set_depends c []
  end.

(** Truth of a priority: [None] and [0] are false. *)
Definition truthy (v : option Z) : bool :=
  match v with
  | Some p => negb (p =? 0)
  | None => false
  end.

(** [depprio > max_depprio]; a [None] on the left compares below every
    number. *)
Definition py_gt (v : option Z) (m : Z) : bool :=
  match v with
  | Some p => m <? p
  | None => false
  end.

(** Lines 1000-1010.  The recursion of the source has no bound of its
    own; the interpreter ends a recursion deeper than its limit with
    RuntimeError (maximum recursion depth exceeded).  [fuel] is the
    depth that is left up to that limit. *)
Fixpoint calc_layer_priority (fuel : nat) (collection : string)
  : M locals unit :=
  match fuel with
  | O => raise RuntimeError
  | S fuel' =>
      p <- priority_of collection ;;
      if truthy p then ret tt else
      m <- gets min_prio ;;
      deps <- depends_of collection ;;
      max_depprio <-
        fold_ deps
          (fun max_depprio dep =>
             calc_layer_priority fuel' dep ;;;
             depprio <- priority_of dep ;;
             ret (if py_gt depprio max_depprio
                  then default max_depprio depprio else max_depprio))
          m ;;
      let max_depprio := max_depprio + 1 in
      debug (Log (Debug 1) "Calculated priority of layer %s as %d"
                 [AStr collection; AInt max_depprio]) ;;;
      set_priority collection (Some max_depprio)
  end.

(** Lines 1013-1026: one round of the last loop. *)
Definition store_collection (fuel : nat) (c : string) : M locals unit :=
  calc_layer_priority fuel c ;;;
  match getVar data ("BBFILE_PATTERN_" +:+ c) with
  | None => error (Log Error "BBFILE_PATTERN_%s not defined" [AStr c])
  | Some regex =>
      match re_compile regex with
      | None =>
          error (Log Error
            "BBFILE_PATTERN_%s '%s' is not a valid regular expression"
            [AStr c; AStr regex])
      | Some cre =>
          p <- priority_of c ;;
          append_entry (LayerEntry _ c regex cre (default 0 p))
      end
  end.

(** Lines 933-1029. *)
Definition handleCollections (fuel : nat) (collections : option string)
  : M locals unit :=
  match nonempty collections with
  | Some collections =>
      let collection_list := PyStr.split collections in
      for_ collection_list
        (fun c => read_priority c ;;; read_depends collection_list c) ;;;
      for_ collection_list (store_collection fuel)
  | None => ret tt
  end ;;;
  errors <- gets errors ;;
  if errors : bool then raise CollectionError else ret tt.

End defs.
End Collections.


(** ** CookerCollectFiles *)

Module CookerCollectFiles.
Section defs.
Context `{RecipeParser} `{FileSystem}.

(** [CookerCollectFiles(priorities)]. *)
Definition new (priorities : list layer_entry) : collector :=
  Collector _ ∅ [] priorities None.

Definition update (f : collector -> collector) : M cooker unit :=
  cc <- the_collection ;; modify (set_collection (Some (f cc))).

(** Lines 1421-1428.  A compiled pattern is identified by its pattern
    string in the set [matched]; [None] is the default argument. *)
Fixpoint calc_bbfile_priority (priorities : list layer_entry)
    (filename : string) (matched : option (gset string))
  : Z * option (gset string) :=
  match priorities with
  | [] => (0, matched)
  | e :: rest =>
      if re_match (le_regex e) filename
      then (le_priority e, (fun m => {[le_pattern e]} ∪ m) <$> matched)
      else calc_bbfile_priority rest filename matched
  end.

(** Lines 1430-1438. *)
Definition get_bbfiles : list string :=
  let path := getcwd in
  (fun f => abspath (path_join path f)) <$>
    filter (fun f => PyStr.endswith f ".bb" = true) (listdir path).

Definition ignored_dir (n : string) : bool :=
  bool_decide (n ∈ ["SCCS"; "CVS"; ".svn"]%string).

(** Lines 1440-1449, over the directory [t] found at [dir].  [os.walk]
    goes top-down and does not enter the directories removed from [dirs].
    [f.endswith] is given a list, which is a [TypeError] as soon as the
    comprehension meets a file; [None] stands for it. *)
Fixpoint walk_found (dir : string) (t : dirtree) : option (list string) :=
  match t with
  | Dir _ subdirs files =>
      match files with
      | _ :: _ => None
      | [] =>
          (fix each (ds : list dirtree) : option (list string) :=
             match ds with
             | [] => Some []
             | d :: ds' =>
                 let n := match d with Dir n _ _ => n end in
                 if ignored_dir n then each ds' else
                 match walk_found (path_join dir n) d with
                 | Some a => app a <$> each ds'
                 | None => None
                 end
             end) subdirs
      end
  end.

Definition find_bbfiles (path : string) : M cooker (list string) :=
  match tree_at path with
  | None => ret []
  | Some t =>
      match walk_found path t with
      | Some found => ret found
      | None => raise TypeError
      end
  end.

(** [files.sort(key=...)]: a stable sort by increasing key. *)
Fixpoint insert_by (key : string -> Z) (x : string) (l : list string)
  : list string :=
  match l with
  | [] => [x]
  | y :: l' => if key x <=? key y then x :: l else y :: insert_by key x l'
  end.

Definition sort_by (key : string -> Z) (l : list string) : list string :=
  foldr (insert_by key) [] l.

(** [for g in gs: if g not in newfiles: newfiles.append(g)]. *)
Definition add_new (newfiles gs : list string) : list string :=
  foldl (fun acc g => if bool_decide (g ∈ acc) then acc else acc ++ [g])
        newfiles gs.

Definition join_blank (l : list string) : string :=
  match l with
  | [] => EmptyString
  | x :: l' => foldl (fun acc y => acc +:+ " " +:+ y) x l'
  end.

(** Lines 1471-1484. *)
Definition expand (files : list string) : M cooker (list string) :=
  fold_ files
    (fun newfiles f =>
       if isdir f then
         dirfiles <- find_bbfiles f ;;
         ret (add_new newfiles dirfiles)
       else
         let globbed := glob f in
         let globbed :=
           match globbed with
           | [] => if path_exists f then [f] else []
           | _ => globbed
           end in
         ret (add_new newfiles globbed))
    [].

(** Lines 1495-1507: the loop over [newfiles]; the state carried is
    ([masked], [bbfiles], [bbappend]). *)
Definition classify (bbmask_compiled : option regex) (newfiles : list string)
  : M cooker (Z * list string * list string) :=
  fold_ newfiles
    (fun st f =>
       let '(masked, bbfiles, bbappend) := st in
       if match bbmask_compiled with
          | Some r => re_search r f
          | None => false
          end
       then
         logger (Debug 1) "skipping masked file %s" [AStr f] ;;;
         ret (masked + 1, bbfiles, bbappend)
       else if PyStr.endswith f ".bb" then ret (masked, bbfiles ++ [f], bbappend)
       else if PyStr.endswith f ".bbappend"
            then ret (masked, bbfiles, bbappend ++ [f])
       else
         logger (Debug 1) "skipping %s: unknown file extension" [AStr f] ;;;
         ret (masked, bbfiles, bbappend))
    (0, [], []).

(** Lines 1510-1515. *)
Definition index_appends (bbappend : list string)
    (al : gmap string (list string)) : gmap string (list string) :=
  foldl (fun al f =>
           let base := PyStr.replace ".bbappend" ".bb" (PyStr.basename f) in
           let cur := default [] (al !! base) in
           <[base := if bool_decide (f ∈ cur) then cur else cur ++ [f]]> al)
        al bbappend.

(** Lines 1519-1527: ([bbfile_seen], [overlayed]) after the scan of the
    reversed list. *)
Definition find_overlayed (bbfiles : list string)
  : gmap string string * gmap string (list string) :=
  foldl (fun st f =>
           let '(bbfile_seen, ov) := st in
           let base := PyStr.basename f in
           match bbfile_seen !! base with
           | None => (<[base := f]> bbfile_seen, ov)
           | Some topfile =>
               (bbfile_seen, <[topfile := default [] (ov !! topfile) ++ [f]]> ov)
           end)
        (∅, ∅) (rev bbfiles).

(** Lines 1451-1529. *)
Definition collect_bbfiles : M cooker (list string * Z) :=
  cc <- the_collection ;;
  logger (Debug 1) "collecting .bb files" [] ;;;
  d <- gets data ;;
  let files := PyStr.split (default EmptyString (getVar d "BBFILES")) in
  modify (set_data (<["BBFILES" := join_blank files]> d)) ;;;
  let files :=
    sort_by (fun f => (calc_bbfile_priority (cc_priorities cc) f None).1) files in
  let files := match files with [] => get_bbfiles | _ => files end in
  match files with
  | [] =>
      logger Error "no recipe files to build, check your BBPATH and BBFILES?" [] ;;;
      fire CookerExit
  | _ => ret tt
  end ;;;
  newfiles <- expand files ;;
  d <- gets data ;;
  let bbmask := nonempty (getVar d "BBMASK") in
  match match bbmask with
        | Some m =>
            match re_compile m with
            | Some r => Some (Some r)
            | None => None
            end
        | None => Some None
        end with
  | None =>
      logger Critical "BBMASK is not a valid regular expression, ignoring." [] ;;;
      ret (newfiles, 0)
  | Some bbmask_compiled =>
      r <- classify bbmask_compiled newfiles ;;
      let '(masked, bbfiles, bbappend) := r in
      update (fun cc => Collector _ (index_appends bbappend (appendlist cc))
                (appliedappendlist cc) (cc_priorities cc)
                (Some (find_overlayed bbfiles).2)) ;;;
      ret (bbfiles, masked)
  end.

(** The test of line 1538 on a key [bbappend] of [appendlist] and the
    base name [f] of the recipe. *)
Definition append_applies (bbappend f : string) : bool :=
  bool_decide (bbappend = f) ||
  match PyStr.index "%" bbappend with
  | Some i => PyStr.startswith bbappend (PyStr.take i f)
  | None => false
  end.

(** Lines 1537-1541: the entries of [appendlist] that apply to [fn], in
    the order in which the dictionary is walked. *)
Definition applicable (cc : collector) (fn : string)
  : list (string * list string) :=
  filter (fun kv => append_applies kv.1 (PyStr.basename fn) = true)
         (map_to_list (appendlist cc)).

(** Lines 1531-1542. *)
Definition get_file_appends (fn : string) : M cooker (list string) :=
  cc <- the_collection ;;
  let hits := applicable cc fn in
  update (fun cc => Collector _ (appendlist cc)
            (appliedappendlist cc ++ hits.*1) (cc_priorities cc)
            (overlayed cc)) ;;;
  ret (concat hits.*2).

(** Lines 1560-1565. *)
Definition findmatch (cc : collector) (r : regex) : bool :=
  existsb (fun kv => existsb (re_match r) kv.2) (map_to_list (appendlist cc)).

(** Lines 1544-1575.  [pkgfns] are the keys of [pkg_fn]. *)
Definition collection_priorities (pkgfns : list string)
  : M cooker (gmap string Z) :=
  cc <- the_collection ;;
  let '(priorities, matched) :=
    foldl (fun st p =>
             let '(priorities, matched) := st in
             let realfn := (virtualfn2realfn p).1 in
             let r := calc_bbfile_priority (cc_priorities cc) realfn
                                           (Some matched) in
             (<[p := r.1]> priorities, default matched r.2))
          (∅, ∅) pkgfns in
  for_ (cc_priorities cc)
    (fun e =>
       if bool_decide (le_pattern e ∈ matched) || findmatch cc (le_regex e)
       then ret tt
       else logger Warn "No bb files matched BBFILE_PATTERN_%s '%s'"
                   [AStr (le_name e); AStr (le_pattern e)]) ;;;
  ret priorities.

End defs.
End CookerCollectFiles.

(** ** Parser: one worker process of the pool *)

Module Parser.

(** A job: (filename, appends); the third component, [caches_array], is
    the same for every job. *)
Abbreviation job := (string * list string)%type.

Section defs.
Context `{RecipeParser}.

(** Lines 1673-1688. *)
Definition parse (filename : string) (appends : list string) : result :=
  match cache_parse filename appends with
  | inl infos => (true, Infos infos)
  | inr e =>
      if is_Exception (exc_class e)
      then (true, Exc {| exc_class := exc_class e; recipe := Some filename;
                         traceback := true;
                         realexception := realexception e |})
      else (true, Exc {| exc_class := ParsingFailure; recipe := Some filename;
                         traceback := false;
                         realexception := Some (exc_class e) |})
  end.

(** The queues a worker sees: [jobs] ([None] is the sentinel), [results]
    with its capacity ([None]: unbounded) and the number of messages on
    [quit]. *)
Record channels := Channels {
  jobs : list (option job);
  results_chan : list result;
  results_capacity : option nat;
  quit : nat
}.

Record worker := Worker { pending : list result; alive : bool }.

(** [self.results.put(result, timeout=0.25)]; [Queue.Full] keeps the
    result in [pending]. *)
Definition put (r : result) (w : worker) (ch : channels) : worker * channels :=
  if match results_capacity ch with
     | Some cap => bool_decide (cap ≤ length (results_chan ch))%nat
     | None => false
     end
  then (Worker (pending w ++ [r]) (alive w), ch)
  else (w, Channels (jobs ch) (results_chan ch ++ [r]) (results_capacity ch)
                    (quit ch)).

(** Lines 1647-1671: one round of the loop of [realrun]. *)
Definition realrun_step (w : worker) (ch : channels) : worker * channels :=
  match quit ch with
  | S q =>
      (Worker (pending w) false,
       Channels (jobs ch) (results_chan ch) (results_capacity ch) q)
  | O =>
      match rev (pending w) with
      | r :: before => put r (Worker (rev before) (alive w)) ch
      | [] =>
          match jobs ch with
          | [] => (w, ch)
          | None :: js =>
              (Worker (pending w) false,
               Channels js (results_chan ch) (results_capacity ch) (quit ch))
          | Some (filename, appends) :: js =>
              put (parse filename appends) w
                  (Channels js (results_chan ch) (results_capacity ch) (quit ch))
          end
      end
  end.

End defs.
End Parser.

(** ** CookerParser: the driver of the pool *)

Module CookerParser.
Section defs.
Context `{RecipeParser} `{FileSystem}.

(** The order in which the pool completes the jobs it is fed. *)
Variable schedule : list Parser.job -> list Parser.job.

Definition with_counts (p : cooker_parser)
    (parsed' cached' error' skipped' virtuals' current' : Z) : cooker_parser :=
  CookerParser _ _ (filelist p) parsed' cached' error' (masked p) skipped'
    virtuals' (total p) current' (num_processes p) (fromcache p) (willparse p)
    (toparse p) (progress_chunk p) (results p) (result_queue p)
    (feeder_quit p) (parser_quit p) (job_sentinels p) (processes_alive p)
    (cache_synced p) (haveshutdown p).

Definition with_results (p : cooker_parser) (it : results_iter)
    (q : list result) : cooker_parser :=
  CookerParser _ _ (filelist p) (parsed p) (cached p) (error_count p)
    (masked p) (skipped_count p) (virtuals p) (total p) (current p)
    (num_processes p) (fromcache p) (willparse p) (toparse p)
    (progress_chunk p) it q (feeder_quit p) (parser_quit p) (job_sentinels p)
    (processes_alive p) (cache_synced p) (haveshutdown p).

Definition with_pool (p : cooker_parser) (fq : list (option string))
    (pq js : Z) (alive synced down : bool) : cooker_parser :=
  CookerParser _ _ (filelist p) (parsed p) (cached p) (error_count p)
    (masked p) (skipped_count p) (virtuals p) (total p) (current p)
    (num_processes p) (fromcache p) (willparse p) (toparse p)
    (progress_chunk p) (results p) (result_queue p) fq pq js alive synced down.

Definition update (f : cooker_parser -> cooker_parser) : M cooker unit :=
  p <- the_parser ;; modify (set_parser (Some (f p))).

(** Lines 1714-1719: the split of the file list by [cacheValid]. *)
Definition split_by_cache (filelist : list string)
  : M cooker (list Parser.job * list Parser.job) :=
  fold_ filelist
    (fun st filename =>
       let '(fromcache, willparse) := st in
       appends <- CookerCollectFiles.get_file_appends filename ;;
       if cacheValid filename appends
       then ret (fromcache ++ [(filename, appends)], willparse)
       else ret (fromcache, willparse ++ [(filename, appends)]))
    ([], []).

(** Lines 1726-1747.  The pool is started when there is something to
    parse; its results will arrive as [schedule] orders them. *)
Definition start : M cooker unit :=
  p <- the_parser ;;
  if toparse p =? 0
  then update (fun p => with_results p (ResultsIter (fromcache p) false false) [])
  else
    fire (ParseStarted (toparse p)) ;;;
    update (fun p =>
      with_pool
        (with_results p (ResultsIter (fromcache p) true false)
           ((fun j => Parser.parse j.1 j.2) <$> schedule (willparse p)))
        [] 0 0 true false (haveshutdown p)).

(** Lines 1691-1724.  The new object is stored in [cooker.parser], where
    the methods below find it. *)
Definition init (filelist : list string) (masked : Z) : M cooker unit :=
  d <- gets data ;;
  cpus <- gets cpu_count ;;
  num_processes <-
    match nonempty (getVar d "BB_NUMBER_PARSE_THREADS") with
    | Some n =>
        match PyStr.int n with
        | Some n => ret n
        | None => raise ValueError
        end
    | None => ret cpus
    end ;;
  r <- split_by_cache filelist ;;
  let '(fromcache, willparse) := r in
  let total := Z.of_nat (length filelist) in
  let toparse := total - Z.of_nat (length fromcache) in
  modify (set_parser (Some
    (CookerParser _ _ filelist 0 0 0 masked 0 0 total 0 num_processes
       fromcache willparse toparse (Z.max (toparse / 100) 1)
       (ResultsIter [] false false) [] [] 0 0 false false false))) ;;;
  start ;;;
  update (fun p => with_pool p (feeder_quit p) (parser_quit p)
            (job_sentinels p) (processes_alive p) (cache_synced p) false).

(** Lines 1749-1787. *)
Definition shutdown (clean force : bool) : M cooker unit :=
  p <- the_parser ;;
  if toparse p =? 0 then ret tt else
  if haveshutdown p then ret tt else
  let n := Z.max 0 (num_processes p) in
  (if clean then
     fire (ParseCompleted (cached p) (parsed p) (skipped_count p) (masked p)
                          (virtuals p) (error_count p) (total p)) ;;;
     update (fun p => with_pool p (feeder_quit p ++ [None]) (parser_quit p)
               (job_sentinels p + n) false true true)
   else
     update (fun p => with_pool p (feeder_quit p ++ [Some "cancel"%string])
               (parser_quit p + n) (job_sentinels p) false true true)).

(** [self.results.next()]: lines 1789-1792 while [load_cached] has
    entries, then lines 1794-1808.  [None] is [StopIteration].  Waiting on
    a queue that stays empty does not return. *)
Definition next : M cooker (option (bool * list (string * list info))) :=
  p <- the_parser ;;
  let it := results p in
  if exhausted it then ret None else
  match cached_left it with
  | (filename, appends) :: rest =>
      let '(was_cached, infos) := cache_load filename appends in
      update (fun p => with_results p (ResultsIter rest (chained it) false)
                         (result_queue p)) ;;;
      ret (Some (negb was_cached, infos))
  | [] =>
      let stop :=
        update (fun p => with_results p (ResultsIter [] (chained it) true)
                           (result_queue p)) in
      if negb (chained it) then stop ;;; ret None
      else if toparse p <=? parsed p then stop ;;; ret None
      else
        match result_queue p with
        | [] => diverge
        | (flag, Exc e) :: q =>
            update (fun p => with_results p (ResultsIter [] true true) q) ;;;
            throw e
        | (flag, Infos infos) :: q =>
            update (fun p => with_results p (results p) q) ;;;
            ret (Some (flag, infos))
        end
  end.

(** An attribute set on an exception object after its creation. *)
Definition recipe_of (e : exc) : M cooker string :=
  match recipe e with
  | Some r => ret r
  | None => raise AttributeError
  end.

Definition count_error : M cooker unit :=
  update (fun p => with_counts p (parsed p) (cached p) (error_count p + 1)
            (skipped_count p) (virtuals p) (current p)).

(** Lines 1818-1856: the handlers of [parse_next], chosen by the class of
    the exception; a [BaseException] that is no [Exception] is not
    handled. *)
Definition handle (e : exc) : M cooker bool :=
  match exc_class e with
  | SystemExit | KeyboardInterrupt => throw e
  | BBHandledException | CollectionError =>
      count_error ;;;
      r <- recipe_of e ;;
      logger Error "Failed to parse recipe: %s" [AStr r] ;;;
      shutdown false false ;;; ret false
  | ParsingFailure =>
      count_error ;;;
      r <- recipe_of e ;;
      logger Error "Unable to parse %s: %s" [AStr r] ;;;
      shutdown false false ;;; ret false
  | ParseError =>
      count_error ;;;
      logger Error "%s" [] ;;;
      shutdown false false ;;; ret false
  | ExpansionError =>
      count_error ;;;
      r <- recipe_of e ;;
      logger Error "ExpansionError during parsing %s: %s" [AStr r] ;;;
      shutdown false false ;;; ret false
  | SyntaxError =>
      count_error ;;;
      r <- recipe_of e ;;
      logger Error "Unable to parse %s" [AStr r] ;;;
      shutdown false false ;;; ret false
  | _ =>
      count_error ;;;
      match recipe e with
      | Some r =>
          if traceback e then logger Error "Unable to parse %s" [AStr r]
          else raise AttributeError
      | None => logger Error "Exception during parse: %s" []
      end ;;;
      shutdown false false ;;; ret false
  end.

(** Lines 1868-1873: one (virtualfn, info_array) pair of a result. *)
Definition add_virtual (parsed_flag : bool) (v : string * list info)
  : M cooker unit :=
  let '(virtualfn, info_array) := v in
  match info_array with
  | [] => raise IndexError
  | first :: _ =>
      (if skipped first then
         update (fun p => with_counts p (parsed p) (cached p) (error_count p)
                   (skipped_count p + 1) (virtuals p) (current p)) ;;;
         sl <- gets skiplist ;;
         modify (set_skiplist (<[virtualfn := first]> sl))
       else ret tt) ;;;
      rc <- gets recipecache ;;
      modify (set_recipecache (add_info virtualfn info_array rc parsed_flag))
  end.

(** Lines 1858-1874: what [parse_next] does with a result. *)
Definition record_result (parsed_flag : bool)
    (result : list (string * list info)) : M cooker bool :=
  update (fun p => with_counts p (parsed p) (cached p) (error_count p)
            (skipped_count p)
            (virtuals p + Z.of_nat (length result)) (current p + 1)) ;;;
  (if parsed_flag then
     update (fun p => with_counts p (parsed p + 1) (cached p)
               (error_count p) (skipped_count p) (virtuals p)
               (current p)) ;;;
     p <- the_parser ;;
     if parsed p mod progress_chunk p =? 0
     then fire (ParseProgress (parsed p) (toparse p))
     else ret tt
   else
     update (fun p => with_counts p (parsed p) (cached p + 1)
               (error_count p) (skipped_count p) (virtuals p)
               (current p))) ;;;
  for_ result (add_virtual parsed_flag) ;;;
  ret true.

(** Lines 1810-1874. *)
Definition parse_next : M cooker bool :=
  catch next
    (fun r =>
       match r with
       | None => shutdown true false ;;; ret false
       | Some (parsed_flag, result) => record_result parsed_flag result
       end)
    handle.

End defs.
End CookerParser.

(** ** BBCooker *)

Module BBCooker.
Section defs.
Context `{RecipeParser} `{FileSystem}.
Variable schedule : list Parser.job -> list Parser.job.

Definition with_priorities (rc : recipe_cache) (v : list layer_entry)
  : recipe_cache :=
  RecipeCache _ v (ignored_dependencies rc) (world_target rc)
    (universe_target rc) (possible_world rc) (pkg_fn rc) (pn_provides rc)
    (providers rc) (preferred rc) (bbfile_priority rc).

Definition with_ignored (rc : recipe_cache) (v : gset string) : recipe_cache :=
  RecipeCache _ (bbfile_config_priorities rc) v (world_target rc)
    (universe_target rc) (possible_world rc) (pkg_fn rc) (pn_provides rc)
    (providers rc) (preferred rc) (bbfile_priority rc).

Definition with_world_target (rc : recipe_cache) (v : gset string)
  : recipe_cache :=
  RecipeCache _ (bbfile_config_priorities rc) (ignored_dependencies rc) v
    (universe_target rc) (possible_world rc) (pkg_fn rc) (pn_provides rc)
    (providers rc) (preferred rc) (bbfile_priority rc).

Definition with_preferred (rc : recipe_cache) (v : gmap string string)
  : recipe_cache :=
  RecipeCache _ (bbfile_config_priorities rc) (ignored_dependencies rc)
    (world_target rc) (universe_target rc) (possible_world rc) (pkg_fn rc)
    (pn_provides rc) (providers rc) v (bbfile_priority rc).

Definition with_bbfile_priority (rc : recipe_cache) (v : gmap string Z)
  : recipe_cache :=
  RecipeCache _ (bbfile_config_priorities rc) (ignored_dependencies rc)
    (world_target rc) (universe_target rc) (possible_world rc) (pkg_fn rc)
    (pn_provides rc) (providers rc) (preferred rc) v.

Definition update_cache (f : recipe_cache -> recipe_cache) : M cooker unit :=
  modify (fun c => set_recipecache (f (recipecache c)) c).

(** [d[k]] on a dictionary. *)
Definition item {V} (d : gmap string V) (k : string) : M cooker V :=
  match d !! k with
  | Some v => ret v
  | None => raise KeyError
  end.

(** Lines 159-164. *)
Definition sigterm_exception : M cooker unit :=
  logger Warn "Cooker recieved SIGTERM, shutting down..." [] ;;;
  modify (set_state State.forceshutdown).

(** Lines 1371-1375. *)
Definition shutdown (force : bool) : M cooker unit :=
  modify (set_state (if force then State.forceshutdown else State.shutdown)).

(** Lines 1377-1378. *)
Definition finishcommand : M cooker unit := modify (set_state State.initial).

(** Lines 1356-1365. *)
Definition pre_serve : M cooker unit :=
  ok <- gets prserv_ok ;;
  if ok : bool then ret tt
  else fire CookerExit ;;; modify (set_state State.error).

(** Lines 933-1029, on the cooker: the locals are those of module
    [Collections]; what is written to the recipe cache and to the log
    stays when the call raises. *)
Definition handleCollections (fuel : nat) (collections : option string)
  : M cooker unit :=
  fun c =>
    let '(r, L) :=
      Collections.handleCollections (data c) fuel collections Collections.init in
    (r, set_recipecache
          (with_priorities (recipecache c) (Collections.bbfile_config_priorities L))
          (foldl (fun c r => add_log r c) c (Collections.log L))).

(** Lines 360-377.  The verbosity of the log and the nice level of the
    process are outside the model; a nice level that is no number is a
    [ValueError]. *)
Definition parseConfiguration (fuel : nat) : M cooker unit :=
  d <- gets data ;;
  match nonempty (getVar d "BB_NICE_LEVEL") with
  | Some nice =>
      match PyStr.int nice with
      | Some _ => ret tt
      | None => raise ValueError
      end
  | None => ret tt
  end ;;;
  modify (set_recipecache empty_recipe_cache) ;;;
  handleCollections fuel (getVar d "BBFILE_COLLECTIONS").

(** Lines 748-762.  [bb.fatal] logs and raises [BBHandledException]. *)
Definition show_appends_with_no_recipes : M cooker unit :=
  cc <- the_collection ;;
  d <- gets data ;;
  let appends_without_recipes :=
    (fun kv => kv.2) <$>
      filter (fun kv => kv.1 ∉ appliedappendlist cc)
             (map_to_list (appendlist cc)) in
  match appends_without_recipes with
  | [] => ret tt
  | _ =>
      let appendlines := AStr <$> concat appends_without_recipes in
      let warn_only :=
        default "no"%string (nonempty (getVar d "BB_DANGLINGAPPENDS_WARNONLY")) in
      if bool_decide (PyStr.lower warn_only ∈ ["1"; "yes"; "true"]%string)
      then logger Warn "No recipes available for:\n%s" appendlines
      else logger Critical "No recipes available for:\n%s" appendlines ;;;
           raise BBHandledException
  end.

(** Lines 764-779. *)
Definition handlePrefProviders : M cooker unit :=
  d <- gets data ;;
  for_ (PyStr.split (default EmptyString (getVar d "PREFERRED_PROVIDERS")))
    (fun p =>
       match PyStr.split_on ":" p with
       | [providee; provider] =>
           rc <- gets recipecache ;;
           match preferred rc !! providee with
           | Some old =>
               if bool_decide (old = provider) then ret tt
               else logger Error
                      "conflicting preferences for %s: both %s and %s specified"
                      [AStr providee; AStr provider; AStr old]
           | None => ret tt
           end ;;;
           update_cache (fun rc =>
             with_preferred rc (<[providee := provider]> (preferred rc)))
       | _ =>
           logger Critical
             "Malformed option in PREFERRED_PROVIDERS variable: %s" [AStr p]
       end).

(** Lines 914-918: the inner loop over the providers of [p].  The flag
    carried is [true] until the loop is left by [break]; the result tells
    whether it ran to its end. *)
Definition scan_providers (f pn p : string) (pfs : list string)
  : M cooker bool :=
  fold_ pfs
    (fun going pf =>
       if going : bool then
         rc <- gets recipecache ;;
         pn' <- item (pkg_fn rc) pf ;;
         if bool_decide (pn' = pn) then ret true
         else
           logger (Debug 2)
             "World build skipping %s due to both us and %s providing %s"
             [AStr f; AStr pf; AStr p] ;;;
           ret false
       else ret false)
    true.

(** Lines 909-918: the loop over what [pn] provides, carrying
    ([terminal], not yet left by [break]). *)
Definition scan_provides (f pn : string) (ps : list string) : M cooker bool :=
  r <- fold_ ps
    (fun st p =>
       let '(terminal, going) := st in
       if going : bool then
         if PyStr.startswith p "virtual/" then
           logger (Debug 2)
             "World build skipping %s due to %s provider starting with virtual/"
             [AStr f; AStr p] ;;;
           ret (false, false)
         else
           rc <- gets recipecache ;;
           pfs <- item (providers rc) p ;;
           all <- scan_providers f pn p pfs ;;
           ret (terminal && all, true)
       else ret (terminal, going))
    (true, true) ;;
  ret r.1.

(** Lines 900-920. *)
Definition buildWorldTargetList : M cooker unit :=
  logger (Debug 1) "collating packages for 'world'" [] ;;;
  rc <- gets recipecache ;;
  for_ (possible_world rc)
    (fun f =>
       rc <- gets recipecache ;;
       pn <- item (pkg_fn rc) f ;;
       ps <- item (pn_provides rc) pn ;;
       terminal <- scan_provides f pn ps ;;
       if terminal : bool
       then update_cache (fun rc =>
              with_world_target rc ({[pn]} ∪ world_target rc))
       else ret tt).

(** [l.remove(x)]: the first occurrence goes. *)
Fixpoint remove_first (x : string) (l : list string) : list string :=
  match l with
  | [] => []
  | y :: l' => if bool_decide (y = x) then l' else y :: remove_first x l'
  end.

(** The list object at a reference. *)
Definition load (r : nat) : M cooker (list string) :=
  fun c => match heap c !! r with
           | Some l => (Ret l, c)
           | None => (Raise (new_exc TypeError), c)
           end.

(** A method of a list object that changes it in place. *)
Definition mutate (r : nat) (f : list string -> list string) : M cooker unit :=
  fun c => match heap c !! r with
           | Some l => (Ret tt, set_heap (<[r := f l]> (heap c)) c)
           | None => (Raise (new_exc TypeError), c)
           end.

Definition list_remove (r : nat) (x : string) : M cooker unit :=
  mutate r (remove_first x).

Definition list_append (r : nat) (x : string) : M cooker unit :=
  mutate r (fun l => l ++ [x]).

(** [l[:]]: a new list object with the same elements. *)
Definition copy (r : nat) : M cooker nat :=
  fun c => match heap c !! r with
           | Some l =>
               let r' := fresh (dom (heap c)) in
               (Ret r', set_heap (<[r' := l]> (heap c)) c)
           | None => (Raise (new_exc TypeError), c)
           end.

(** Lines 1325-1351.  The argument and the value returned are references
    to list objects. *)
Definition checkPackages (pkgs_to_build : nat) : M cooker nat :=
  pkgs_to_build <- copy pkgs_to_build ;;
  l <- load pkgs_to_build ;;
  match l with
  | [] => raise NothingToBuild
  | _ =>
      d <- gets data ;;
      let ignore := PyStr.split (default EmptyString (getVar d "ASSUME_PROVIDED")) in
      for_ l (fun pkg =>
                if bool_decide (pkg ∈ ignore)
                then logger Warn
                       "Explicit target '%s' is in ASSUME_PROVIDED, ignoring"
                       [AStr pkg]
                else ret tt) ;;;
      (if bool_decide ("world"%string ∈ l) then
         buildWorldTargetList ;;;
         list_remove pkgs_to_build "world" ;;;
         rc <- gets recipecache ;;
         for_ (elements (world_target rc)) (list_append pkgs_to_build)
       else ret tt) ;;;
      l <- load pkgs_to_build ;;
      (if bool_decide ("universe"%string ∈ l) then
         logger Warn
           "The 'universe' target is only intended for testing and may produce errors."
           [] ;;;
         logger (Debug 1) "collating packages for 'universe'" [] ;;;
         list_remove pkgs_to_build "universe" ;;;
         rc <- gets recipecache ;;
         for_ (elements (universe_target rc)) (list_append pkgs_to_build)
       else ret tt) ;;;
      ret pkgs_to_build
  end.

(** [renameVar(key, newkey)] on the datastore. *)
Definition renameVar (key newkey : string) (d : gmap string string)
  : gmap string string :=
  match d !! key with
  | Some v => <[newkey := v]> (delete key d)
  | None => d
  end.

(** Lines 1285-1323.  The value returned is [true] for [True] and [false]
    for [None]. *)
Definition updateCache (fuel : nat) : M cooker bool :=
  st <- gets state ;;
  if bool_decide (st = State.running) then ret false else
  if bool_decide (st = State.shutdown \/ st = State.forceshutdown) then
    p <- gets parser ;;
    match p with
    | Some _ => CookerParser.shutdown false true
    | None => ret tt
    end ;;;
    raise BBHandledException
  else
    (if bool_decide (st = State.parsing) then ret tt else
       parseConfiguration fuel ;;;
       fs <- gets featureset ;;
       (if bool_decide (SEND_SANITYEVENTS ∈ fs) then fire SanityCheck
        else ret tt) ;;;
       d <- gets data ;;
       extra <- gets extra_assume_provided ;;
       let ignore := default EmptyString (getVar d "ASSUME_PROVIDED") in
       update_cache (fun rc =>
         with_ignored rc (list_to_set (PyStr.split ignore ++ extra))) ;;;
       rc <- gets recipecache ;;
       modify (set_collection
                 (Some (CookerCollectFiles.new (bbfile_config_priorities rc)))) ;;;
       r <- CookerCollectFiles.collect_bbfiles ;;
       let '(filelist, masked) := r in
       d <- gets data ;;
       modify (set_data (renameVar "__depends" "__base_depends" d)) ;;;
       CookerParser.init schedule filelist masked ;;;
       modify (set_state State.parsing)) ;;;
    more <- CookerParser.parse_next ;;
    if more : bool then ret true else
      logger (Debug 1) "parsing complete" [] ;;;
      p <- the_parser ;;
      if negb (error_count p =? 0) then raise BBHandledException else
      show_appends_with_no_recipes ;;;
      handlePrefProviders ;;;
      rc <- gets recipecache ;;
      priorities <-
        CookerCollectFiles.collection_priorities (map_to_list (pkg_fn rc)).*1 ;;
      update_cache (fun rc => with_bbfile_priority rc priorities) ;;;
      modify (set_state State.running) ;;;
      ret false.

End defs.
End BBCooker.

(** ** A regular-expression engine for the scenarios

    The fragment of [re] on literal patterns with an optional leading
    anchor: [match] tests a prefix, [search] a substring (a prefix when
    anchored).  A pattern holding any other metacharacter is rejected; of
    these only the unbalanced parenthesis, which [re.compile] rejects too,
    occurs below. *)
Module LiteralRe.

Definition is_meta (a : ascii) : bool :=
  bool_decide (a ∈ String.list_ascii_of_string ".^$*+?{}[]\|()").

Fixpoint literal (s : string) : bool :=
  match s with
  | EmptyString => true
  | String a s' => negb (is_meta a) && literal s'
  end.

Definition compile (s : string) : option (bool * string) :=
  match s with
  | String "^" s' => if literal s' then Some (true, s') else None
  | _ => if literal s then Some (false, s) else None
  end.

Fixpoint contains (p s : string) : bool :=
  String.prefix p s ||
  match s with
  | EmptyString => false
  | String _ s' => contains p s'
  end.

Definition search (r : bool * string) (s : string) : bool :=
  if r.1 then String.prefix r.2 s else contains r.2 s.

Definition match_ (r : bool * string) (s : string) : bool :=
  String.prefix r.2 s.

#[export] Instance engine : Regex :=
  {| regex := bool * string; re_compile := compile;
     re_match := match_; re_search := search |}.

End LiteralRe.

(** Scenario S1: layers A (explicit priority 5), B (depends on A) and
    C (depends on B). *)
Definition S1_data : gmap string string :=
  list_to_map
    [("BBFILE_COLLECTIONS", "A B C");
     ("BBFILE_PRIORITY_A", "5");
     ("LAYERDEPENDS_B", "A");
     ("LAYERDEPENDS_C", "B");
     ("BBFILE_PATTERN_A", "^/layers/a/");
     ("BBFILE_PATTERN_B", "^/layers/");
     ("BBFILE_PATTERN_C", "^/layers/c/")]%string.

(** ** A build host and a recipe parser for the scenarios *)

(** A host on which exactly the paths in [present] exist, all of them
    plain files. *)
Definition flat_fs (present : list string) : FileSystem :=
  {| getcwd := "/build";
     listdir := fun _ => [];
     abspath := fun p => p;
     tree_at := fun _ => None;
     path_exists := fun p => bool_decide (p ∈ present);
     glob := fun p => if bool_decide (p ∈ present) then [p] else [] |}.

(** A recipe parser whose cache holds the files accepted by [valid] and
    which fails on the files for which [broken] names an exception class.
    A recipe has one variant and one info, which tells whether it is
    skipped. *)
Definition toy_parser `{Regex} (valid : string -> bool)
    (broken : string -> option exn_class) : RecipeParser :=
  {| info := bool;
     skipped := fun i => i;
     cacheValid := fun f _ => valid f;
     cache_load := fun f _ => (valid f, [(f, [false])]);
     cache_parse := fun f _ =>
       match broken f with
       | Some c => inr (new_exc c)
       | None => inl [(f, [false])]
       end;
     add_info := fun vfn _ rc _ =>
       RecipeCache _ (bbfile_config_priorities rc) (ignored_dependencies rc)
         (world_target rc) (universe_target rc) (possible_world rc)
         (<[vfn := PyStr.basename vfn]> (pkg_fn rc)) (pn_provides rc)
         (providers rc) (preferred rc) (bbfile_priority rc);
     virtualfn2realfn := fun vfn => (vfn, EmptyString) |}.

(** A cooker in its initial state over a datastore. *)
Definition new_cooker `{RecipeParser} (d : gmap string string) : cooker :=
  Cooker _ _ State.initial d [] [] empty_recipe_cache ∅ None None [] [] true 4 ∅.

(** * Properties *)

(** ** Calls that run in sequence *)

Section monad.
Context {S : Type}.

Lemma bind_inv {A B} (m : M S A) (k : A -> M S B) s out s' :
  bind m k s = (out, s') ->
  (exists a s1, m s = (Ret a, s1) /\ k a s1 = (out, s')) \/
  (exists e, m s = (Raise e, s') /\ out = Raise e) \/
  (m s = (Diverge, s') /\ out = Diverge).
Proof.
  unfold bind. destruct (m s) as [[a|e|] s1]; intros Hk.
  - left. eauto.
  - right. left. inversion Hk. eauto.
  - right. right. inversion Hk. eauto.
Qed.

Lemma bind_inv_ret {A B} (m : M S A) (k : A -> M S B) s b s' :
  bind m k s = (Ret b, s') ->
  exists a s1, m s = (Ret a, s1) /\ k a s1 = (Ret b, s').
Proof.
  intros Hb.
  destruct (bind_inv _ _ _ _ _ Hb) as [?|[(e & _ & [=])|[_ [=]]]]. assumption.
Qed.

Lemma bind_ret {A B} (m : M S A) (k : A -> M S B) s a s1 :
  m s = (Ret a, s1) -> bind m k s = k a s1.
Proof. unfold bind. intros ->. reflexivity. Qed.

Lemma bind_raise {A B} (m : M S A) (k : A -> M S B) s e s1 :
  m s = (Raise e, s1) -> bind m k s = (Raise e, s1).
Proof. unfold bind. intros ->. reflexivity. Qed.

Lemma bind_diverge {A B} (m : M S A) (k : A -> M S B) s s1 :
  m s = (Diverge, s1) -> bind m k s = (Diverge, s1).
Proof. unfold bind. intros ->. reflexivity. Qed.

(** A relation between the state before and the state after that every
    step of a call keeps holds of the whole call. *)
Section frame.
Variable R : S -> S -> Prop.
Context `{!PreOrder R}.

Definition preserves {A} (m : M S A) : Prop :=
  forall s out s', m s = (out, s') -> R s s'.

Lemma preserves_ret {A} (a : A) : preserves (ret a).
Proof. intros s out s' [= <- <-]. reflexivity. Qed.

Lemma preserves_throw {A} e : preserves (@throw S A e).
Proof. intros s out s' [= <- <-]. reflexivity. Qed.

Lemma preserves_raise {A} c : preserves (@raise S A c).
Proof. apply preserves_throw. Qed.

Lemma preserves_diverge {A} : preserves (@diverge S A).
Proof. intros s out s' [= <- <-]. reflexivity. Qed.

Lemma preserves_gets {A} (f : S -> A) : preserves (gets f).
Proof. intros s out s' [= <- <-]. reflexivity. Qed.

Lemma preserves_modify (f : S -> S) :
  (forall s, R s (f s)) -> preserves (modify f).
Proof. intros Hf s out s' [= <- <-]. apply Hf. Qed.

Lemma preserves_bind {A B} (m : M S A) (k : A -> M S B) :
  preserves m -> (forall a, preserves (k a)) -> preserves (bind m k).
Proof.
  intros Hm Hk s out s' Hb.
  destruct (bind_inv _ _ _ _ _ Hb) as [(a & s1 & H1 & H2)|[(e & H1 & _)|[H1 _]]].
  - etransitivity; [eapply Hm | eapply Hk]; eassumption.
  - eapply Hm; eassumption.
  - eapply Hm; eassumption.
Qed.

Lemma preserves_catch {A B} (m : M S A) (ok : A -> M S B) handler :
  preserves m -> (forall a, preserves (ok a)) ->
  (forall e, preserves (handler e)) -> preserves (catch m ok handler).
Proof.
  intros Hm Hok Hh s out s'. unfold catch.
  destruct (m s) as [[a|e|] s1] eqn:Hs; intros Hk.
  - etransitivity; [eapply Hm | eapply Hok]; eassumption.
  - etransitivity; [eapply Hm | eapply Hh]; eassumption.
  - inversion Hk; subst. eapply Hm; eassumption.
Qed.

Lemma preserves_for {A} (l : list A) (body : A -> M S unit) :
  (forall x, preserves (body x)) -> preserves (for_ l body).
Proof.
  intros Hb. induction l as [|x l IH]; simpl.
  - apply preserves_ret.
  - apply preserves_bind; auto.
Qed.

Lemma preserves_fold {A B} (l : list A) (body : B -> A -> M S B) b :
  (forall b x, preserves (body b x)) -> preserves (fold_ l body b).
Proof.
  intros Hb. revert b. induction l as [|x l IH]; intros b; simpl.
  - apply preserves_ret.
  - apply preserves_bind; auto.
Qed.

End frame.

(** What a call returns when it returns. *)
Definition returns {A} (P : A -> Prop) (m : M S A) : Prop :=
  forall s a s', m s = (Ret a, s') -> P a.

Lemma returns_ret {A} (P : A -> Prop) a : P a -> returns P (ret a).
Proof. intros HP s a' s' [= <- <-]. exact HP. Qed.

Lemma returns_raise {A} (P : A -> Prop) c : returns P (raise c).
Proof. intros s a s' [=]. Qed.

Lemma returns_bind {A B} (P : B -> Prop) (m : M S A) (k : A -> M S B) :
  (forall a, returns P (k a)) -> returns P (bind m k).
Proof.
  intros Hk s b s' Hb.
  destruct (bind_inv _ _ _ _ _ Hb) as [(a & s1 & _ & H2)|[(e & _ & [=])|[_ [=]]]].
  eapply Hk, H2.
Qed.

End monad.

(** A call whose outcome is known. *)
Lemma run_eta {St A} (m : M St A) s out : (m s).1 = out -> m s = (out, (m s).2).
Proof. intros <-. by destruct (m s). Qed.

(** Two relations to keep: a component of the state does not change; a
    property of the state, once true, stays true. *)
Definition keeps {S A} (f : S -> A) (s s' : S) : Prop := f s' = f s.

Definition invariant {S} (P : S -> Prop) (s s' : S) : Prop := P s -> P s'.

#[global] Instance keeps_preorder {S A} (f : S -> A) : PreOrder (keeps f).
Proof. split; unfold keeps; [intros s|intros s1 s2 s3]; congruence. Qed.

#[global] Instance invariant_preorder {S} (P : S -> Prop) :
  PreOrder (invariant P).
Proof. split; unfold invariant; [intros s|intros s1 s2 s3]; auto. Qed.

(** The calls that are one write or one read of the cooker. *)
Create HintDb cooker_ops.
#[global] Hint Unfold logger fire BBCooker.update_cache
  CookerCollectFiles.update CookerParser.count_error : cooker_ops.

Lemma read_only {S A} (R : S -> S -> Prop) `{!Reflexive R} (m : M S A) :
  (forall s out s', m s = (out, s') -> s' = s) -> preserves R m.
Proof. intros Hm s out s' Hs. rewrite (Hm _ _ _ Hs). reflexivity. Qed.

Section reads.
Context `{RecipeParser}.

Lemma load_read r c out c' : BBCooker.load r c = (out, c') -> c' = c.
Proof. unfold BBCooker.load. destruct (heap c !! r); congruence. Qed.

Lemma item_read {V} (d : gmap string V) k c out c' :
  BBCooker.item d k c = (out, c') -> c' = c.
Proof. unfold BBCooker.item. destruct (d !! k); cbv; congruence. Qed.

Lemma the_collection_read c out c' : the_collection c = (out, c') -> c' = c.
Proof. unfold the_collection. destruct (collection c); congruence. Qed.

Lemma the_parser_read c out c' : the_parser c = (out, c') -> c' = c.
Proof. unfold the_parser. destruct (parser c); congruence. Qed.

Lemma recipe_of_read e c out c' :
  CookerParser.recipe_of e c = (out, c') -> c' = c.
Proof. unfold CookerParser.recipe_of. destruct (recipe e); cbv; congruence. Qed.

End reads.

(** Closes a leaf [keeps f s (g s)] when [g] does not write to [f]. *)
Ltac kept := unfold keeps; simpl; reflexivity.

(** Breaks a goal [preserves R m] along the structure of [m]; [tac]
    closes the leaves [R s (f s)] of the writes. *)
Ltac frame_with tac :=
  repeat match goal with
    | |- preserves _ _ => assumption
    | |- preserves ?R (ret _) => apply (preserves_ret R)
    | |- preserves ?R (raise _) => apply (preserves_raise R)
    | |- preserves ?R (throw _) => apply (preserves_throw R)
    | |- preserves ?R diverge => apply (preserves_diverge R)
    | |- preserves ?R (gets _) => apply (preserves_gets R)
    | |- preserves ?R (bind _ _) => apply (preserves_bind R); [| intros ?]
    | |- preserves ?R (catch _ _ _) =>
        apply (preserves_catch R); [| intros ? | intros ?]
    | |- preserves ?R (for_ _ _) => apply (preserves_for R); intros ?
    | |- preserves ?R (fold_ _ _ _) => apply (preserves_fold R); intros ? ?
    | |- preserves ?R (modify _) => apply (preserves_modify R); intros ?; tac
    | |- preserves ?R (BBCooker.load _) => apply (read_only R), load_read
    | |- preserves ?R (BBCooker.item _ _) => apply (read_only R), item_read
    | |- preserves ?R the_collection =>
        apply (read_only R), the_collection_read
    | |- preserves ?R the_parser => apply (read_only R), the_parser_read
    | |- preserves ?R (CookerParser.recipe_of _) =>
        apply (read_only R), recipe_of_read
    | |- preserves _ (if ?b then _ else _) => destruct b
    | |- preserves _ (match ?x with _ => _ end) => destruct x
    | |- preserves _ _ => progress autounfold with cooker_ops
    | |- preserves _ _ => solve [tac]
    end.

(** ** checkPackages and the list it is given *)

Section check_packages.
Context `{RecipeParser}.

(** The list object at [r] is the same before and after. *)
Definition same_object (r : nat) : cooker -> cooker -> Prop :=
  keeps (fun c => heap c !! r).

Lemma copy_spec r l c :
  heap c !! r = Some l ->
  let r' := fresh (dom (heap c)) in
  r' <> r /\ BBCooker.copy r c = (Ret r', set_heap (<[r' := l]> (heap c)) c).
Proof.
  intros Hl r'. split.
  - intros Heq. apply (is_fresh (dom (heap c))). fold r'. rewrite Heq.
    apply elem_of_dom. eauto.
  - unfold BBCooker.copy. rewrite Hl. reflexivity.
Qed.

Lemma mutate_same_object r r1 f :
  r1 <> r -> preserves (same_object r) (BBCooker.mutate r1 f).
Proof.
  intros Hne c out c'. unfold BBCooker.mutate, same_object, keeps.
  destruct (heap c !! r1); intros [= <- <-]; simpl; [|done].
  by rewrite lookup_insert_ne.
Qed.

(** [C10]  [checkPackages] works on a copy: the list object it is given
    holds the same elements in the same order after the call, whatever
    the call does (it may return a list with 'world' or 'universe'
    expanded, or raise), and the list it returns is another object. *)
Theorem checkPackages_keeps_argument (c : cooker) (r : nat) (l : list string) :
  heap c !! r = Some l ->
  heap (BBCooker.checkPackages r c).2 !! r = Some l /\
  (forall r', (BBCooker.checkPackages r c).1 = Ret r' -> r' <> r).
Proof.
  intros Hl. destruct (copy_spec r l c Hl) as [Hne Hcopy].
  set (r1 := fresh (dom (heap c))) in *.
  unfold BBCooker.checkPackages. rewrite (bind_ret _ _ _ _ _ Hcopy).
  match goal with |- context [?k (set_heap ?h c)] =>
    set (k' := k); set (c1 := set_heap h c) end.
  destruct (k' c1) as [out c'] eqn:Hk. simpl. split.
  - assert (Hp : preserves (same_object r) k').
    { subst k'. pose proof (mutate_same_object r r1) as Hm.
      unfold BBCooker.buildWorldTargetList, BBCooker.scan_provides,
        BBCooker.scan_providers, BBCooker.list_remove, BBCooker.list_append.
      frame_with ltac:(first [ by apply Hm | reflexivity ]). }
    rewrite (Hp _ _ _ Hk). subst c1. simpl.
    rewrite lookup_insert_ne by done. exact Hl.
  - intros r' ->.
    assert (Hr : returns (fun x => x = r1) k').
    { subst k'. apply returns_bind. intros l'.
      destruct l'; [apply returns_raise|].
      repeat (apply returns_bind; intros ?). apply returns_ret. reflexivity. }
    rewrite (Hr _ _ _ Hk). exact Hne.
Qed.

Lemma mutate_keeps {A} (f : cooker -> A) r g :
  (forall c h, f (set_heap h c) = f c) ->
  preserves (keeps f) (BBCooker.mutate r g).
Proof.
  intros Hf c out c'. unfold BBCooker.mutate, keeps.
  destruct (heap c !! r); intros [= <- <-]; [apply Hf|done].
Qed.

Lemma mutate_invariant (P : cooker -> Prop) r g :
  (forall c h, P c -> P (set_heap h c)) ->
  preserves (invariant P) (BBCooker.mutate r g).
Proof.
  intros HP c out c'. unfold BBCooker.mutate, invariant.
  destruct (heap c !! r); intros [= <- <-]; [apply HP|done].
Qed.

(** The record of the warning of line 1336. *)
Definition warned (pkg : string) : log_record :=
  Log Warn "Explicit target '%s' is in ASSUME_PROVIDED, ignoring" [AStr pkg].

Definition warn_if (ignore : list string) (pkg : string) : M cooker unit :=
  if bool_decide (pkg ∈ ignore)
  then logger Warn "Explicit target '%s' is in ASSUME_PROVIDED, ignoring"
         [AStr pkg]
  else ret tt.

Lemma warn_loop (ignore l : list string) (pkg : string) c out c' :
  for_ l (warn_if ignore) c = (out, c') ->
  pkg ∈ l -> pkg ∈ ignore -> out = Ret tt /\ warned pkg ∈ log c'.
Proof.
  assert (Hinv : forall l, preserves (invariant (fun c => warned pkg ∈ log c))
                             (for_ l (warn_if ignore))).
  { intros l0. unfold warn_if.
    frame_with ltac:(unfold invariant; simpl; rewrite ?elem_of_app; tauto). }
  assert (Hret : forall l c out c',
             for_ l (warn_if ignore) c = (out, c') -> out = Ret tt).
  { clear. intros l. induction l as [|x l IH]; intros c out c'; simpl.
    - by intros [= <- _].
    - unfold bind, warn_if. destruct (bool_decide (x ∈ ignore)); simpl; apply IH. }
  intros Hfor Hin Hign. split; [eapply Hret, Hfor|].
  revert c Hfor. induction l as [|x l IH]; intros c Hfor; [by inversion Hin|].
  simpl in Hfor. unfold bind in Hfor.
  destruct (warn_if ignore x c) as [[[]|e|] c1] eqn:Hx.
  - apply elem_of_cons in Hin as [->|Hin]; [|by eapply IH].
    eapply (Hinv l _ _ _ Hfor).
    unfold warn_if in Hx. rewrite bool_decide_eq_true_2 in Hx by done.
    injection Hx as <-. simpl. set_solver.
  - unfold warn_if in Hx. destruct (bool_decide _); discriminate.
  - unfold warn_if in Hx. destruct (bool_decide _); discriminate.
Qed.

Lemma remove_first_other (x y : string) l :
  y ≠ x -> y ∈ l -> y ∈ BBCooker.remove_first x l.
Proof.
  intros Hne. induction l as [|z l IH]; simpl; [done|].
  intros [->|Hin]%elem_of_cons.
  - rewrite bool_decide_eq_false_2 by done. set_solver.
  - destruct (bool_decide (z = x)); set_solver.
Qed.

(** The list at [r] holds [pkg]. *)
Definition lists (r : nat) (pkg : string) (c : cooker) : Prop :=
  exists l, heap c !! r = Some l /\ pkg ∈ l.

Lemma mutate_lists r pkg f :
  (forall l, pkg ∈ l -> pkg ∈ f l) ->
  preserves (invariant (lists r pkg)) (BBCooker.mutate r f).
Proof.
  intros Hf c out c'. unfold BBCooker.mutate, invariant, lists.
  destruct (heap c !! r) as [l|] eqn:Hl; intros [= <- <-]; simpl;
    [|by intros (? & ? & ?)].
  intros (l' & Hl' & Hin). simplify_eq.
  eexists. rewrite lookup_insert_eq. eauto.
Qed.

(** [C7]  A target of [checkPackages] that is in ASSUME_PROVIDED is warned
    about and stays in the list returned (only the first 'world' and the
    first 'universe' are taken out of it); the set of ignored
    dependencies is the same after the call. *)
Theorem checkPackages_assume_provided (c c' : cooker) (r r' : nat)
    (l : list string) (pkg : string) :
  heap c !! r = Some l ->
  pkg ∈ l ->
  pkg ∈ PyStr.split (default EmptyString (getVar (data c) "ASSUME_PROVIDED")) ->
  BBCooker.checkPackages r c = (Ret r', c') ->
  warned pkg ∈ log c' /\
  (pkg ≠ "world"%string -> pkg ≠ "universe"%string -> lists r' pkg c') /\
  ignored_dependencies (recipecache c') = ignored_dependencies (recipecache c).
Proof.
  intros Hl Hin Hign Hrun.
  destruct (copy_spec r l c Hl) as [Hne Hcopy].
  set (r1 := fresh (dom (heap c))) in *.
  unfold BBCooker.checkPackages in Hrun.
  rewrite (bind_ret _ _ _ _ _ Hcopy) in Hrun.
  set (c1 := set_heap _ c) in *.
  assert (Hload : BBCooker.load r1 c1 = (Ret l, c1)).
  { unfold BBCooker.load. subst c1. simpl. by rewrite lookup_insert_eq. }
  rewrite (bind_ret _ _ _ _ _ Hload) in Hrun.
  destruct l as [|x l]; [by inversion Hin|].
  unfold bind at 1, gets at 1 in Hrun.
  change (data c1) with (data c) in Hrun.
  fold (warn_if (PyStr.split (default EmptyString (getVar (data c) "ASSUME_PROVIDED"))))
    in Hrun.
  set (ignore := PyStr.split _) in *.
  destruct (for_ (x :: l) (warn_if ignore) c1) as [out2 c2] eqn:Hwarn.
  destruct (warn_loop _ _ _ _ _ _ Hwarn Hin Hign) as [-> Hlog].
  rewrite (bind_ret _ _ _ _ _ Hwarn) in Hrun.
  match type of Hrun with ?k c2 = _ => set (k' := k) in * end.
  assert (Hr : returns (fun y => y = r1) k').
  { subst k'. repeat (apply returns_bind; intros ?). by apply returns_ret. }
  rewrite (Hr _ _ _ Hrun) in *. clear Hr.
  assert (Hc2 : preserves (keeps (fun c => (heap c, recipecache c)))
                          (for_ (x :: l) (warn_if ignore))).
  { unfold warn_if. frame_with kept. }
  specialize (Hc2 _ _ _ Hwarn). unfold keeps in Hc2. injection Hc2 as Hh2 Hrc2.
  split; [|split].
  - assert (Hp : preserves (invariant (fun c => warned pkg ∈ log c)) k').
    { subst k'.
      unfold BBCooker.buildWorldTargetList, BBCooker.scan_provides,
        BBCooker.scan_providers, BBCooker.list_remove, BBCooker.list_append.
      frame_with ltac:(first
        [ by apply mutate_invariant
        | unfold invariant; simpl; rewrite ?elem_of_app; tauto ]). }
    apply (Hp _ _ _ Hrun), Hlog.
  - intros Hw Hu.
    assert (Hp : preserves (invariant (lists r1 pkg)) k').
    { subst k'.
      unfold BBCooker.buildWorldTargetList, BBCooker.scan_provides,
        BBCooker.scan_providers, BBCooker.list_remove, BBCooker.list_append.
      frame_with ltac:(first
        [ apply mutate_lists; intros ?; first
            [ by apply remove_first_other
            | rewrite elem_of_app; by left ]
        | unfold invariant, lists; simpl; done ]). }
    apply (Hp _ _ _ Hrun). exists (x :: l). rewrite Hh2. subst c1. simpl.
    by rewrite lookup_insert_eq.
  - assert (Hp : preserves (keeps (fun c => ignored_dependencies (recipecache c))) k').
    { subst k'.
      unfold BBCooker.buildWorldTargetList, BBCooker.scan_provides,
        BBCooker.scan_providers, BBCooker.list_remove, BBCooker.list_append.
      frame_with ltac:(first [ by apply mutate_keeps | kept ]). }
    rewrite (Hp _ _ _ Hrun), Hrc2. reflexivity.
Qed.

End check_packages.

(** ** The priority of a file *)

Section file_priority.
Context `{Regex}.

(** The entries of [bbfile_config_priorities] whose pattern matches [f],
    in the order of the list, which is that of BBFILE_COLLECTIONS. *)
Definition matching (priorities : list layer_entry) (f : string)
  : list layer_entry :=
  filter (fun e => re_match (le_regex e) f = true) priorities.

(** The highest priority among the layers that match [f]. *)
Definition highest_matching (priorities : list layer_entry) (f : string) : Z :=
  foldr Z.max 0 (le_priority <$> matching priorities f).

End file_priority.

(** The list that [handleCollections] stores for scenario S1. *)
Definition S1_priorities : list (@layer_entry LiteralRe.engine) :=
  Collections.bbfile_config_priorities
    (Collections.handleCollections S1_data 10
       (getVar S1_data "BBFILE_COLLECTIONS") Collections.init).2.

(** The same layers, listed as A C B. *)
Definition S1_reordered : list (@layer_entry LiteralRe.engine) :=
  Collections.bbfile_config_priorities
    (Collections.handleCollections S1_data 10 (Some "A C B"%string)
       Collections.init).2.

Section assigned_priority.
Context `{RecipeParser}.

(** The set [matched] has no part in the priority returned. *)
Lemma calc_bbfile_priority_any priorities f matched :
  (CookerCollectFiles.calc_bbfile_priority priorities f matched).1 =
  match matching priorities f with
  | e :: _ => le_priority e
  | [] => 0
  end.
Proof.
  unfold matching. induction priorities as [|e rest IH]; [reflexivity|].
  simpl. rewrite filter_cons.
  destruct (re_match (le_regex e) f) eqn:He.
  - rewrite decide_True by done. reflexivity.
  - rewrite decide_False by done. exact IH.
Qed.

(** The loop of lines 1550-1552. *)
Lemma priorities_fold (cc : collector) pkgfns :
  forall (pr : gmap string Z) (m : gset string) (p : string),
  (foldl (fun st p =>
            let '(priorities, matched) := st in
            let realfn := (virtualfn2realfn p).1 in
            let r := CookerCollectFiles.calc_bbfile_priority
                       (cc_priorities cc) realfn (Some matched) in
            (<[p := r.1]> priorities, default matched r.2))
         (pr, m) pkgfns).1 !! p
  = if bool_decide (p ∈ pkgfns)
    then Some match matching (cc_priorities cc) (virtualfn2realfn p).1 with
              | e :: _ => le_priority e
              | [] => 0
              end
    else pr !! p.
Proof.
  induction pkgfns as [|x l IH]; intros pr m p; [done|].
  cbn [foldl]. rewrite IH, calc_bbfile_priority_any.
  destruct (decide (p = x)) as [->|Hne].
  - rewrite (bool_decide_eq_true_2 (x ∈ x :: l)) by left.
    case_bool_decide; [done|]. by rewrite lookup_insert_eq.
  - rewrite lookup_insert_ne by done.
    case_bool_decide as Hl.
    + by rewrite bool_decide_eq_true_2 by (by right).
    + rewrite bool_decide_eq_false_2; [done|].
      by intros [->|Hin]%elem_of_cons.
Qed.

Lemma unmatched_loop (cc : collector) (matched : gset string) es : forall c,
  exists c',
    for_ es
      (fun e =>
         if bool_decide (le_pattern e ∈ matched) ||
            CookerCollectFiles.findmatch cc (le_regex e)
         then ret tt
         else logger Warn "No bb files matched BBFILE_PATTERN_%s '%s'"
                     [AStr (le_name e); AStr (le_pattern e)]) c
    = (Ret tt, c').
Proof.
  induction es as [|e es IH]; intros c; [by exists c|].
  cbn [for_]. destruct (_ || _).
  - destruct (IH c) as (c' & Hrun). by exists c'.
  - destruct (IH (add_log (Log Warn "No bb files matched BBFILE_PATTERN_%s '%s'"
                             [AStr (le_name e); AStr (le_pattern e)]) c))
      as (c' & Hrun).
    by exists c'.
Qed.

Lemma collection_priorities_first_match c cc pkgfns :
  collection c = Some cc ->
  exists priorities,
    (CookerCollectFiles.collection_priorities pkgfns c).1 = Ret priorities /\
    forall p,
      priorities !! p
      = if bool_decide (p ∈ pkgfns)
        then Some match matching (cc_priorities cc) (virtualfn2realfn p).1 with
                  | e :: _ => le_priority e
                  | [] => 0
                  end
        else None.
Proof.
  intros Hcc. unfold CookerCollectFiles.collection_priorities.
  unfold bind at 1, the_collection. rewrite Hcc.
  pose proof (priorities_fold cc pkgfns ∅ ∅) as Hfold.
  destruct (foldl _ (∅, ∅) pkgfns) as [priorities matched].
  destruct (unmatched_loop cc matched (cc_priorities cc) c) as (c' & Hrun).
  exists priorities. split; [by erewrite bind_ret by exact Hrun|].
  intros p. specialize (Hfold p). simpl in Hfold. rewrite Hfold.
  by rewrite lookup_empty.
Qed.

End assigned_priority.

(** [C8], as stated, fails: in S1 the file below matches the patterns of
    B (priority 6) and of C (priority 7) and nothing else; the collector
    gives it 6, not the highest of the two. *)
Lemma S1_overlap_not_highest :
  let f := "/layers/c/foo_1.0.bb"%string in
  (fun e => (le_name e, le_priority e)) <$> matching S1_priorities f
    = [("B"%string, 6); ("C"%string, 7)] /\
  (CookerCollectFiles.calc_bbfile_priority S1_priorities f None).1 = 6 /\
  (CookerCollectFiles.calc_bbfile_priority S1_priorities f None).1
    <> highest_matching S1_priorities f.
Proof. vm_compute. repeat split. discriminate. Qed.

(** [C8]  The priority the collector gives a file is that of the first
    layer, in the order of BBFILE_COLLECTIONS, whose pattern matches it,
    and 0 when none does, whatever set [matched] the call is given: so
    it is for the key of the sort of BBFILES (line 1461, no set) and for
    the priorities that [collection_priorities] assigns to the recipe
    files (line 1552, with a set).  In S1, with the collections listed
    as A B C, the file that matches B (6) and C (7) gets 6; listed as
    A C B, it gets 7. *)
Theorem calc_bbfile_priority_first_match :
  (forall (R : Regex) (priorities : list layer_entry) (f : string)
          (matched : option (gset string)),
     (CookerCollectFiles.calc_bbfile_priority priorities f matched).1 =
     match matching priorities f with
     | e :: _ => le_priority e
     | [] => 0
     end) /\
  (forall (R : Regex) (P : RecipeParser) (c : cooker) (cc : collector)
          (pkgfns : list string),
     collection c = Some cc ->
     exists priorities,
       (CookerCollectFiles.collection_priorities pkgfns c).1 = Ret priorities /\
       forall p,
         priorities !! p
         = if bool_decide (p ∈ pkgfns)
           then Some match matching (cc_priorities cc) (virtualfn2realfn p).1 with
                     | e :: _ => le_priority e
                     | [] => 0
                     end
           else None) /\
  (fun e => (le_name e, le_priority e)) <$> S1_priorities
    = [("A"%string, 5); ("B"%string, 6); ("C"%string, 7)] /\
  (forall matched,
     (CookerCollectFiles.calc_bbfile_priority S1_priorities
        "/layers/c/foo_1.0.bb" matched).1 = 6) /\
  (fun e => (le_name e, le_priority e)) <$> S1_reordered
    = [("A"%string, 5); ("C"%string, 7); ("B"%string, 6)] /\
  (forall matched,
     (CookerCollectFiles.calc_bbfile_priority S1_reordered
        "/layers/c/foo_1.0.bb" matched).1 = 7).
Proof.
  split; [|split; [|split; [|split; [|split]]]].
  - intros R priorities f matched.
    induction priorities as [|e rest IH]; [reflexivity|].
    unfold matching in *. simpl. rewrite filter_cons.
    destruct (re_match (le_regex e) f) eqn:He.
    + rewrite decide_True by done. reflexivity.
    + rewrite decide_False by done. exact IH.
  - intros R P. apply collection_priorities_first_match.
  - vm_compute. reflexivity.
  - intros [m|]; vm_compute; reflexivity.
  - vm_compute. reflexivity.
  - intros [m|]; vm_compute; reflexivity.
Qed.

Section assigned_priority_scenario.
#[local] Existing Instance LiteralRe.engine.
#[local] Instance priority_parser : RecipeParser :=
  toy_parser (fun _ => false) (fun _ => None).

(** A cooker whose collector has the layers of S1. *)
Definition S1_cooker : cooker :=
  set_collection (Some (CookerCollectFiles.new S1_priorities)) (new_cooker ∅).

Lemma calc_bbfile_priority_first_match_witness :
  exists priorities,
    (CookerCollectFiles.collection_priorities
       ["/layers/c/foo_1.0.bb"; "/elsewhere/bar.bb"]%string S1_cooker).1
      = Ret priorities /\
    forall p,
      priorities !! p
      = if bool_decide (p ∈ ["/layers/c/foo_1.0.bb"; "/elsewhere/bar.bb"]%string)
        then Some match matching S1_priorities (virtualfn2realfn p).1 with
                  | e :: _ => le_priority e
                  | [] => 0
                  end
        else None.
Proof.
  apply (proj1 (proj2 calc_bbfile_priority_first_match) _ _ S1_cooker
           (CookerCollectFiles.new S1_priorities)).
  reflexivity.
Defined.

(** The priorities assigned in S1: 6 for the file under B and C, 0 for a
    file under no layer. *)
Example S1_assigned :
  map_to_list <$>
    match (CookerCollectFiles.collection_priorities
             ["/layers/c/foo_1.0.bb"; "/elsewhere/bar.bb"]%string S1_cooker).1
    with Ret priorities => Some priorities | _ => None end
  = Some [("/elsewhere/bar.bb"%string, 0); ("/layers/c/foo_1.0.bb"%string, 6)].
Proof. vm_compute. reflexivity. Qed.

End assigned_priority_scenario.

(** ** collect_bbfiles and a mask that does not compile *)

Section invalid_mask.
#[local] Existing Instance LiteralRe.engine.
#[local] Instance mask_parser : RecipeParser :=
  toy_parser (fun _ => false) (fun _ => None).
#[local] Instance mask_fs : FileSystem :=
  flat_fs ["/l/a.bb"; "/l/a.bbappend"; "/l/b.txt"]%string.

(** A cooker with a fresh collector, BBFILES naming a recipe, an append
    and a text file, and the given BBMASK. *)
Definition mask_cooker (bbmask : option string) : cooker :=
  let d : gmap string string :=
    {[ "BBFILES"%string := "/l/a.bb /l/a.bbappend /l/b.txt"%string ]} in
  set_collection (Some (CookerCollectFiles.new []))
    (new_cooker (match bbmask with
                 | Some m => <["BBMASK"%string := m]> d
                 | None => d
                 end)).

(** [C6]  With BBMASK = "(" the collector reports the mask and returns at
    once: the list returned still holds the append and the text file, and
    neither the index of appends nor the overlays are built.  With BBMASK
    unset the same files give the recipe alone and an index with the
    append. *)
Lemma collect_bbfiles_invalid_mask :
  let bad := CookerCollectFiles.collect_bbfiles (mask_cooker (Some "("%string)) in
  let none := CookerCollectFiles.collect_bbfiles (mask_cooker None) in
  re_compile "(" = None /\
  lvl <$> log bad.2 = [Debug 1; Critical] /\
  bad.1 = Ret (["/l/a.bb"; "/l/a.bbappend"; "/l/b.txt"]%string, 0) /\
  none.1 = Ret (["/l/a.bb"]%string, 0) /\
  (map_to_list <$> (appendlist <$> collection bad.2)) = Some [] /\
  (map_to_list <$> (appendlist <$> collection none.2))
    = Some [("a.bb"%string, ["/l/a.bbappend"%string])] /\
  (overlayed <$> collection bad.2) = Some None /\
  (overlayed <$> collection none.2) = Some (Some ∅).
Proof.
  repeat (split; [vm_compute; reflexivity|]). vm_compute. reflexivity.
Qed.

End invalid_mask.

(** ** updateCache and the state of the cooker *)

Section update_cache.
Context `{RecipeParser} `{FileSystem}.
Variable schedule : list Parser.job -> list Parser.job.

(** A write to the parser object keeps what does not read the fields it
    changes. *)
Lemma update_keeps {A} (f : cooker -> A) g :
  (forall c p, parser c = Some p -> f (set_parser (Some (g p)) c) = f c) ->
  preserves (keeps f) (CookerParser.update g).
Proof.
  intros Hg c out c'. unfold CookerParser.update, bind, the_parser, keeps.
  destruct (parser c) as [p|] eqn:Hp; intros [= <- <-]; [by apply Hg|done].
Qed.







End update_cache.

(** ** The parser: its start and one result *)

Section parser_props.
Context `{RecipeParser} `{FileSystem}.
Variable schedule : list Parser.job -> list Parser.job.

Lemma init_spec files masked c c' :
  CookerParser.init schedule files masked c = (Ret tt, c') ->
  exists fc wp c1 p,
    CookerParser.split_by_cache files c = (Ret (fc, wp), c1) /\
    parser c' = Some p /\
    filelist p = files /\ fromcache p = fc /\ willparse p = wp /\
    total p = Z.of_nat (length files) /\
    toparse p = total p - Z.of_nat (length fc) /\
    progress_chunk p = Z.max (toparse p / 100) 1 /\
    parsed p = 0 /\
    results p = ResultsIter fc (negb (toparse p =? 0)) false /\
    result_queue p =
      (if toparse p =? 0 then []
       else (fun j => Parser.parse j.1 j.2) <$> schedule wp) /\
    events c' = events c1 ++ (if toparse p =? 0 then [] else [ParseStarted (toparse p)]).
Proof.
  unfold CookerParser.init. intros Hrun.
  apply bind_inv_ret in Hrun as (d & c0 & [= <- <-] & Hrun).
  apply bind_inv_ret in Hrun as (cpus & c0 & [= <- <-] & Hrun).
  apply bind_inv_ret in Hrun as (np & c0 & Hnp & Hrun).
  assert (c0 = c) as ->.
  { destruct (nonempty _); [destruct (PyStr.int _)|]; by inversion Hnp. }
  apply bind_inv_ret in Hrun as ([fc wp] & c1 & Hsplit & Hrun).
  exists fc, wp, c1.
  unfold CookerParser.start, CookerParser.update in Hrun.
  unfold bind, modify, the_parser, fire in Hrun. simpl in Hrun.
  destruct (Z.of_nat (length files) - Z.of_nat (length fc) =? 0) eqn:Hz;
    simpl in Hrun; injection Hrun as <-;
    (eexists; split; [eassumption|]; split; [reflexivity|]);
    cbv [CookerParser.with_pool CookerParser.with_results]; simpl;
    rewrite ?Hz; repeat split; eauto; by rewrite app_nil_r.
Qed.

Lemma update_run g c p :
  parser c = Some p ->
  CookerParser.update g c = (Ret tt, set_parser (Some (g p)) c).
Proof. intros Hp. unfold CookerParser.update, bind, the_parser. by rewrite Hp. Qed.

Lemma the_parser_run c p : parser c = Some p -> the_parser c = (Ret p, c).
Proof. intros Hp. unfold the_parser. by rewrite Hp. Qed.

(** What the progress report reads: the events fired so far and three
    fields of the parser. *)
Definition progress_view (c : cooker) : list event * option (Z * Z * Z) :=
  (events c, (fun p => (parsed p, toparse p, progress_chunk p)) <$> parser c).

Ltac view_leaf :=
  first
    [ apply update_keeps; let Hp := fresh in
      intros ? ? Hp; unfold progress_view; simpl; rewrite Hp; reflexivity
    | unfold keeps, progress_view; simpl; reflexivity ].

Lemma next_progress_view : preserves (keeps progress_view) CookerParser.next.
Proof. unfold CookerParser.next. frame_with view_leaf. Qed.

Lemma add_virtuals_progress_view flag result :
  preserves (keeps progress_view) (for_ result (CookerParser.add_virtual flag)).
Proof. unfold CookerParser.add_virtual. frame_with view_leaf. Qed.

Lemma parse_next_fresh c c1 p result out c' :
  parser c = Some p ->
  CookerParser.next c = (Ret (Some (true, result)), c1) ->
  CookerParser.parse_next c = (out, c') ->
  progress_view c' =
    (events c ++
       (if (parsed p + 1) mod progress_chunk p =? 0
        then [ParseProgress (parsed p + 1) (toparse p)] else []),
     Some (parsed p + 1, toparse p, progress_chunk p)).
Proof.
  intros Hp Hnext Hrun.
  pose proof (next_progress_view _ _ _ Hnext) as Hv.
  unfold keeps, progress_view in Hv. rewrite Hp in Hv. simpl in Hv.
  destruct (parser c1) as [p1|] eqn:Hp1; [|discriminate].
  injection Hv as Hev Hparsed Htoparse Hchunk.
  unfold CookerParser.parse_next, catch in Hrun. rewrite Hnext in Hrun.
  unfold CookerParser.record_result in Hrun.
  rewrite (bind_ret _ _ _ _ _ (update_run _ _ _ Hp1)) in Hrun.
  match type of Hrun with bind ?m _ ?c2 = _ =>
    assert (Hmid : exists c3, m c2 = (Ret tt, c3) /\
      progress_view c3 =
        (events c ++
           (if (parsed p + 1) mod progress_chunk p =? 0
            then [ParseProgress (parsed p + 1) (toparse p)] else []),
         Some (parsed p + 1, toparse p, progress_chunk p)))
  end.
  { unfold bind, CookerParser.update, the_parser, modify, fire,
      progress_view. simpl.
    rewrite Hparsed, Hchunk, Htoparse.
    destruct ((parsed p + 1) mod progress_chunk p =? 0);
      eexists; (split; [reflexivity|]); simpl;
      rewrite ?Hparsed, ?Hchunk, ?Htoparse, ?Hev, ?app_nil_r; reflexivity. }
  destruct Hmid as (c3 & Hmid & Hview).
  rewrite (bind_ret _ _ _ _ _ Hmid) in Hrun.
  assert (Hrest : preserves (keeps progress_view)
            (for_ result (CookerParser.add_virtual true) ;;; ret true)).
  { pose proof (add_virtuals_progress_view true result).
    frame_with view_leaf. }
  rewrite (Hrest _ _ _ Hrun). exact Hview.
Qed.

Lemma parse_next_cached c c1 result out c' :
  CookerParser.next c = (Ret (Some (false, result)), c1) ->
  CookerParser.parse_next c = (out, c') ->
  progress_view c' = progress_view c.
Proof.
  intros Hnext Hrun.
  rewrite <- (next_progress_view _ _ _ Hnext).
  unfold CookerParser.parse_next, catch in Hrun. rewrite Hnext in Hrun.
  revert Hrun. apply (fun P => P c1 out c').
  change (preserves (keeps progress_view) (CookerParser.record_result false result)).
  unfold CookerParser.record_result.
  pose proof (add_virtuals_progress_view false result).
  frame_with view_leaf.
Qed.

(** [C9]  The parser reports progress by the files it has to parse, not
    by all the files collected: [progress_chunk] is
    max(toparse / 100, 1) with toparse = total - len(fromcache); a freshly
    parsed result fires ParseProgress exactly when the new count of
    parsed files is a multiple of [progress_chunk]; a result loaded from
    the cache fires nothing and counts for nothing. *)
Theorem progress_every_chunk :
  (forall files masked c,
     (CookerParser.init schedule files masked c).1 = Ret tt ->
     exists p,
       parser (CookerParser.init schedule files masked c).2 = Some p /\
       total p = Z.of_nat (length files) /\
       toparse p = total p - Z.of_nat (length (fromcache p)) /\
       progress_chunk p = Z.max (toparse p / 100) 1) /\
  (forall c c1 p result out c',
     parser c = Some p ->
     CookerParser.next c = (Ret (Some (true, result)), c1) ->
     CookerParser.parse_next c = (out, c') ->
     progress_view c' =
       (events c ++
          (if (parsed p + 1) mod progress_chunk p =? 0
           then [ParseProgress (parsed p + 1) (toparse p)] else []),
        Some (parsed p + 1, toparse p, progress_chunk p))) /\
  (forall c c1 result out c',
     CookerParser.next c = (Ret (Some (false, result)), c1) ->
     CookerParser.parse_next c = (out, c') ->
     progress_view c' = progress_view c).
Proof.
  split; [|split].
  - intros files masked c Hinit.
    destruct (CookerParser.init schedule files masked c) as [out c'] eqn:Hrun.
    simpl in Hinit. subst out.
    destruct (init_spec _ _ _ _ Hrun)
      as (fc & wp & c1 & p & _ & Hp & _ & Hfc & _ & Ht & Htp & Hch & _).
    exists p. rewrite Hfc. auto.
  - apply parse_next_fresh.
  - apply parse_next_cached.
Qed.









(** *** The state of the cooker over a call of updateCache *)





(** The state is left as it is or set to Parsing. *)
Definition entering (c c' : cooker) : Prop :=
  state c' = state c \/ state c' = State.parsing.

#[local] Instance entering_preorder : PreOrder entering.
Proof.
  split.
  - intros c. by left.
  - intros c1 c2 c3 [H12|H12] [H23|H23]; unfold entering;
      rewrite ?H23, ?H12; auto.
Qed.











(** *** The split by the cache and the stream of results *)

(** What [bb.cache] promises: [load] reports a cache hit for a file whose
    cache entry is valid, and every info array has its first element. *)
Definition infos_ok (infos : list (string * list info)) : Prop :=
  Forall (fun v => v.2 <> []) infos.

Record cache_contract : Prop := {
  load_hit : forall f a, cacheValid f a = true -> (cache_load f a).1 = true;
  load_ok : forall f a, infos_ok (cache_load f a).2;
  parse_ok : forall f a infos, cache_parse f a = inl infos -> infos_ok infos
}.

(** The appends of [fn], as [get_file_appends] returns them in state [c]. *)
Definition appends_of (c : cooker) (fn : string) : list string :=
  from_option (fun cc => concat (CookerCollectFiles.applicable cc fn).*2) []
              (collection c).

Definition job_of (c : cooker) (fn : string) : Parser.job :=
  (fn, appends_of c fn).

Definition valid (j : Parser.job) : Prop := cacheValid j.1 j.2 = true.

Lemma get_file_appends_run fn c :
  is_Some (collection c) ->
  exists c', CookerCollectFiles.get_file_appends fn c
             = (Ret (appends_of c fn), c') /\
             is_Some (collection c') /\
             (forall f, appends_of c' f = appends_of c f).
Proof.
  intros [cc Hcc].
  unfold CookerCollectFiles.get_file_appends, CookerCollectFiles.update,
    bind, the_collection, modify, ret, appends_of.
  repeat (rewrite Hcc; simpl). eexists. split; [reflexivity|]. simpl.
  split; [eauto|]. reflexivity.
Qed.

Lemma split_by_cache_fold files : forall acc c,
  is_Some (collection c) ->
  exists c',
    fold_ files
      (fun st filename =>
         let '(fromcache, willparse) := st in
         appends <- CookerCollectFiles.get_file_appends filename ;;
         if cacheValid filename appends
         then ret (fromcache ++ [(filename, appends)], willparse)
         else ret (fromcache, willparse ++ [(filename, appends)]))
      acc c
    = (Ret (acc.1 ++ filter valid (job_of c <$> files),
            acc.2 ++ filter (fun j => ~ valid j) (job_of c <$> files)), c') /\
    is_Some (collection c').
Proof.
  induction files as [|f files IH]; intros [fc wp] c Hcc.
  - exists c. simpl. rewrite !app_nil_r. auto.
  - destruct (get_file_appends_run f c Hcc) as (c1 & Hrun & Hcc1 & Happ).
    assert (Hjobs : job_of c1 <$> files = job_of c <$> files).
    { apply list_fmap_ext. intros _ x _. unfold job_of. by rewrite Happ. }
    cbn [fold_ fmap list_fmap].
    unfold bind at 1. unfold bind at 1. rewrite Hrun.
    destruct (cacheValid f (appends_of c f)) eqn:Hv; unfold ret at 1.
    + destruct (IH (fc ++ [(f, appends_of c f)], wp) c1 Hcc1) as (c' & Hf & Hc').
      rewrite Hf. exists c'. split; [|done]. cbn [fst snd].
      rewrite (filter_cons_True valid) by exact Hv.
      rewrite (filter_cons_False (fun j => ~ valid j)) by (intros Hn; apply Hn, Hv).
      rewrite Hjobs. by rewrite <- app_assoc.
    + destruct (IH (fc, wp ++ [(f, appends_of c f)]) c1 Hcc1) as (c' & Hf & Hc').
      rewrite Hf. exists c'. split; [|done]. cbn [fst snd].
      assert (Hnv : ~ valid (job_of c f)).
      { unfold valid, job_of. simpl. rewrite Hv. discriminate. }
      rewrite (filter_cons_False valid) by exact Hnv.
      rewrite (filter_cons_True (fun j => ~ valid j)) by exact Hnv.
      rewrite Hjobs. by rewrite <- app_assoc.
Qed.

(** The results that successive calls of [parse_next] take from the
    iterator, for at most [n] calls: a call is observed through the
    [next] it starts with, and the loop goes on while it returns True. *)
Fixpoint consumed (n : nat) (c : cooker)
  : list (bool * list (string * list info)) :=
  match n with
  | O => []
  | S n' =>
      match CookerParser.next c with
      | (Ret (Some r), _) =>
          r :: match CookerParser.parse_next c with
               | (Ret true, c') => consumed n' c'
               | _ => []
               end
      | _ => []
      end
  end.

(** What the iterator reads of the parser. *)
Definition queue_view (c : cooker)
  : option (results_iter * list result * Z) :=
  (fun p => (results p, result_queue p, toparse p)) <$> parser c.

Ltac queue_leaf :=
  first
    [ apply update_keeps; let Hp := fresh in
      intros ? ? Hp; unfold queue_view; simpl; rewrite Hp; reflexivity
    | unfold keeps, queue_view; simpl; reflexivity ].

Lemma record_result_queue_view flag result :
  preserves (keeps queue_view) (CookerParser.record_result flag result).
Proof.
  unfold CookerParser.record_result, CookerParser.add_virtual.
  frame_with queue_leaf.
Qed.

Lemma add_virtuals_run flag result : forall c,
  is_Some (parser c) -> infos_ok result ->
  exists c', for_ result (CookerParser.add_virtual flag) c = (Ret tt, c') /\
             is_Some (parser c').
Proof.
  induction result as [|[vfn [|i infos]] result IH]; intros c [p Hp] Hok.
  - exists c. split; [reflexivity|eauto].
  - inversion Hok as [|? ? Hne]. by destruct Hne.
  - inversion Hok as [|? ? _ Hok']. subst.
    cbn [for_]. unfold CookerParser.add_virtual at 1.
    destruct (skipped i).
    + unfold bind at 1. unfold bind at 1. unfold bind at 1.
      rewrite (update_run _ _ _ Hp). unfold bind, gets, modify. simpl.
      apply IH; simpl; eauto.
    + unfold bind at 1. unfold bind at 1. unfold bind at 1.
      unfold ret at 1, gets at 1, modify at 1.
      apply IH; simpl; eauto.
Qed.

Lemma record_result_run flag result c :
  is_Some (parser c) -> infos_ok result ->
  exists c', CookerParser.record_result flag result c = (Ret true, c').
Proof.
  intros [p Hp] Hok. unfold CookerParser.record_result.
  rewrite (bind_ret _ _ _ _ _ (update_run _ _ _ Hp)).
  set (c1 := set_parser _ c).
  assert (Hmid : exists c2, is_Some (parser c2) /\
    (if flag then
       CookerParser.update (fun p => CookerParser.with_counts p (parsed p + 1)
          (cached p) (error_count p) (skipped_count p) (virtuals p) (current p)) ;;;
       p <- the_parser ;;
       if parsed p mod progress_chunk p =? 0
       then fire (ParseProgress (parsed p) (toparse p)) else ret tt
     else
       CookerParser.update (fun p => CookerParser.with_counts p (parsed p)
          (cached p + 1) (error_count p) (skipped_count p) (virtuals p)
          (current p))) c1 = (Ret tt, c2)).
  { destruct flag.
    - unfold bind, CookerParser.update, the_parser, modify, fire. subst c1.
      simpl. destruct (_ =? 0); eexists; (split; [|reflexivity]); simpl; eauto.
    - unfold bind, CookerParser.update, the_parser, modify. subst c1. simpl.
      eexists; (split; [|reflexivity]); simpl; eauto. }
  destruct Hmid as (c2 & Hp2 & Hmid).
  rewrite (bind_ret _ _ _ _ _ Hmid).
  destruct (add_virtuals_run flag result c2 Hp2 Hok) as (c3 & Hv & _).
  rewrite (bind_ret _ _ _ _ _ Hv). eauto.
Qed.

(** The three ways [next] goes on a parser that is not exhausted. *)
Lemma next_cached_run c p f a rest ch :
  parser c = Some p ->
  results p = ResultsIter ((f, a) :: rest) ch false ->
  CookerParser.next c =
    (Ret (Some (negb (cache_load f a).1, (cache_load f a).2)),
     set_parser (Some (CookerParser.with_results p (ResultsIter rest ch false)
                         (result_queue p))) c).
Proof.
  intros Hp Hres. unfold CookerParser.next, CookerParser.update, bind, the_parser.
  rewrite Hp, Hres. simpl. destruct (cache_load f a). simpl. rewrite Hp.
  reflexivity.
Qed.

Lemma next_fresh_run c p flag infos q :
  parser c = Some p ->
  results p = ResultsIter [] true false ->
  parsed p < toparse p ->
  result_queue p = (flag, Infos infos) :: q ->
  CookerParser.next c =
    (Ret (Some (flag, infos)),
     set_parser (Some (CookerParser.with_results p (results p) q)) c).
Proof.
  intros Hp Hres Hlt Hq.
  unfold CookerParser.next, CookerParser.update, bind, the_parser.
  rewrite Hp, Hres. simpl.
  assert ((toparse p <=? parsed p) = false) as -> by (apply Z.leb_gt; lia).
  rewrite Hq, Hp, Hres. reflexivity.
Qed.

Lemma next_end_run c p ch :
  parser c = Some p ->
  results p = ResultsIter [] ch false ->
  ch = false \/ toparse p <= parsed p ->
  exists c', CookerParser.next c = (Ret None, c').
Proof.
  intros Hp Hres Hend.
  unfold CookerParser.next, CookerParser.update, bind, the_parser.
  rewrite Hp, Hres. simpl. destruct ch; simpl.
  - destruct Hend as [|Hle]; [discriminate|].
    assert ((toparse p <=? parsed p) = true) as -> by (apply Z.leb_le; lia).
    rewrite Hp. eauto.
  - rewrite Hp. eauto.
Qed.

(** The result the iterator yields for a cached job and for a job that
    a worker parsed. *)
Definition cached_result (j : Parser.job) : bool * list (string * list info) :=
  (false, (cache_load j.1 j.2).2).

Definition fresh_result (j : Parser.job) : bool * list (string * list info) :=
  (true, match cache_parse j.1 j.2 with inl infos => infos | inr _ => [] end).

Definition parses (j : Parser.job) : Prop :=
  exists infos, cache_parse j.1 j.2 = inl infos.

(** The parser has still [fc] to load from the cache and the results of
    [jobs] to take from the queue. *)
Definition ready (c : cooker) (fc jobs : list Parser.job) : Prop :=
  exists p ch,
    parser c = Some p /\
    results p = ResultsIter fc ch false /\
    result_queue p = (fun j => Parser.parse j.1 j.2) <$> jobs /\
    toparse p = parsed p + Z.of_nat (length jobs) /\
    (ch = false -> jobs = []).

Section stream.
Hypothesis contract : cache_contract.

Lemma ready_cached c j fc jobs :
  ready c (j :: fc) jobs -> valid j ->
  exists c1 c',
    CookerParser.next c = (Ret (Some (cached_result j)), c1) /\
    CookerParser.parse_next c = (Ret true, c') /\
    ready c' fc jobs.
Proof.
  intros (p & ch & Hp & Hres & Hq & Htp & Hch) Hv. destruct j as [f a].
  pose proof (next_cached_run c p f a fc ch Hp Hres) as Hnext.
  rewrite (load_hit contract f a Hv) in Hnext. simpl in Hnext.
  set (c1 := set_parser _ c) in Hnext.
  destruct (record_result_run false (cache_load f a).2 c1)
    as (c' & Hrec); [subst c1; simpl; eauto|apply (load_ok contract)|].
  assert (Hpn : CookerParser.parse_next c = (Ret true, c')).
  { unfold CookerParser.parse_next, catch. rewrite Hnext. exact Hrec. }
  exists c1, c'. split; [exact Hnext|]. split; [exact Hpn|].
  pose proof (record_result_queue_view _ _ _ _ _ Hrec) as Hqv.
  pose proof (parse_next_cached _ _ _ _ _ Hnext Hpn) as Hpv.
  unfold keeps, queue_view in Hqv. unfold progress_view in Hpv.
  subst c1. simpl in Hqv. rewrite Hp in Hpv. simpl in Hpv.
  destruct (parser c') as [p'|] eqn:Hp'; [|discriminate].
  injection Hqv as Hr' Hq' Ht'. injection Hpv as _ Hpa' _ _.
  exists p', ch. rewrite Hr', Hq', Ht', Hpa'. auto.
Qed.

Lemma ready_fresh c j jobs :
  ready c [] (j :: jobs) -> parses j ->
  exists c1 c',
    CookerParser.next c = (Ret (Some (fresh_result j)), c1) /\
    CookerParser.parse_next c = (Ret true, c') /\
    ready c' [] jobs.
Proof.
  intros (p & ch & Hp & Hres & Hq & Htp & Hch) [infos Hinfos].
  destruct ch; [|by specialize (Hch eq_refl)].
  assert (Hparse : Parser.parse j.1 j.2 = (true, Infos infos)).
  { unfold Parser.parse. by rewrite Hinfos. }
  simpl in Hq. rewrite Hparse in Hq.
  assert (Hlt : parsed p < toparse p) by (rewrite Htp; simpl; lia).
  pose proof (next_fresh_run c p true infos _ Hp Hres Hlt Hq) as Hnext.
  set (c1 := set_parser _ c) in Hnext.
  destruct (record_result_run true infos c1)
    as (c' & Hrec); [subst c1; simpl; eauto|apply (parse_ok contract _ _ _ Hinfos)|].
  assert (Hpn : CookerParser.parse_next c = (Ret true, c')).
  { unfold CookerParser.parse_next, catch. rewrite Hnext. exact Hrec. }
  exists c1, c'. unfold fresh_result. rewrite Hinfos.
  split; [exact Hnext|]. split; [exact Hpn|].
  pose proof (record_result_queue_view _ _ _ _ _ Hrec) as Hqv.
  pose proof (parse_next_fresh _ _ _ _ _ _ Hp Hnext Hpn) as Hpv.
  unfold keeps, queue_view in Hqv. unfold progress_view in Hpv.
  subst c1. simpl in Hqv.
  destruct (parser c') as [p'|] eqn:Hp'; [|discriminate].
  injection Hqv as Hr' Hq' Ht'. injection Hpv as _ Hpa' _ _.
  exists p', true. rewrite Hr', Hq', Ht', Hpa', Hres, Htp. simpl length.
  repeat split; auto; [lia|discriminate].
Qed.

Lemma consumed_ready fc : forall jobs c n,
  Forall valid fc -> Forall parses jobs -> ready c fc jobs ->
  (length fc + length jobs <= n)%nat ->
  consumed n c = (cached_result <$> fc) ++ (fresh_result <$> jobs).
Proof.
  induction fc as [|j fc IHfc].
  - induction jobs as [|j jobs IHjobs]; intros c n _ Hjobs Hready Hn.
    + destruct Hready as (p & ch & Hp & Hres & _ & Htp & _).
      destruct n; [reflexivity|]. simpl.
      destruct (next_end_run c p ch Hp Hres) as (c' & ->); [|reflexivity].
      right. rewrite Htp. simpl length. rewrite Z.add_0_r. reflexivity.
    + inversion Hjobs as [|? ? Hj Hjobs']. subst.
      destruct n as [|n]; [simpl in Hn; lia|].
      destruct (ready_fresh c j jobs Hready Hj) as (c1 & c' & Hnext & Hpn & Hr').
      cbn [consumed]. rewrite Hnext, Hpn. simpl. f_equal.
      apply IHjobs; [constructor|assumption|assumption|simpl in Hn; simpl; lia].
  - intros jobs c n Hfc Hjobs Hready Hn.
    inversion Hfc as [|? ? Hj Hfc']. subst.
    destruct n as [|n]; [simpl in Hn; lia|].
    destruct (ready_cached c j fc jobs Hready Hj) as (c1 & c' & Hnext & Hpn & Hr').
    cbn [consumed]. rewrite Hnext, Hpn. simpl. f_equal.
    apply IHfc; [assumption|assumption|assumption|simpl in Hn; lia].
Qed.


Hypothesis schedule_perm : forall l, schedule l ≡ₚ l.

Lemma job_of_fst c files : (job_of c <$> files).*1 = files.
Proof.
  rewrite <- list_fmap_compose. rewrite <- (list_fmap_id files) at 2.
  apply list_fmap_ext. reflexivity.
Qed.

(** [X1]  The constructor of the parser puts every file of the list, with
    its appends, in exactly one of [fromcache] (the cache entry is valid)
    and [willparse] (it is not), in the order of the list.  The iterator
    yields the cached results first, in that order, then the results of
    the workers in their order of arrival; with no failure among them the
    results that the successive calls of [parse_next] take are one per
    file of the list. *)
Theorem results_stream files masked c :
  is_Some (collection c) ->
  (CookerParser.init schedule files masked c).1 = Ret tt ->
  exists p,
    parser (CookerParser.init schedule files masked c).2 = Some p /\
    fromcache p = filter valid (job_of c <$> files) /\
    willparse p = filter (fun j => ~ valid j) (job_of c <$> files) /\
    (forall j, j ∈ fromcache p -> j ∉ willparse p) /\
    (fromcache p ++ schedule (willparse p)).*1 ≡ₚ files /\
    (NoDup files -> NoDup (fromcache p ++ schedule (willparse p)).*1) /\
    (Forall parses (willparse p) ->
     forall n, (length files <= n)%nat ->
       consumed n (CookerParser.init schedule files masked c).2 =
       (cached_result <$> fromcache p) ++
       (fresh_result <$> schedule (willparse p))).
Proof.
  intros Hcc Hinit.
  destruct (CookerParser.init schedule files masked c) as [out c'] eqn:Hrun.
  simpl in Hinit. subst out. simpl.
  destruct (init_spec _ _ _ _ Hrun)
    as (fc & wp & c1 & p & Hsplit & Hp & _ & Hfc & Hwp & Ht & Htp & _ & Hpa &
        Hres & Hq & _).
  destruct (split_by_cache_fold files ([], []) c Hcc) as (c1' & Hfold & _).
  unfold CookerParser.split_by_cache in Hsplit. rewrite Hfold in Hsplit.
  simpl in Hsplit. injection Hsplit as <- <- _.
  set (jobs := job_of c <$> files) in *.
  assert (Hperm : (fromcache p ++ schedule (willparse p)).*1 ≡ₚ files).
  { rewrite Hfc, Hwp, schedule_perm, filter_app_complement.
    apply reflexive_eq, job_of_fst. }
  assert (Hlen : length files = (length (fromcache p) + length (willparse p))%nat).
  { rewrite <- (job_of_fst c files), length_fmap. fold jobs.
    rewrite <- (filter_app_complement valid jobs) at 1.
    by rewrite length_app, Hfc, Hwp. }
  exists p. split; [exact Hp|]. split; [exact Hfc|]. split; [exact Hwp|].
  split; [|split; [exact Hperm|split]].
  - intros j. rewrite Hfc, Hwp, !list_elem_of_filter. tauto.
  - intros Hnd. by rewrite Hperm.
  - intros Hparses n Hn.
    apply consumed_ready.
    + rewrite Hfc. apply Forall_forall. intros j.
      rewrite list_elem_of_filter. tauto.
    + by rewrite schedule_perm.
    + exists p, (negb (toparse p =? 0)).
      split; [exact Hp|]. split; [by rewrite Hfc|].
      assert (Htp' : toparse p = Z.of_nat (length (willparse p))).
      { rewrite <- Hfc in Htp. lia. }
      rewrite <- Hwp in Hq.
      destruct (toparse p =? 0) eqn:Hz; simpl.
      * apply Z.eqb_eq in Hz.
        assert (willparse p = []) as ->
          by (apply length_zero_iff_nil; lia).
        rewrite (proj1 (Permutation_nil_r _) (schedule_perm [])).
        repeat split; auto. simpl. lia.
      * rewrite (Permutation_length (schedule_perm _)).
        repeat split; auto; [lia|discriminate].
    + rewrite (Permutation_length (schedule_perm _)). lia.
Qed.

End stream.
End parser_props.

(** ** The scenarios for [checkPackages] *)

Section check_packages_scenarios.
#[local] Existing Instance LiteralRe.engine.
#[local] Instance no_cache : RecipeParser :=
  toy_parser (fun _ => false) (fun _ => None).

(** A cooker with ASSUME_PROVIDED = "foo bar", a world of one recipe
    [w1], and the target list [foo world baz] at reference 0. *)
Definition assume_cooker : cooker :=
  let c := new_cooker (list_to_map [("ASSUME_PROVIDED", "foo bar")]%string) in
  set_heap {[ 0%nat := ["foo"; "world"; "baz"]%string ]}
    (set_recipecache
       (BBCooker.with_world_target empty_recipe_cache {["w1"%string]}) c).

Lemma checkPackages_keeps_argument_witness :
  heap (BBCooker.checkPackages 0 assume_cooker).2 !! 0%nat
    = Some ["foo"; "world"; "baz"]%string /\
  (forall r', (BBCooker.checkPackages 0 assume_cooker).1 = Ret r' -> r' <> 0%nat).
Proof.
  apply (checkPackages_keeps_argument assume_cooker 0
           ["foo"; "world"; "baz"]%string).
  reflexivity.
Defined.

Example checkPackages_world_expanded :
  let out := BBCooker.checkPackages 0 assume_cooker in
  out.1 = Ret 1%nat /\
  heap out.2 !! 1%nat = Some ["foo"; "baz"; "w1"]%string.
Proof. vm_compute. split; reflexivity. Qed.

(** [C7], as stated, fails: the target [foo] is in ASSUME_PROVIDED, it is
    warned about, and the list returned still holds it. *)
Lemma checkPackages_does_not_drop :
  let out := BBCooker.checkPackages 0 assume_cooker in
  "foo"%string ∈ PyStr.split "foo bar" /\
  out.1 = Ret 1%nat /\
  warned "foo" ∈ log out.2 /\
  ~ (forall l, heap out.2 !! 1%nat = Some l -> "foo"%string ∉ l).
Proof.
  vm_compute. repeat split.
  - apply list_elem_of_here.
  - apply list_elem_of_here.
  - intros Hno. apply (Hno _ eq_refl). apply list_elem_of_here.
Qed.

Lemma checkPackages_assume_provided_witness :
  warned "foo" ∈ log (BBCooker.checkPackages 0 assume_cooker).2 /\
  lists 1 "foo" (BBCooker.checkPackages 0 assume_cooker).2.
Proof.
  destruct (BBCooker.checkPackages 0 assume_cooker) as [out c'] eqn:Hrun.
  assert (Hout : out = Ret 1%nat).
  { change out with (out, c').1. rewrite <- Hrun. vm_compute. reflexivity. }
  subst out.
  destruct (checkPackages_assume_provided assume_cooker c' 0 1
              ["foo"; "world"; "baz"]%string "foo"%string) as (Hw & Hl & _).
  - reflexivity.
  - apply list_elem_of_here.
  - vm_compute. apply list_elem_of_here.
  - exact Hrun.
  - split; [exact Hw|]. apply Hl; discriminate.
Defined.

End check_packages_scenarios.

(** ** The scenarios for the parser *)

(** [n] ticks of the idle loop on the parser. *)
Fixpoint ticks `{RecipeParser} `{FileSystem} (n : nat) (c : cooker) : cooker :=
  match n with
  | O => c
  | S n' => ticks n' (CookerParser.parse_next c).2
  end.

Section parser_scenarios.
#[local] Existing Instance LiteralRe.engine.
#[local] Instance half_cached : RecipeParser :=
  toy_parser (fun f => PyStr.startswith f "/cached/")
             (fun f => if PyStr.startswith f "/bad/"
                       then Some SyntaxError else None).
#[local] Instance two_files : FileSystem :=
  flat_fs ["/bad/x.bb"; "/cached/y.bb"]%string.

(** Two hundred recipes, the first hundred of them in the cache. *)
Definition many_files : list string :=
  ((fun n => "/cached/" +:+ pretty n +:+ ".bb") <$> seq 0 100) ++
  ((fun n => "/new/" +:+ pretty n +:+ ".bb") <$> seq 0 100).

Definition many_cooker : cooker :=
  (CookerParser.init (@rev _) many_files 0
     (set_collection (Some (CookerCollectFiles.new []))
        (new_cooker ∅))).2.

(** [C9], as stated, fails: with 200 files collected, 100 of them cached,
    max(1, total/100) is 2, yet [progress_chunk] is 1 and the first freshly
    parsed file, the 101st result, already fires ParseProgress. *)
Lemma progress_not_by_total :
  (fun p => (total p, toparse p, progress_chunk p)) <$> parser many_cooker
    = Some (200, 100, 1) /\
  Z.max 1 (200 / 100) = 2 /\
  events (ticks 100 many_cooker) = [ParseStarted 100] /\
  events (ticks 101 many_cooker) = [ParseStarted 100; ParseProgress 1 100].
Proof. vm_compute. repeat split. Qed.

(** A file list with one cached recipe and one that is not. *)
Definition small_cooker : cooker :=
  set_collection (Some (CookerCollectFiles.new [])) (new_cooker ∅).

(** The parser of [many_cooker] once the hundred cached results are
    taken: no file parsed yet, the first result of a worker on the
    queue. *)
Definition fresh_parser : cooker_parser :=
  CookerParser _ _ many_files 0 100 0 0 0 100 200 100 4
    [] [] 100 1
    (ResultsIter [] true false) [Parser.parse "/new/99.bb" []]
    [] 0 0 true false false.

Definition fresh_cooker : cooker :=
  set_parser (Some fresh_parser) small_cooker.

(** The same parser with a cached result still to come. *)
Definition cached_parser : cooker_parser :=
  CookerParser _ _ many_files 0 99 0 0 0 99 200 99 4
    [] [] 100 1
    (ResultsIter [("/cached/99.bb"%string, [])] true false) []
    [] 0 0 true false false.

Definition cached_cooker : cooker :=
  set_parser (Some cached_parser) small_cooker.

(** These are the counters of [many_cooker] after 99 and after 100
    results. *)
Example many_cooker_counters :
  (fun p => (parsed p, cached p, current p, total p, toparse p,
             progress_chunk p, cached_left (results p)))
    <$> parser (ticks 99 many_cooker)
  = (fun p => (parsed p, cached p, current p, total p, toparse p,
               progress_chunk p, cached_left (results p)))
    <$> parser cached_cooker /\
  (fun p => (parsed p, cached p, current p, total p, toparse p,
             progress_chunk p, cached_left (results p),
             length (result_queue p)))
    <$> parser (ticks 100 many_cooker)
  = Some (0, 100, 100, 200, 100, 1, [], 100%nat).
Proof. split; vm_compute; reflexivity. Qed.

(** The chunk of two hundred files with a hundred in the cache; the
    first file parsed fires ParseProgress, which a chunk of
    max(1, total/100) = 2 would not; a cached result fires nothing. *)
Lemma progress_every_chunk_witness :
  (exists p,
     parser (CookerParser.init (@rev _) many_files 0 small_cooker).2 = Some p /\
     total p = Z.of_nat (length many_files) /\
     toparse p = total p - Z.of_nat (length (fromcache p)) /\
     progress_chunk p = Z.max (toparse p / 100) 1) /\
  progress_view (CookerParser.parse_next fresh_cooker).2
    = (events fresh_cooker ++ [ParseProgress 1 100], Some (1, 100, 1)) /\
  progress_view (CookerParser.parse_next cached_cooker).2
    = progress_view cached_cooker.
Proof.
  destruct (progress_every_chunk (@rev _)) as (Hinit & Hfresh & Hcached).
  split; [|split].
  - apply (Hinit many_files 0 small_cooker). vm_compute. reflexivity.
  - apply (Hfresh fresh_cooker
             (set_parser (Some (CookerParser.with_results fresh_parser
                                  (results fresh_parser) [])) fresh_cooker)
             fresh_parser [("/new/99.bb"%string, [false])]
             (CookerParser.parse_next fresh_cooker).1).
    + reflexivity.
    + apply (next_fresh_run fresh_cooker fresh_parser true
               [("/new/99.bb"%string, [false])] []);
        first [reflexivity | simpl; lia].
    + apply surjective_pairing.
  - apply (Hcached cached_cooker
             (set_parser (Some (CookerParser.with_results cached_parser
                                  (ResultsIter [] true false)
                                  (result_queue cached_parser))) cached_cooker)
             (cache_load "/cached/99.bb" []).2
             (CookerParser.parse_next cached_cooker).1).
    + apply (next_cached_run cached_cooker cached_parser "/cached/99.bb"%string
               [] [] true); reflexivity.
    + apply surjective_pairing.
Defined.

(** The parser object of [failing_cooker]: the cached recipe is taken,
    the failure of /bad/x.bb waits on the queue. *)
Definition waiting_parser : cooker_parser :=
  CookerParser _ _ ["/bad/x.bb"; "/cached/y.bb"]%string 0 1 0 0 0 1 2 1 4
    [("/cached/y.bb"%string, [])] [("/bad/x.bb"%string, [])] 1 1
    (ResultsIter [] true false) [Parser.parse "/bad/x.bb" []]
    [] 0 0 true false false.

(** A cooker whose BBFILES name a recipe that does not parse and one that
    is in the cache, after the call of [updateCache] that starts the
    parser. *)
Definition failing_cooker : cooker :=
  (BBCooker.updateCache (@rev _) 10
     (new_cooker {[ "BBFILES"%string := "/bad/x.bb /cached/y.bb"%string ]})).2.


(** A cooker in state Parsing that owns [waiting_parser]. *)
Definition waiting_cooker : cooker :=
  set_state State.parsing
    (set_parser (Some waiting_parser)
       (set_collection (Some (CookerCollectFiles.new []))
          (new_cooker {[ "BBFILES"%string := "/bad/x.bb /cached/y.bb"%string ]}))).

(** It is, up to the recipe cache, the state that [updateCache] reaches
    from the initial one. *)
Example failing_cooker_waits :
  (fun p => (parsed p, cached p, error_count p, toparse p, results p,
             length (result_queue p), haveshutdown p)) <$> parser failing_cooker
  = (fun p => (parsed p, cached p, error_count p, toparse p, results p,
               length (result_queue p), haveshutdown p)) <$> parser waiting_cooker.
Proof. vm_compute. reflexivity. Qed.




End parser_scenarios.

Section stream_scenario.
#[local] Existing Instance LiteralRe.engine.
#[local] Instance all_parse : RecipeParser :=
  toy_parser (fun f => PyStr.startswith f "/cached/") (fun _ => None).
#[local] Instance three_files : FileSystem :=
  flat_fs ["/new/a.bb"; "/cached/y.bb"; "/new/z.bb"]%string.

Lemma toy_contract (ok : string -> bool) (broken : string -> option exn_class) :
  @cache_contract _ (toy_parser ok broken).
Proof.
  split; simpl.
  - auto.
  - intros f a. repeat constructor. discriminate.
  - intros f a infos. destruct (broken f); intros [= <-].
    repeat constructor. discriminate.
Qed.

Lemma all_parse_contract : cache_contract.
Proof. apply toy_contract. Qed.

Lemma rev_perm (l : list Parser.job) : rev l ≡ₚ l.
Proof. symmetry. apply Permutation_rev. Qed.

Definition stream_cooker : cooker :=
  set_collection (Some (CookerCollectFiles.new [])) (new_cooker ∅).

(** Three files, the second of them cached, with one worker that takes
    the jobs from the end of the list: the cached recipe comes first, then
    z, then a. *)
Example stream_order :
  let files := ["/new/a.bb"; "/cached/y.bb"; "/new/z.bb"]%string in
  (fun r => (r.1, r.2.*1)) <$>
    consumed 5 (CookerParser.init (@rev _) files 0 stream_cooker).2
  = [(false, ["/cached/y.bb"]); (true, ["/new/z.bb"]); (true, ["/new/a.bb"])]%string.
Proof. vm_compute. reflexivity. Qed.

Lemma results_stream_witness :
  let files := ["/new/a.bb"; "/cached/y.bb"; "/new/z.bb"]%string in
  exists p,
    parser (CookerParser.init (@rev _) files 0 stream_cooker).2 = Some p /\
    (fromcache p ++ rev (willparse p)).*1 ≡ₚ files /\
    consumed 3 (CookerParser.init (@rev _) files 0 stream_cooker).2 =
      (cached_result <$> fromcache p) ++ (fresh_result <$> rev (willparse p)).
Proof.
  intros files.
  destruct (results_stream (@rev _) all_parse_contract rev_perm
              files 0 stream_cooker)
    as (p & Hp & Hfc & Hwp & _ & Hperm & _ & Hstream).
  - eexists. reflexivity.
  - vm_compute. reflexivity.
  - exists p. split; [exact Hp|]. split; [exact Hperm|].
    apply Hstream; [|simpl; lia].
    apply Forall_forall. intros j _. eexists. reflexivity.
Defined.

End stream_scenario.

(** ** The files a directory and a BBFILES entry contribute *)

Section collect_files.
Context `{RecipeParser} `{FileSystem}.

Lemma walk_found_nil : forall t dir found,
  CookerCollectFiles.walk_found dir t = Some found -> found = [].
Proof.
  fix IH 1. intros [n subdirs files] dir found. simpl.
  destruct files as [|f files]; [|discriminate].
  revert found. induction subdirs as [|d ds IHds]; intros found Hw.
  - by injection Hw as <-.
  - destruct (CookerCollectFiles.ignored_dir _); [by apply IHds|].
    destruct (CookerCollectFiles.walk_found _ d) as [a|] eqn:Hd; [|discriminate].
    apply IH in Hd as ->. simpl in Hw.
    match type of Hw with _ <$> ?x = _ => destruct x as [l|] eqn:Hx end;
      [|discriminate].
    injection Hw as <-. by apply IHds.
Qed.

(** [X8]  [find_bbfiles] never finds a file: it returns the empty list
    (the directory tree holds no file that the walk reaches) or raises
    TypeError (the walk reaches a file, and [endswith] is given a list);
    the cooker is left as it was. *)
Lemma find_bbfiles_finds_nothing path c :
  ((CookerCollectFiles.find_bbfiles path c).1 = Ret [] \/
   (CookerCollectFiles.find_bbfiles path c).1 = Raise (new_exc TypeError)) /\
  (CookerCollectFiles.find_bbfiles path c).2 = c.
Proof.
  unfold CookerCollectFiles.find_bbfiles.
  destruct (tree_at path) as [t|]; [|by split; [left|]].
  destruct (CookerCollectFiles.walk_found path t) as [found|] eqn:Hw.
  - apply walk_found_nil in Hw as ->. by split; [left|].
  - by split; [right|].
Qed.

End collect_files.

(** ** handleCollections: the priorities of the layers *)

Section layer_priority.
Context `{Regex}.

(** The priority that the recursion of lines 1000-1010 gives a
    collection, read off the dictionaries as they are before the first
    call: an explicit priority that is not 0 stands; otherwise the
    priority is one more than the greatest of [m] and the priorities of
    the dependencies. *)
#[warnings="-register-all"] Inductive settled (P0 : string -> option (option Z))
    (D : string -> option (list string)) (m : Z) : string -> Z -> Prop :=
| settled_explicit c v :
    P0 c = Some (Some v) -> v <> 0 -> settled P0 D m c v
| settled_computed c x deps vs :
    P0 c = Some x -> Collections.truthy x = false -> D c = Some deps ->
    Forall2 (settled P0 D m) deps vs ->
    settled P0 D m c (foldl Z.max m vs + 1).

Lemma priority_of_run c (L : Collections.locals) :
  Collections.priority_of c L =
  match Collections.collection_priorities L !! c with
  | Some v => (Ret v, L)
  | None => (Raise (new_exc KeyError), L)
  end.
Proof. reflexivity. Qed.

Lemma depends_of_run c (L : Collections.locals) :
  Collections.depends_of c L =
  match Collections.collection_depends L !! c with
  | Some v => (Ret v, L)
  | None => (Raise (new_exc KeyError), L)
  end.
Proof. reflexivity. Qed.

Lemma truthy_false v : Collections.truthy (Some v) = false -> v = 0.
Proof. simpl. intros Hf. by apply negb_false_iff, Z.eqb_eq in Hf. Qed.

(** The settled priority of a collection is unique. *)
Lemma settled_unique P0 D m : forall c v,
  settled P0 D m c v -> forall v', settled P0 D m c v' -> v = v'.
Proof.
  fix IH 3. intros c v Hs v' Hs'.
  destruct Hs as [c v Hv Hne|c x deps vs Hx Hf Hd Hvs].
  - inversion Hs' as [? ? Hv'|? x' ? ? Hx' Hf']; subst.
    + congruence.
    + rewrite Hv in Hx'. injection Hx' as <-.
      apply truthy_false in Hf'. contradiction.
  - inversion Hs' as [? ? Hv' Hne'|? x' deps' vs' Hx' Hf' Hd' Hvs']; subst.
    + rewrite Hx in Hv'. injection Hv' as ->.
      apply truthy_false in Hf. contradiction.
    + rewrite Hd in Hd'. injection Hd' as <-.
      f_equal. f_equal. clear Hx Hf Hd Hx' Hf' Hs'.
      revert vs' Hvs'.
      induction Hvs as [|d v0 deps vs Hdv Hvs IHvs]; intros vs' Hvs';
        inversion Hvs' as [|? v0' ? vs'' Hdv' Hvs'']; subst; [reflexivity|].
      f_equal; [exact (IH _ _ Hdv _ Hdv')|exact (IHvs _ Hvs'')].
Qed.

Section sound.
Variable L0 : Collections.locals.

Abbreviation P0 := (fun c => Collections.collection_priorities L0 !! c).
Abbreviation D0 := (fun c => Collections.collection_depends L0 !! c).
Abbreviation final := (settled P0 D0 (Collections.min_prio L0)).

(** A state that the recursion can be in: the priorities it has written
    are settled ones. *)
Definition reached (L : Collections.locals) : Prop :=
  Collections.min_prio L = Collections.min_prio L0 /\
  Collections.collection_depends L = Collections.collection_depends L0 /\
  forall c,
    Collections.collection_priorities L !! c = P0 c \/
    exists v, Collections.collection_priorities L !! c = Some (Some v) /\
              final c v.

Lemma reached_start : reached L0.
Proof. repeat split. intros c. by left. Qed.

Lemma reached_falsy L c x :
  reached L -> Collections.collection_priorities L !! c = Some x ->
  Collections.truthy x = false ->
  exists x0, P0 c = Some x0 /\ Collections.truthy x0 = false.
Proof.
  intros (_ & _ & HL) Hx Hf. destruct (HL c) as [Heq|(v & Hv & Hs)].
  - exists x. by rewrite <- Heq.
  - rewrite Hv in Hx. injection Hx as <-.
    inversion Hs as [? ? _ Hne|? x0 ? ? Hx0 Hf0]; subst.
    + simpl in Hf. apply negb_false_iff, Z.eqb_eq in Hf. contradiction.
    + eauto.
Qed.

Lemma reached_truthy L c x :
  reached L -> Collections.collection_priorities L !! c = Some x ->
  Collections.truthy x = true ->
  exists v, x = Some v /\ final c v.
Proof.
  intros (_ & _ & HL) Hx Ht. destruct (HL c) as [Heq|(v & Hv & Hs)].
  - destruct x as [v|]; [|discriminate]. exists v. split; [done|].
    apply settled_explicit; [by rewrite <- Heq|].
    simpl in Ht. apply negb_true_iff, Z.eqb_neq in Ht. exact Ht.
  - rewrite Hv in Hx. injection Hx as <-. eauto.
Qed.

Lemma calc_layer_priority_sound fuel : forall c L L',
  reached L ->
  Collections.calc_layer_priority fuel c L = (Ret tt, L') ->
  reached L' /\
  exists v, Collections.collection_priorities L' !! c = Some (Some v) /\
            final c v.
Proof.
  induction fuel as [|fuel IH]; intros c L L' HL Hrun; [discriminate|].
  cbn [Collections.calc_layer_priority] in Hrun.
  apply bind_inv_ret in Hrun as (p & L1 & Hp & Hrun).
  rewrite priority_of_run in Hp.
  destruct (Collections.collection_priorities L !! c) as [x|] eqn:Hx;
    [|discriminate]. injection Hp as <- <-.
  destruct (Collections.truthy x) eqn:Ht.
  { injection Hrun as <-. split; [exact HL|].
    destruct (reached_truthy L c x HL Hx Ht) as (v & -> & Hv). eauto. }
  apply bind_inv_ret in Hrun as (m & L1 & [= <- <-] & Hrun).
  apply bind_inv_ret in Hrun as (deps1 & L1 & Hd & Hrun).
  rewrite depends_of_run in Hd.
  destruct (Collections.collection_depends L !! c) as [deps|] eqn:Hdeps;
    [|discriminate]. injection Hd as <- <-.
  apply bind_inv_ret in Hrun as (mx & L2 & Hloop & Hrun).
  assert (Hl : forall deps acc L L2 mx,
    reached L ->
    fold_ deps
      (fun max_depprio dep =>
         Collections.calc_layer_priority fuel dep ;;;
         depprio <- Collections.priority_of dep ;;
         ret (if Collections.py_gt depprio max_depprio
              then default max_depprio depprio else max_depprio))
      acc L = (Ret mx, L2) ->
    reached L2 /\ exists vs, Forall2 final deps vs /\ mx = foldl Z.max acc vs).
  { clear -IH. intros deps.
    induction deps as [|d deps IHd]; intros acc L L2 mx HL Hloop.
    - injection Hloop as <- <-. split; [exact HL|]. exists []. split; [constructor|done].
    - cbn [fold_] in Hloop.
      apply bind_inv_ret in Hloop as (acc' & L1 & Hbody & Hloop).
      apply bind_inv_ret in Hbody as ([] & L1' & Hcalc & Hbody).
      destruct (IH _ _ _ HL Hcalc) as (HL1 & v & Hv & Hs).
      apply bind_inv_ret in Hbody as (dp & L1'' & Hdp & Hret).
      rewrite priority_of_run, Hv in Hdp. injection Hdp as <- <-.
      injection Hret as <- <-.
      destruct (IHd _ _ _ _ HL1 Hloop) as (HL2 & vs & Hvs & ->).
      split; [exact HL2|]. exists (v :: vs). split; [by constructor|].
      simpl. f_equal.
      destruct (acc <? v) eqn:Hlt; [apply Z.ltb_lt in Hlt|apply Z.ltb_ge in Hlt]; lia. }
  destruct (Hl _ _ _ _ _ HL Hloop) as (HL2 & vs & Hvs & ->). clear Hl.
  unfold Collections.debug, Collections.set_priority, bind, modify in Hrun.
  injection Hrun as <-. simpl.
  destruct HL as (Hm & HD & HP). destruct HL2 as (Hm2 & HD2 & HP2).
  destruct (reached_falsy L c x (conj Hm (conj HD HP)) Hx Ht) as (x0 & Hx0 & Hf0).
  assert (Hfin : final c (foldl Z.max (Collections.min_prio L) vs + 1)).
  { rewrite Hm. eapply settled_computed; eauto. by rewrite <- HD. }
  split.
  - repeat split; auto. intros c'. simpl.
    destruct (decide (c = c')) as [<-|Hne].
    + right. rewrite lookup_insert_eq. eauto.
    + rewrite lookup_insert_ne by done. apply HP2.
  - simpl. rewrite lookup_insert_eq. eauto.
Qed.

End sound.

(** *** When the recursion returns *)

Abbreviation prios := Collections.collection_priorities.
Abbreviation depends := Collections.collection_depends.

(** [c] has no priority yet: [None], or the number 0. *)
Definition unset (L : Collections.locals) (c : string) : Prop :=
  exists x, prios L !! c = Some x /\ Collections.truthy x = false.

Abbreviation dep_body fuel :=
  (fun max_depprio dep =>
     Collections.calc_layer_priority fuel dep ;;;
     depprio <- Collections.priority_of dep ;;
     ret (if Collections.py_gt depprio max_depprio
          then default max_depprio depprio else max_depprio)).

(** What a call that returns has done to the dictionaries: it has given
    numbers to collections that had no priority. *)
Definition grows (L L' : Collections.locals) : Prop :=
  depends L' = depends L /\
  Collections.min_prio L' = Collections.min_prio L /\
  forall c, prios L' !! c = prios L !! c \/
            (unset L c /\ exists v, prios L' !! c = Some (Some v)).

#[local] Instance grows_preorder : PreOrder grows.
Proof.
  split.
  - intros L. repeat split. intros c. by left.
  - intros L1 L2 L3 (Hd1 & Hm1 & H1) (Hd2 & Hm2 & H2).
    split; [congruence|]. split; [congruence|]. intros c.
    destruct (H2 c) as [Heq2|((x & Hx & Hf) & v & Hv)].
    + rewrite Heq2. apply H1.
    + right. split; [|eauto]. destruct (H1 c) as [Heq1|(Hu & _)]; [|exact Hu].
      exists x. by rewrite <- Heq1.
Qed.

Lemma calc_layer_priority_grows fuel : forall c L L',
  Collections.calc_layer_priority fuel c L = (Ret tt, L') -> grows L L'.
Proof.
  induction fuel as [|fuel IH]; intros c L L' Hrun; [discriminate|].
  cbn [Collections.calc_layer_priority] in Hrun.
  apply bind_inv_ret in Hrun as (p & L1 & Hp & Hrun).
  rewrite priority_of_run in Hp.
  destruct (prios L !! c) as [x|] eqn:Hx; [|discriminate].
  injection Hp as <- <-.
  destruct (Collections.truthy x) eqn:Ht.
  { injection Hrun as <-. reflexivity. }
  apply bind_inv_ret in Hrun as (m & L1 & [= <- <-] & Hrun).
  apply bind_inv_ret in Hrun as (deps1 & L1 & Hd & Hrun).
  rewrite depends_of_run in Hd.
  destruct (depends L !! c) as [deps|] eqn:Hdeps; [|discriminate].
  injection Hd as <- <-.
  apply bind_inv_ret in Hrun as (mx & L2 & Hloop & Hrun).
  assert (Hl : forall deps acc L L2 mx,
    fold_ deps (dep_body fuel) acc L = (Ret mx, L2) -> grows L L2).
  { clear -IH. intros deps.
    induction deps as [|d deps IHd]; intros acc L L2 mx Hloop.
    - injection Hloop as <- <-. reflexivity.
    - cbn [fold_] in Hloop.
      apply bind_inv_ret in Hloop as (acc' & L1 & Hbody & Hloop).
      apply bind_inv_ret in Hbody as ([] & L1' & Hcalc & Hbody).
      apply bind_inv_ret in Hbody as (dp & L1'' & Hdp & Hret).
      rewrite priority_of_run in Hdp.
      destruct (prios L1' !! d); [|discriminate].
      injection Hdp as <- <-. injection Hret as <- <-.
      etransitivity; [eapply IH, Hcalc|eapply IHd, Hloop]. }
  specialize (Hl _ _ _ _ _ Hloop). clear Hloop.
  unfold Collections.debug, Collections.set_priority, bind, modify in Hrun.
  injection Hrun as <-.
  destruct Hl as (Hd2 & Hm2 & H2).
  split; [exact Hd2|]. split; [exact Hm2|]. intros c'. simpl.
  destruct (decide (c = c')) as [<-|Hne].
  - right. rewrite lookup_insert_eq. split; [exists x|]; eauto.
  - rewrite lookup_insert_ne by done. apply H2.
Qed.

(** A set of collections from which the recursion cannot come back: each
    of its members is not enabled, or has no priority and a dependency
    in the set (a cycle of such collections is a set of this kind). *)
Definition trap (S : string -> Prop) (L : Collections.locals) : Prop :=
  forall c, S c ->
    prios L !! c = None \/
    (unset L c /\ exists deps d, depends L !! c = Some deps /\ d ∈ deps /\ S d).

Lemma calc_layer_priority_trap S fuel : forall c L L',
  trap S L ->
  Collections.calc_layer_priority fuel c L = (Ret tt, L') ->
  trap S L' /\ ~ S c.
Proof.
  induction fuel as [|fuel IH]; intros c L L' HS Hrun; [discriminate|].
  pose proof (calc_layer_priority_grows _ _ _ _ Hrun) as Hgrow.
  cbn [Collections.calc_layer_priority] in Hrun.
  apply bind_inv_ret in Hrun as (p & L1 & Hp & Hrun).
  rewrite priority_of_run in Hp.
  destruct (prios L !! c) as [x|] eqn:Hx; [|discriminate].
  injection Hp as <- <-.
  destruct (Collections.truthy x) eqn:Ht.
  { injection Hrun as <-. split; [exact HS|]. intros Hc.
    destruct (HS c Hc) as [Hn|((x' & Hx' & Hf) & _)]; congruence. }
  apply bind_inv_ret in Hrun as (m & L1 & [= <- <-] & Hrun).
  apply bind_inv_ret in Hrun as (deps1 & L1 & Hd & Hrun).
  rewrite depends_of_run in Hd.
  destruct (depends L !! c) as [deps|] eqn:Hdeps; [|discriminate].
  injection Hd as <- <-.
  apply bind_inv_ret in Hrun as (mx & L2 & Hloop & Hrun).
  assert (Hl : forall deps acc L L2 mx,
    trap S L ->
    fold_ deps (dep_body fuel) acc L = (Ret mx, L2) ->
    trap S L2 /\ forall d, d ∈ deps -> ~ S d).
  { clear -IH. intros deps.
    induction deps as [|d deps IHd]; intros acc L L2 mx HS Hloop.
    - injection Hloop as <- <-. split; [exact HS|]. intros d Hd. by inversion Hd.
    - cbn [fold_] in Hloop.
      apply bind_inv_ret in Hloop as (acc' & L1 & Hbody & Hloop).
      apply bind_inv_ret in Hbody as ([] & L1' & Hcalc & Hbody).
      apply bind_inv_ret in Hbody as (dp & L1'' & Hdp & Hret).
      rewrite priority_of_run in Hdp.
      destruct (prios L1' !! d); [|discriminate].
      injection Hdp as <- <-. injection Hret as <- <-.
      destruct (IH _ _ _ HS Hcalc) as (HS1 & Hnd).
      destruct (IHd _ _ _ _ HS1 Hloop) as (HS2 & Hnds).
      split; [exact HS2|]. intros d' [->|Hin]%elem_of_cons; auto. }
  destruct (Hl _ _ _ _ _ HS Hloop) as (HS2 & Hnds). clear Hl.
  assert (Hc : ~ S c).
  { intros Hc. destruct (HS c Hc) as [Hn|(_ & deps' & d & Hd' & Hin & Hd)];
      [congruence|].
    rewrite Hdeps in Hd'. injection Hd' as <-. by apply (Hnds d). }
  split; [|exact Hc].
  unfold Collections.debug, Collections.set_priority, bind, modify in Hrun.
  injection Hrun as <-. intros c' Hc'.
  assert (c <> c') by congruence.
  destruct (HS2 c' Hc') as [Hn|((x' & Hx' & Hf') & Hdep)]; simpl.
  - left. by rewrite lookup_insert_ne.
  - right. split; [|exact Hdep]. exists x'. simpl. by rewrite lookup_insert_ne.
Qed.

Lemma bind_inv_raise {St A B} (m : M St A) (k : A -> M St B) s e s' :
  bind m k s = (Raise e, s') ->
  (exists a s1, m s = (Ret a, s1) /\ k a s1 = (Raise e, s')) \/
  m s = (Raise e, s').
Proof.
  intros Hb.
  destruct (bind_inv _ _ _ _ _ Hb) as [?|[(e' & He & [= ->])|[_ [=]]]]; auto.
Qed.

(** The ways in which a call of the recursion, or of the loop in it,
    ends. *)
Definition ends_well {A} (out : outcome A) : Prop :=
  match out with
  | Ret _ => True
  | Raise e => e = new_exc KeyError \/ e = new_exc RuntimeError
  | Diverge => False
  end.

Lemma calc_ends_well fuel : forall c L out L',
  Collections.calc_layer_priority fuel c L = (out, L') -> ends_well out.
Proof.
  induction fuel as [|fuel IH]; intros c L out L' Hrun.
  { injection Hrun as <- <-. by right. }
  cbn [Collections.calc_layer_priority] in Hrun.
  apply bind_inv in Hrun as [(p & L1 & Hp & Hrun)|[(e & Hp & ->)|[Hp ->]]].
  2,3: rewrite priority_of_run in Hp; destruct (prios L !! c);
       inversion Hp; by left.
  destruct (Collections.truthy p); [by injection Hrun as <- <-|].
  apply bind_inv in Hrun as [(m & L2 & _ & Hrun)|[(e & [=] & _)|[[=] _]]].
  apply bind_inv in Hrun as [(deps & L3 & _ & Hrun)|[(e & Hd & ->)|[Hd ->]]].
  2,3: rewrite depends_of_run in Hd; destruct (depends L2 !! c);
       inversion Hd; by left.
  apply bind_inv in Hrun as [(mx & L4 & _ & Hrun)|Hloop].
  { unfold Collections.debug, Collections.set_priority, bind, modify in Hrun.
    by injection Hrun as <- <-. }
  assert (Hl : forall deps acc L out L',
    fold_ deps (dep_body fuel) acc L = (out, L') -> ends_well out).
  { clear -IH. intros deps.
    induction deps as [|d deps IHd]; intros acc L out L' Hloop.
    - by injection Hloop as <- <-.
    - cbn [fold_] in Hloop.
      apply bind_inv in Hloop
        as [(acc' & L1 & _ & Hloop)|[(e & Hbody & ->)|[Hbody ->]]].
      { eapply IHd, Hloop. }
      + apply bind_inv in Hbody
          as [([] & L1 & _ & Hbody)|[(e' & Hcalc & [= ->])|[_ [=]]]].
        2:{ apply (IH _ _ _ _ Hcalc). }
        apply bind_inv in Hbody
          as [(dp & L2 & _ & [=])|[(e' & Hdp & [= ->])|[_ [=]]]].
        rewrite priority_of_run in Hdp. destruct (prios L1 !! d);
          inversion Hdp. by left.
      + apply bind_inv in Hbody as [([] & L1 & _ & Hbody)|[(e' & _ & [=])|[Hcalc _]]].
        2:{ apply (IH _ _ _ _ Hcalc). }
        apply bind_inv in Hbody as [(dp & L2 & _ & [=])|[(e' & _ & [=])|[Hdp _]]].
        rewrite priority_of_run in Hdp. destruct (prios L1 !! d); inversion Hdp. }
  destruct Hloop as [(e & Hloop & ->)|[Hloop ->]];
    exact (Hl _ _ _ _ _ Hloop).
Qed.

(** *** The properties of the recursion *)

(** [X3]  The priority a returning call leaves for its collection is the
    settled one of the dictionaries it started from: its explicit
    priority when that is a number other than 0, and otherwise one more
    than the greatest of the least explicit priority and the priorities
    of its dependencies. *)
Lemma calc_layer_priority_settled fuel c (L : Collections.locals) :
  (Collections.calc_layer_priority fuel c L).1 = Ret tt ->
  exists v,
    prios (Collections.calc_layer_priority fuel c L).2 !! c = Some (Some v) /\
    settled (fun c => prios L !! c) (fun c => depends L !! c)
            (Collections.min_prio L) c v.
Proof.
  intros Hrun%run_eta.
  by destruct (calc_layer_priority_sound L _ _ _ _ (reached_start L) Hrun)
    as (_ & Hv).
Qed.

(** [X4]  The priority of a collection does not depend on the
    collections that were worked out before it. *)
Lemma calc_layer_priority_order f1 f2 f3 a c (L : Collections.locals) :
  let La := (Collections.calc_layer_priority f1 a L).2 in
  (Collections.calc_layer_priority f1 a L).1 = Ret tt ->
  (Collections.calc_layer_priority f2 c La).1 = Ret tt ->
  (Collections.calc_layer_priority f3 c L).1 = Ret tt ->
  prios (Collections.calc_layer_priority f2 c La).2 !! c
  = prios (Collections.calc_layer_priority f3 c L).2 !! c.
Proof.
  intros La Ha%run_eta Hac%run_eta Hc%run_eta.
  destruct (calc_layer_priority_sound L _ _ _ _ (reached_start L) Ha)
    as (HLa & _).
  destruct (calc_layer_priority_sound L _ _ _ _ HLa Hac) as (_ & v & -> & Hv).
  destruct (calc_layer_priority_sound L _ _ _ _ (reached_start L) Hc)
    as (_ & v' & -> & Hv').
  by rewrite (settled_unique _ _ _ _ _ Hv _ Hv').
Qed.

(** [X6]  A call of the recursion ends in one of three ways: it
    returns, it raises KeyError (a name that is not in one of the two
    dictionaries), or it raises RuntimeError (the recursion is deeper
    than the interpreter allows). *)
Lemma calc_layer_priority_raises fuel c (L : Collections.locals) :
  (Collections.calc_layer_priority fuel c L).1 = Ret tt \/
  (Collections.calc_layer_priority fuel c L).1 = Raise (new_exc KeyError) \/
  (Collections.calc_layer_priority fuel c L).1 = Raise (new_exc RuntimeError).
Proof.
  destruct (Collections.calc_layer_priority fuel c L) as [out L'] eqn:Hrun.
  apply calc_ends_well in Hrun. simpl.
  destruct out as [u|e|]; [destruct u; by left| |done].
  destruct Hrun as [He|He]; rewrite He; auto.
Qed.

(** [trapped cs L]: each collection of [cs] is not enabled, or has no
    priority and a dependency in [cs]. *)
Definition trapped (cs : list string) (L : Collections.locals) : bool :=
  forallb (fun c =>
    match prios L !! c with
    | None => true
    | Some x =>
        negb (Collections.truthy x) &&
        match depends L !! c with
        | Some deps => existsb (fun d => bool_decide (d ∈ cs)) deps
        | None => false
        end
    end) cs.

Lemma trapped_trap cs L : trapped cs L = true -> trap (fun c => c ∈ cs) L.
Proof.
  intros Ht c Hc. unfold trapped in Ht. rewrite forallb_forall in Ht.
  specialize (Ht c). rewrite <- list_elem_of_In in Ht. specialize (Ht Hc).
  destruct (prios L !! c) as [x|] eqn:Hx; [|by left]. right.
  apply andb_true_iff in Ht as (Hf & Hd). apply negb_true_iff in Hf.
  split; [by exists x|].
  destruct (depends L !! c) as [deps|]; [|discriminate].
  apply existsb_exists in Hd as (d & Hin & Hd).
  apply bool_decide_eq_true in Hd. apply list_elem_of_In in Hin.
  exists deps, d. auto.
Qed.

(** [X5]  A call for a collection on a cycle of collections without
    priority, or on a chain of them that leads to a collection that is
    not enabled, does not return, whatever depth is allowed. *)
Lemma calc_layer_priority_cycle cs c fuel (L : Collections.locals) :
  trapped cs L = true -> c ∈ cs ->
  (Collections.calc_layer_priority fuel c L).1 <> Ret tt.
Proof.
  intros Ht Hc Hrun%run_eta.
  by destruct (calc_layer_priority_trap _ _ _ _ _ (trapped_trap _ _ Ht) Hrun).
Qed.

(** [ranked rank L]: every collection without priority has its
    dependencies recorded, all of them enabled and of lower rank. *)
Definition ranked (rank : string -> nat) (L : Collections.locals) : bool :=
  forallb (fun cx : string * option Z =>
    Collections.truthy cx.2 ||
    match depends L !! cx.1 with
    | Some deps =>
        forallb (fun d => bool_decide (is_Some (prios L !! d)) &&
                          bool_decide (rank d < rank cx.1)%nat) deps
    | None => false
    end) (map_to_list (prios L)).

Definition acyclic (rank : string -> nat) (L : Collections.locals) : Prop :=
  forall c x, prios L !! c = Some x -> Collections.truthy x = false ->
  exists deps, depends L !! c = Some deps /\
    forall d, d ∈ deps -> is_Some (prios L !! d) /\ (rank d < rank c)%nat.

Lemma ranked_acyclic rank L : ranked rank L = true -> acyclic rank L.
Proof.
  intros Hr c x Hx Hf. unfold ranked in Hr. rewrite forallb_forall in Hr.
  specialize (Hr (c, x)). rewrite <- list_elem_of_In in Hr.
  apply elem_of_map_to_list in Hx. specialize (Hr Hx). simpl in Hr.
  rewrite Hf in Hr. simpl in Hr.
  destruct (depends L !! c) as [deps|]; [|discriminate].
  exists deps. split; [done|]. intros d Hd.
  rewrite forallb_forall in Hr. apply list_elem_of_In, Hr in Hd.
  apply andb_true_iff in Hd as (H1 & H2).
  by apply bool_decide_eq_true in H1, H2.
Qed.

Lemma grows_acyclic rank L L' : grows L L' -> acyclic rank L -> acyclic rank L'.
Proof.
  intros (Hd & _ & HP) Ha c x Hx Hf.
  assert (Hc : exists x0, prios L !! c = Some x0 /\ Collections.truthy x0 = false).
  { destruct (HP c) as [<-|(Hu & _)]; [by exists x|exact Hu]. }
  destruct Hc as (x0 & Hx0 & Hf0).
  destruct (Ha c x0 Hx0 Hf0) as (deps & Hdeps & Hall).
  exists deps. split; [by rewrite Hd|]. intros d Hin.
  destruct (Hall d Hin) as (Hs & Hlt). split; [|done].
  destruct (HP d) as [->|(_ & v & ->)]; [done|by eexists].
Qed.

Lemma grows_enabled L L' c :
  grows L L' -> is_Some (prios L !! c) -> is_Some (prios L' !! c).
Proof.
  intros (_ & _ & HP) Hs. destruct (HP c) as [->|(_ & v & ->)]; [done|by eexists].
Qed.

Lemma calc_layer_priority_acyclic rank fuel : forall c L,
  acyclic rank L -> is_Some (prios L !! c) -> (rank c < fuel)%nat ->
  exists L', Collections.calc_layer_priority fuel c L = (Ret tt, L').
Proof.
  induction fuel as [|fuel IH]; intros c L Ha [x Hx] Hlt; [lia|].
  cbn [Collections.calc_layer_priority].
  erewrite bind_ret by (rewrite priority_of_run, Hx; reflexivity).
  destruct (Collections.truthy x) eqn:Ht; [by eexists|].
  destruct (Ha c x Hx Ht) as (deps & Hdeps & Hall).
  erewrite bind_ret by reflexivity.
  erewrite bind_ret by (rewrite depends_of_run, Hdeps; reflexivity).
  assert (Hl : forall deps acc L,
    acyclic rank L ->
    (forall d, d ∈ deps -> is_Some (prios L !! d) /\ (rank d < fuel)%nat) ->
    exists mx L2, fold_ deps (dep_body fuel) acc L = (Ret mx, L2)).
  { clear -IH. intros deps.
    induction deps as [|d deps IHd]; intros acc L Ha Hall; [by eexists _, _|].
    cbn [fold_].
    destruct (Hall d) as (Hs & Hlt); [left|].
    destruct (IH d L Ha Hs Hlt) as (L1 & Hcalc).
    pose proof (calc_layer_priority_grows _ _ _ _ Hcalc) as Hg.
    destruct (grows_enabled _ _ d Hg Hs) as [dp Hdp].
    erewrite bind_ret; cycle 1.
    { erewrite bind_ret by exact Hcalc.
      erewrite bind_ret by (rewrite priority_of_run, Hdp; reflexivity).
      reflexivity. }
    apply IHd; [by eapply grows_acyclic|]. intros d' Hd'.
    destruct (Hall d') as (Hs' & Hlt'); [by right|].
    split; [by eapply grows_enabled|done]. }
  destruct (Hl deps (Collections.min_prio L) L Ha) as (mx & L2 & Hloop).
  { intros d Hd. destruct (Hall d Hd). split; [done|lia]. }
  erewrite bind_ret by exact Hloop. by eexists.
Qed.

(** [X7]  When the dependencies of the collections without priority
    are enabled and follow a rank, a call for an enabled collection
    returns within a depth of its rank. *)
Lemma calc_layer_priority_terminates rank c (L : Collections.locals) :
  ranked rank L = true -> is_Some (prios L !! c) ->
  (Collections.calc_layer_priority (S (rank c)) c L).1 = Ret tt.
Proof.
  intros Hr Hc.
  destruct (calc_layer_priority_acyclic rank (S (rank c)) c L) as (L' & ->);
    [by apply ranked_acyclic|done|lia|done].
Qed.

End layer_priority.

(** The dictionaries as the first loop of [handleCollections] leaves
    them. *)
Definition layers_read (data : gmap string string)
  : @Collections.locals LiteralRe.engine :=
  let collection_list :=
    PyStr.split (default EmptyString (getVar data "BBFILE_COLLECTIONS")) in
  (for_ collection_list
     (fun c => Collections.read_priority data c ;;;
               Collections.read_depends data collection_list c)
     Collections.init).2.

(** Layers A and B that depend on each other, neither with a
    priority. *)
Definition cycle_data : gmap string string :=
  list_to_map
    [("BBFILE_COLLECTIONS", "A B");
     ("LAYERDEPENDS_A", "B"); ("LAYERDEPENDS_B", "A");
     ("BBFILE_PATTERN_A", "^/a/"); ("BBFILE_PATTERN_B", "^/b/")]%string.

(** The same layers, A with priority 5. *)
Definition explicit_cycle_data : gmap string string :=
  <["BBFILE_PRIORITY_A"%string := "5"%string]> cycle_data.

(** Layer B depends on a layer Z that is not enabled. *)
Definition missing_data : gmap string string :=
  list_to_map
    [("BBFILE_COLLECTIONS", "B");
     ("LAYERDEPENDS_B", "Z"); ("BBFILE_PATTERN_B", "^/b/")]%string.

Definition S1_layers := Eval vm_compute in layers_read S1_data.
Definition cycle_layers := Eval vm_compute in layers_read cycle_data.
Definition explicit_cycle_layers :=
  Eval vm_compute in layers_read explicit_cycle_data.
Definition missing_layers := Eval vm_compute in layers_read missing_data.

Lemma layers_read_scenarios :
  S1_layers = layers_read S1_data /\
  cycle_layers = layers_read cycle_data /\
  explicit_cycle_layers = layers_read explicit_cycle_data /\
  missing_layers = layers_read missing_data.
Proof. repeat split; vm_compute; reflexivity. Qed.

Lemma calc_layer_priority_settled_witness :
  exists v,
    Collections.collection_priorities
      (Collections.calc_layer_priority 3 "C" S1_layers).2 !! "C"
    = Some (Some v) /\
    settled (fun c => Collections.collection_priorities S1_layers !! c)
            (fun c => Collections.collection_depends S1_layers !! c)
            (Collections.min_prio S1_layers) "C" v.
Proof.
  apply (calc_layer_priority_settled 3 "C" S1_layers).
  vm_compute. reflexivity.
Defined.

Lemma calc_layer_priority_order_witness :
  Collections.collection_priorities
    (Collections.calc_layer_priority 3 "C"
       (Collections.calc_layer_priority 3 "B" S1_layers).2).2 !! "C"
  = Collections.collection_priorities
    (Collections.calc_layer_priority 3 "C" S1_layers).2 !! "C".
Proof.
  apply (calc_layer_priority_order 3 3 3 "B" "C" S1_layers);
    vm_compute; reflexivity.
Defined.

Lemma calc_layer_priority_cycle_witness :
  (Collections.calc_layer_priority 100 "A" cycle_layers).1 <> Ret tt.
Proof.
  apply (calc_layer_priority_cycle ["A"; "B"]%string).
  - vm_compute. reflexivity.
  - left.
Defined.

(** The three ways: the chain of S1, a layer that is not enabled, and
    the cycle of A and B. *)
Example calc_layer_priority_ends :
  (Collections.calc_layer_priority 3 "C" S1_layers).1 = Ret tt /\
  (Collections.calc_layer_priority 2 "B" missing_layers).1
    = Raise (new_exc KeyError) /\
  (Collections.calc_layer_priority 100 "A" cycle_layers).1
    = Raise (new_exc RuntimeError).
Proof. repeat split; vm_compute; reflexivity. Qed.

Definition B_above (c : string) : nat := if String.eqb c "B" then 1 else 0.

Lemma calc_layer_priority_terminates_witness :
  (Collections.calc_layer_priority (S (B_above "B")) "B"
     explicit_cycle_layers).1 = Ret tt.
Proof.
  apply (calc_layer_priority_terminates B_above).
  - vm_compute. reflexivity.
  - vm_compute. eexists. reflexivity.
Defined.

(** ** The pool is shut down once *)

Section parser_shutdown.
Context `{RecipeParser} `{FileSystem}.

(** [X9]  A second call of [shutdown] does nothing, whatever its
    arguments: the event ParseCompleted is fired and the queues are
    told to stop by the first call only. *)
Lemma shutdown_twice clean force clean' force' c :
  (CookerParser.shutdown clean force ;;; CookerParser.shutdown clean' force') c
  = CookerParser.shutdown clean force c.
Proof.
  unfold CookerParser.shutdown, CookerParser.update, the_parser, fire, bind,
    modify, ret.
  destruct c as [st d lg ev rc sl cl [p|] fs ex ok cpus hp]; simpl; [|done].
  destruct (toparse p =? 0) eqn:Ht; simpl; [by rewrite Ht|].
  destruct (haveshutdown p) eqn:Hs; simpl; [by rewrite Ht, Hs|].
  destruct clean; simpl; by rewrite Ht.
Qed.

End parser_shutdown.

(** ** The appends of a recipe *)

Section appends.
Context `{RecipeParser} `{FileSystem}.

Lemma elem_of_concat {A} (x : A) (ls : list (list A)) :
  x ∈ concat ls <-> exists l, l ∈ ls /\ x ∈ l.
Proof.
  rewrite list_elem_of_In, in_concat. split; intros (l & Hl & Hx); exists l;
    by rewrite ?list_elem_of_In in *.
Qed.

Lemma filter_none {A} (P : A -> Prop) `{!forall x, Decision (P x)} (l : list A) :
  (forall x, x ∈ l -> ~ P x) -> filter P l = [].
Proof.
  intros Hl. destruct (filter P l) as [|x l'] eqn:Hf; [done|].
  assert (Hx : x ∈ filter P l) by (rewrite Hf; left).
  apply list_elem_of_filter in Hx as [HP Hx]. by destruct (Hl x Hx).
Qed.

Lemma applicable_elem cc fn k fs :
  (k, fs) ∈ CookerCollectFiles.applicable cc fn <->
  appendlist cc !! k = Some fs /\
  CookerCollectFiles.append_applies k (PyStr.basename fn) = true.
Proof.
  unfold CookerCollectFiles.applicable.
  rewrite list_elem_of_filter, elem_of_map_to_list. simpl. tauto.
Qed.

(** The collector after [get_file_appends] has been called for [fn]. *)
Definition applied (cc : collector) (fn : string) : collector :=
  Collector _ (appendlist cc)
    (appliedappendlist cc ++ (CookerCollectFiles.applicable cc fn).*1)
    (cc_priorities cc) (overlayed cc).

Lemma get_file_appends_spec fn c cc :
  collection c = Some cc ->
  CookerCollectFiles.get_file_appends fn c
  = (Ret (concat (CookerCollectFiles.applicable cc fn).*2),
     set_collection (Some (applied cc fn)) c).
Proof.
  intros Hcc.
  unfold CookerCollectFiles.get_file_appends, CookerCollectFiles.update,
    bind, the_collection, modify, ret.
  rewrite Hcc. simpl. rewrite Hcc. reflexivity.
Qed.

(** [X10]  [get_file_appends] returns every append file that is
    registered under the base name of the recipe and marks that name as
    applied; it leaves the index of appends as it is and takes no name
    out of the applied ones. *)
Lemma get_file_appends_exact fn c cc fs :
  collection c = Some cc ->
  appendlist cc !! PyStr.basename fn = Some fs ->
  exists l cc',
    (CookerCollectFiles.get_file_appends fn c).1 = Ret l /\
    collection (CookerCollectFiles.get_file_appends fn c).2 = Some cc' /\
    (forall f, f ∈ fs -> f ∈ l) /\
    appendlist cc' = appendlist cc /\
    PyStr.basename fn ∈ appliedappendlist cc' /\
    (forall k, k ∈ appliedappendlist cc -> k ∈ appliedappendlist cc').
Proof.
  intros Hcc Hfs. rewrite (get_file_appends_spec fn c cc Hcc). simpl.
  eexists _, _. split; [reflexivity|]. split; [reflexivity|].
  assert (Hin : (PyStr.basename fn, fs) ∈ CookerCollectFiles.applicable cc fn).
  { apply applicable_elem. split; [done|].
    unfold CookerCollectFiles.append_applies.
    by rewrite bool_decide_eq_true_2. }
  simpl. repeat split.
  - intros f Hf. apply elem_of_concat. exists fs. split; [|done].
    apply list_elem_of_fmap. by exists (PyStr.basename fn, fs).
  - apply elem_of_app. right. apply list_elem_of_fmap.
    by exists (PyStr.basename fn, fs).
  - intros k Hk. apply elem_of_app. by left.
Qed.

(** The collector after the constructor of the parser has asked for the
    appends of each file of the list. *)
Lemma split_by_cache_applied files : forall acc c cc,
  collection c = Some cc ->
  exists r cc',
    fold_ files
      (fun st filename =>
         let '(fromcache, willparse) := st in
         appends <- CookerCollectFiles.get_file_appends filename ;;
         if cacheValid filename appends
         then ret (fromcache ++ [(filename, appends)], willparse)
         else ret (fromcache, willparse ++ [(filename, appends)]))
      acc c
    = (Ret r, set_collection (Some cc') c) /\
    appendlist cc' = appendlist cc /\
    (forall k, k ∈ appliedappendlist cc' <->
       k ∈ appliedappendlist cc \/
       exists fn fs, fn ∈ files /\ appendlist cc !! k = Some fs /\
         CookerCollectFiles.append_applies k (PyStr.basename fn) = true).
Proof.
  induction files as [|fn files IH]; intros [fc wp] c cc Hcc.
  - exists (fc, wp), cc. simpl. unfold ret. split; [|split; [done|]].
    + f_equal. destruct c. simpl in *. by rewrite Hcc.
    + intros k. split; [by left|]. intros [Hk|(fn & fs & Hin & _)]; [done|].
      by inversion Hin.
  - cbn [fold_]. unfold bind at 1. unfold bind at 1.
    rewrite (get_file_appends_spec fn c cc Hcc).
    set (c1 := set_collection (Some (applied cc fn)) c).
    assert (Hc1 : collection c1 = Some (applied cc fn)) by done.
    match goal with
    | |- context [fold_ files ?body ?acc' c1] => idtac
    | _ => idtac
    end.
    destruct (cacheValid fn _); unfold ret at 1;
      match goal with
      | |- context [fold_ files _ ?acc' c1] =>
          destruct (IH acc' c1 _ Hc1) as (r & cc' & -> & Hal & Hap)
      end;
      (exists r, cc'; split; [by destruct c|]; split; [done|];
       intros k; rewrite Hap; simpl; rewrite elem_of_app, list_elem_of_fmap;
       split;
       [ intros [[Hk|((k' & fs) & -> & Hin)]|(fn' & fs & Hin & Hl & Ha)];
         [ by left
         | apply applicable_elem in Hin as [Hl Ha]; right;
           exists fn, fs; split; [left|done]
         | right; exists fn', fs; split; [by right|done] ]
       | intros [Hk|(fn' & fs & Hin & Hl & Ha)];
         [ by left; left
         | apply elem_of_cons in Hin as [->|Hin];
           [ left; right; exists (k, fs); split; [done|];
             by apply applicable_elem
           | right; exists fn', fs; done ] ] ]).
Qed.

(** [X11]  When each name in the index of appends has been applied
    already or applies to a file of the list, then after the split of the
    list by the cache (which asks for the appends of each file)
    [show_appends_with_no_recipes] returns without a message. *)
Lemma appends_with_recipes_pass files c cc :
  collection c = Some cc ->
  (forall k, is_Some (appendlist cc !! k) ->
     k ∈ appliedappendlist cc \/
     exists fn, fn ∈ files /\
       CookerCollectFiles.append_applies k (PyStr.basename fn) = true) ->
  ((CookerParser.split_by_cache files ;;;
    BBCooker.show_appends_with_no_recipes) c).1 = Ret tt /\
  log ((CookerParser.split_by_cache files ;;;
        BBCooker.show_appends_with_no_recipes) c).2 = log c.
Proof.
  intros Hcc Hall.
  destruct (split_by_cache_applied files ([], []) c cc Hcc)
    as (r & cc' & Hrun & Hal & Hap).
  unfold CookerParser.split_by_cache.
  erewrite bind_ret by exact Hrun.
  unfold BBCooker.show_appends_with_no_recipes, the_collection, bind. simpl.
  assert (Hnone : filter (fun kv : string * list string =>
                     kv.1 ∉ appliedappendlist cc')
                    (map_to_list (appendlist cc')) = []).
  { apply filter_none. intros [k fs] Hk%elem_of_map_to_list Hn. simpl in Hn.
    apply Hn, Hap. rewrite Hal in Hk.
    destruct (Hall k) as [Ha|(fn & Hin & Ha)]; [by eexists|by left|].
    right. by exists fn, fs. }
  rewrite Hnone. simpl. by destruct c.
Qed.

(** [X12]  An append whose name is in the index and has not been
    applied is reported by [show_appends_with_no_recipes]: as a warning
    when BB_DANGLINGAPPENDS_WARNONLY is 1, yes or true in any case of
    letters, and otherwise as a critical message followed by
    BBHandledException. *)
Lemma dangling_append_reported c cc k fs :
  collection c = Some cc ->
  appendlist cc !! k = Some fs ->
  k ∉ appliedappendlist cc ->
  let warn := bool_decide
    (PyStr.lower (default "no"%string
       (nonempty (getVar (data c) "BB_DANGLINGAPPENDS_WARNONLY")))
     ∈ ["1"; "yes"; "true"]%string) in
  (BBCooker.show_appends_with_no_recipes c).1
    = (if warn then Ret tt else Raise (new_exc BBHandledException)) /\
  lvl <$> log (BBCooker.show_appends_with_no_recipes c).2
    = (lvl <$> log c) ++ [if warn then Warn else Critical].
Proof.
  intros Hcc Hk Hn warn.
  unfold BBCooker.show_appends_with_no_recipes, the_collection, bind.
  rewrite Hcc. simpl.
  destruct (filter _ (map_to_list (appendlist cc))) as [|kv l] eqn:Hf.
  { exfalso. eapply (filter_nil_not_elem_of _ _ (k, fs)); [exact Hf|exact Hn|].
    by apply elem_of_map_to_list. }
  simpl. fold warn. destruct warn; simpl; by rewrite fmap_app.
Qed.

End appends.

Section appends_scenario.
#[local] Existing Instance LiteralRe.engine.
#[local] Instance appends_parser : RecipeParser :=
  toy_parser (fun _ => false) (fun _ => None).
#[local] Instance appends_fs : FileSystem :=
  flat_fs ["/l/a.bb"; "/l/a.bbappend"]%string.

(** A collector that knows one append, for the recipe a.bb. *)
Definition one_append : collector :=
  Collector _ {[ "a.bb"%string := ["/l/a.bbappend"%string] ]} [] [] None.

Definition appends_cooker : cooker :=
  set_collection (Some one_append) (new_cooker ∅).

Lemma get_file_appends_exact_witness :
  exists l cc',
    (CookerCollectFiles.get_file_appends "/l/a.bb" appends_cooker).1 = Ret l /\
    collection (CookerCollectFiles.get_file_appends "/l/a.bb" appends_cooker).2
      = Some cc' /\
    (forall f, f ∈ ["/l/a.bbappend"%string] -> f ∈ l) /\
    appendlist cc' = appendlist one_append /\
    PyStr.basename "/l/a.bb" ∈ appliedappendlist cc' /\
    (forall k, k ∈ appliedappendlist one_append -> k ∈ appliedappendlist cc').
Proof.
  apply (get_file_appends_exact "/l/a.bb" appends_cooker one_append).
  - reflexivity.
  - vm_compute. reflexivity.
Defined.

Lemma appends_with_recipes_pass_witness :
  ((CookerParser.split_by_cache ["/l/a.bb"%string] ;;;
    BBCooker.show_appends_with_no_recipes) appends_cooker).1 = Ret tt /\
  log ((CookerParser.split_by_cache ["/l/a.bb"%string] ;;;
        BBCooker.show_appends_with_no_recipes) appends_cooker).2
  = log appends_cooker.
Proof.
  apply (appends_with_recipes_pass ["/l/a.bb"%string] appends_cooker one_append).
  - reflexivity.
  - intros k [fs Hk]. cbn in Hk. apply lookup_singleton_Some in Hk as [<- _].
    right.
    exists "/l/a.bb"%string. split; [left|reflexivity].
Defined.

Lemma dangling_append_reported_witness :
  (BBCooker.show_appends_with_no_recipes appends_cooker).1
    = Raise (new_exc BBHandledException) /\
  lvl <$> log (BBCooker.show_appends_with_no_recipes appends_cooker).2
    = (lvl <$> log appends_cooker) ++ [Critical].
Proof.
  apply (dangling_append_reported appends_cooker one_append "a.bb"
           ["/l/a.bbappend"%string]).
  - reflexivity.
  - vm_compute. reflexivity.
  - apply not_elem_of_nil.
Defined.

End appends_scenario.

(** ** The world target *)

Section world.
Context `{RecipeParser} `{FileSystem}.

(** [pn] can stand for itself in a world build: nothing it provides is
    virtual, and every recipe file that provides one of these names is a
    file of [pn]. *)
Definition terminal (rc : recipe_cache) (pn : string) : Prop :=
  exists ps, pn_provides rc !! pn = Some ps /\
    Forall (fun p =>
      PyStr.startswith p "virtual/" = false /\
      exists pfs, providers rc !! p = Some pfs /\
        Forall (fun pf => pkg_fn rc !! pf = Some pn) pfs) ps.

Lemma item_run {V} (d : gmap string V) k c v c' :
  BBCooker.item d k c = (Ret v, c') -> d !! k = Some v /\ c' = c.
Proof.
  unfold BBCooker.item. destruct (d !! k); [|discriminate].
  by intros [= <- <-].
Qed.

Lemma scan_providers_run f pn p pfs : forall going c b c',
  fold_ pfs
    (fun going pf =>
       if going : bool then
         rc <- gets recipecache ;;
         pn' <- BBCooker.item (pkg_fn rc) pf ;;
         if bool_decide (pn' = pn) then ret true
         else
           logger (Debug 2)
             "World build skipping %s due to both us and %s providing %s"
             [AStr f; AStr pf; AStr p] ;;;
           ret false
       else ret false)
    going c = (Ret b, c') ->
  recipecache c' = recipecache c /\
  (b = true ->
   going = true /\ Forall (fun pf => pkg_fn (recipecache c) !! pf = Some pn) pfs).
Proof.
  induction pfs as [|pf pfs IH]; intros going c b c' Hrun.
  - injection Hrun as <- <-. by split.
  - cbn [fold_] in Hrun.
    apply bind_inv_ret in Hrun as (g1 & c1 & Hbody & Hrest).
    apply IH in Hrest as (Hrc & Hb).
    destruct going.
    + apply bind_inv_ret in Hbody as (rc & c0 & [= <- <-] & Hbody).
      apply bind_inv_ret in Hbody as (pn' & c0 & [Hpf ->]%item_run & Hbody).
      destruct (bool_decide (pn' = pn)) eqn:Hpn.
      * injection Hbody as <- <-. split; [done|]. intros Hbt.
        destruct (Hb Hbt) as (_ & Hall). split; [done|].
        apply bool_decide_eq_true in Hpn as ->. by constructor.
      * apply bind_inv_ret in Hbody as ([] & c2 & [= <-] & [= <- <-]).
        split; [by rewrite Hrc|]. intros Hbt. by destruct (Hb Hbt).
    + injection Hbody as <- <-. split; [done|]. intros Hbt.
      by destruct (Hb Hbt).
Qed.

Lemma scan_provides_run f pn ps : forall st c st' c',
  fold_ ps
    (fun st p =>
       let '(terminal, going) := st in
       if going : bool then
         if PyStr.startswith p "virtual/" then
           logger (Debug 2)
             "World build skipping %s due to %s provider starting with virtual/"
             [AStr f; AStr p] ;;;
           ret (false, false)
         else
           rc <- gets recipecache ;;
           pfs <- BBCooker.item (providers rc) p ;;
           all <- BBCooker.scan_providers f pn p pfs ;;
           ret (terminal && all, true)
       else ret (terminal, going))
    st c = (Ret st', c') ->
  recipecache c' = recipecache c /\
  (st'.1 = true ->
   st.1 = true /\
   (st.2 = true ->
    Forall (fun p =>
      PyStr.startswith p "virtual/" = false /\
      exists pfs, providers (recipecache c) !! p = Some pfs /\
        Forall (fun pf => pkg_fn (recipecache c) !! pf = Some pn) pfs) ps)).
Proof.
  induction ps as [|p ps IH]; intros [t g] c st' c' Hrun.
  - injection Hrun as <- <-. split; [done|]. intros Ht. split; [done|].
    by constructor.
  - cbn [fold_] in Hrun.
    apply bind_inv_ret in Hrun as ([t1 g1] & c1 & Hbody & Hrest).
    apply IH in Hrest as (Hrc & Hb). simpl in *.
    destruct g.
    + destruct (PyStr.startswith p "virtual/") eqn:Hv.
      * apply bind_inv_ret in Hbody as ([] & c2 & [= <-] & [= <- <- <-]).
        split; [by rewrite Hrc|]. intros Ht. by destruct (Hb Ht).
      * apply bind_inv_ret in Hbody as (rc & c0 & [= <- <-] & Hbody).
        apply bind_inv_ret in Hbody as (pfs & c0 & [Hp ->]%item_run & Hbody).
        apply bind_inv_ret in Hbody as (all & c2 & Hscan & [= <- <- <-]).
        apply scan_providers_run in Hscan as (Hrc2 & Hall).
        split; [by rewrite Hrc, Hrc2|]. intros Ht.
        destruct (Hb Ht) as ((-> & Hat)%andb_true_iff & Hps).
        split; [done|]. intros _. constructor.
        -- split; [done|]. exists pfs. split; [done|]. by apply Hall.
        -- rewrite Hrc2 in Hps. by apply Hps.
    + injection Hbody as <- <- <-. split; [done|]. intros Ht.
      destruct (Hb Ht) as (-> & _). by split.
Qed.

Lemma world_loop_run : forall fs c c',
    for_ fs
      (fun f =>
         rc <- gets recipecache ;;
         pn <- BBCooker.item (pkg_fn rc) f ;;
         ps <- BBCooker.item (pn_provides rc) pn ;;
         terminal <- BBCooker.scan_provides f pn ps ;;
         if terminal : bool
         then BBCooker.update_cache (fun rc =>
                BBCooker.with_world_target rc ({[pn]} ∪ world_target rc))
         else ret tt) c = (Ret tt, c') ->
    let rc := recipecache c in
    let rc' := recipecache c' in
    pkg_fn rc' = pkg_fn rc /\ pn_provides rc' = pn_provides rc /\
    providers rc' = providers rc /\
    possible_world rc' = possible_world rc /\
    world_target rc ⊆ world_target rc' /\
    forall pn, pn ∈ world_target rc' -> pn ∉ world_target rc ->
      terminal rc pn /\ exists f, f ∈ fs /\ pkg_fn rc !! f = Some pn.
Proof.
  induction fs as [|f fs IH]; intros c c' Hrun.
  - injection Hrun as <-. simpl. split_and!; try done.
  - cbn [for_] in Hrun.
    apply bind_inv_ret in Hrun as ([] & c1 & Hbody & Hrest).
    apply IH in Hrest as (Hpk & Hpp & Hpr & Hpw & Hsub & Hnew).
    apply bind_inv_ret in Hbody as (rc & c0 & [= <- <-] & Hbody).
    apply bind_inv_ret in Hbody as (pn & c0 & [Hf ->]%item_run & Hbody).
    apply bind_inv_ret in Hbody as (ps & c0 & [Hps ->]%item_run & Hbody).
    apply bind_inv_ret in Hbody as (t & c2 & Hscan & Hbody).
    unfold BBCooker.scan_provides in Hscan.
    apply bind_inv_ret in Hscan as ([t' g'] & c3 & Hscan & [= <- <-]).
    apply scan_provides_run in Hscan as (Hrc & Hterm). simpl in Hterm.
    assert (Hc1 : pkg_fn (recipecache c1) = pkg_fn (recipecache c) /\
                  pn_provides (recipecache c1) = pn_provides (recipecache c) /\
                  providers (recipecache c1) = providers (recipecache c) /\
                  possible_world (recipecache c1) = possible_world (recipecache c) /\
                  world_target (recipecache c) ⊆ world_target (recipecache c1) /\
                  forall x, x ∈ world_target (recipecache c1) ->
                    x ∉ world_target (recipecache c) -> x = pn /\ t' = true).
    { destruct t'.
      - injection Hbody as <-. simpl. rewrite Hrc.
        split_and!; try done; [apply union_subseteq_r|].
        intros x [Hx%elem_of_singleton|Hx]%elem_of_union Hn; [by subst|done].
      - injection Hbody as <-. rewrite Hrc. split_and!; try done. }
    destruct Hc1 as (Hpk1 & Hpp1 & Hpr1 & Hpw1 & Hsub1 & Hnew1).
    simpl.
    split; [congruence|]. split; [congruence|]. split; [congruence|].
    split; [congruence|]. split; [by etransitivity|].
    intros x Hx Hnx.
    destruct (decide (x ∈ world_target (recipecache c1))) as [Hin|Hout].
    + destruct (Hnew1 _ Hin Hnx) as (-> & ->).
      destruct Hterm as (_ & Hall); [done|]. split.
      * exists ps. split; [done|]. by apply Hall.
      * exists f. split; [left|done].
    + destruct (Hnew x Hx Hout) as ((ps' & Hps' & Hall) & f' & Hf' & Hpn).
      split.
      * exists ps'. rewrite <- Hpp1. split; [done|].
        rewrite <- Hpr1, <- Hpk1. exact Hall.
      * exists f'. split; [by right|]. by rewrite <- Hpk1.
Qed.

(** [X13]  [buildWorldTargetList] adds names to the world target and
    takes none out, and leaves the tables it reads as they are; a name
    it adds is the name of a possible world file, provides nothing
    virtual, and shares none of the names it provides with the file of
    another recipe. *)
Lemma buildWorldTargetList_adds c :
  (BBCooker.buildWorldTargetList c).1 = Ret tt ->
  let rc := recipecache c in
  let rc' := recipecache (BBCooker.buildWorldTargetList c).2 in
  pkg_fn rc' = pkg_fn rc /\ pn_provides rc' = pn_provides rc /\
  providers rc' = providers rc /\
  world_target rc ⊆ world_target rc' /\
  forall pn, pn ∈ world_target rc' -> pn ∉ world_target rc ->
    terminal rc pn /\ exists f, f ∈ possible_world rc /\ pkg_fn rc !! f = Some pn.
Proof.
  destruct (BBCooker.buildWorldTargetList c) as [out c'] eqn:Hrun.
  simpl. intros ->.
  unfold BBCooker.buildWorldTargetList in Hrun.
  apply bind_inv_ret in Hrun as ([] & c0 & [= <-] & Hrun).
  apply bind_inv_ret in Hrun as (rc0 & c0 & [= <- <-] & Hrun).
  apply world_loop_run in Hrun as (Hpk & Hpp & Hpr & Hpw & Hsub & Hnew).
  simpl in *. repeat split; try done; by apply Hnew.
Qed.

End world.

Section world_scenario.
#[local] Existing Instance LiteralRe.engine.
#[local] Instance world_parser : RecipeParser :=
  toy_parser (fun _ => false) (fun _ => None).

(** Two recipes: a, which provides its own name only, and v, which also
    provides virtual/kernel. *)
Definition world_cache : recipe_cache :=
  RecipeCache _ [] ∅ ∅ ∅ ["/l/a.bb"; "/l/v.bb"]%string
    (list_to_map [("/l/a.bb", "a"); ("/l/v.bb", "v")]%string)
    (list_to_map [("a", ["a"]); ("v", ["v"; "virtual/kernel"])]%string)
    (list_to_map [("a", ["/l/a.bb"]); ("v", ["/l/v.bb"]);
                  ("virtual/kernel", ["/l/v.bb"])]%string)
    ∅ ∅.

Definition world_cooker : cooker :=
  set_recipecache world_cache (new_cooker ∅).

Example world_of_two :
  elements (world_target
    (recipecache (BBCooker.buildWorldTargetList world_cooker).2))
  = ["a"%string].
Proof. vm_compute. reflexivity. Qed.

Lemma buildWorldTargetList_adds_witness :
  let rc := recipecache world_cooker in
  let rc' := recipecache (BBCooker.buildWorldTargetList world_cooker).2 in
  pkg_fn rc' = pkg_fn rc /\ pn_provides rc' = pn_provides rc /\
  providers rc' = providers rc /\
  world_target rc ⊆ world_target rc' /\
  forall pn, pn ∈ world_target rc' -> pn ∉ world_target rc ->
    terminal rc pn /\ exists f, f ∈ possible_world rc /\ pkg_fn rc !! f = Some pn.
Proof.
  apply (buildWorldTargetList_adds world_cooker).
  vm_compute. reflexivity.
Defined.

End world_scenario.

(** ** Preferred providers *)

Section preferences.
Context `{RecipeParser}.

(** The pair that an entry of PREFERRED_PROVIDERS stands for. *)
Definition preference (p : string) : option (string * string) :=
  match PyStr.split_on ":" p with
  | [providee; provider] => Some (providee, provider)
  | _ => None
  end.

Definition prefer (m : gmap string string) (p : string) : gmap string string :=
  match preference p with
  | Some (providee, provider) => <[providee := provider]> m
  | None => m
  end.

(** The two reports of the loop. *)
Definition malformed (p : string) : log_record :=
  Log Critical "Malformed option in PREFERRED_PROVIDERS variable: %s" [AStr p].

Definition conflicting (providee provider old : string) : log_record :=
  Log Error "conflicting preferences for %s: both %s and %s specified"
      [AStr providee; AStr provider; AStr old].

Lemma preference_Some p providee provider :
  preference p = Some (providee, provider) <->
  PyStr.split_on ":" p = [providee; provider].
Proof.
  unfold preference.
  destruct (PyStr.split_on ":" p) as [|a [|b [|x l]]]; split; congruence.
Qed.

(** One round of the loop of lines 770-779. *)
Lemma handlePrefProviders_step p c :
  exists c',
    match PyStr.split_on ":" p with
    | [providee; provider] =>
        rc <- gets recipecache ;;
        match preferred rc !! providee with
        | Some old =>
            if bool_decide (old = provider) then ret tt
            else logger Error
                   "conflicting preferences for %s: both %s and %s specified"
                   [AStr providee; AStr provider; AStr old]
        | None => ret tt
        end ;;;
        BBCooker.update_cache (fun rc =>
          BBCooker.with_preferred rc (<[providee := provider]> (preferred rc)))
    | _ =>
        logger Critical
          "Malformed option in PREFERRED_PROVIDERS variable: %s" [AStr p]
    end c = (Ret tt, c') /\
    preferred (recipecache c') = prefer (preferred (recipecache c)) p /\
    (forall r, r ∈ log c -> r ∈ log c') /\
    (preference p = None -> malformed p ∈ log c') /\
    (forall providee provider old,
       preference p = Some (providee, provider) ->
       preferred (recipecache c) !! providee = Some old -> old <> provider ->
       conflicting providee provider old ∈ log c').
Proof.
  unfold prefer, preference.
  destruct (PyStr.split_on ":" p) as [|a [|b [|x l]]];
    try (eexists; split; [reflexivity|]; split; [reflexivity|]; simpl;
         split; [intros r Hr; apply elem_of_app; by left|];
         split; [intros _; apply elem_of_app; right; left|done]).
  unfold bind, gets. simpl.
  destruct (preferred (recipecache c) !! a) as [old|] eqn:Hold;
    [case_bool_decide as Heq|];
    (eexists; split; [reflexivity|]; split; [reflexivity|]; simpl;
     split; [intros r Hr; rewrite ?elem_of_app; auto|]; split; [done|]).
  - intros a' b' old' [= <- <-] Hlook Hne. congruence.
  - intros a' b' old' [= <- <-] Hlook Hne.
    rewrite Hold in Hlook. injection Hlook as <-.
    apply elem_of_app. right. left.
  - intros a' b' old' [= <- <-] Hlook Hne. congruence.
Qed.

Lemma handlePrefProviders_loop ps : forall c,
  exists c',
    for_ ps
      (fun p =>
         match PyStr.split_on ":" p with
         | [providee; provider] =>
             rc <- gets recipecache ;;
             match preferred rc !! providee with
             | Some old =>
                 if bool_decide (old = provider) then ret tt
                 else logger Error
                        "conflicting preferences for %s: both %s and %s specified"
                        [AStr providee; AStr provider; AStr old]
             | None => ret tt
             end ;;;
             BBCooker.update_cache (fun rc =>
               BBCooker.with_preferred rc (<[providee := provider]> (preferred rc)))
         | _ =>
             logger Critical
               "Malformed option in PREFERRED_PROVIDERS variable: %s" [AStr p]
         end) c = (Ret tt, c') /\
    preferred (recipecache c') = foldl prefer (preferred (recipecache c)) ps /\
    (forall r, r ∈ log c -> r ∈ log c') /\
    (forall p, p ∈ ps -> preference p = None -> malformed p ∈ log c') /\
    (forall before p after providee provider old,
       ps = before ++ p :: after ->
       preference p = Some (providee, provider) ->
       foldl prefer (preferred (recipecache c)) before !! providee = Some old ->
       old <> provider ->
       conflicting providee provider old ∈ log c').
Proof.
  induction ps as [|p ps IH]; intros c.
  - exists c. split; [done|]. split; [done|]. split; [done|].
    split; [intros p Hp; by apply not_elem_of_nil in Hp|].
    intros [|? ?] ? ? ? ? ? [=].
  - cbn [for_ foldl].
    destruct (handlePrefProviders_step p c) as (c1 & Hb & Hp1 & Hl1 & Hm1 & Hc1).
    destruct (IH c1) as (c' & Hrest & Hp' & Hl' & Hm' & Hc').
    exists c'. split; [by erewrite bind_ret by exact Hb|].
    split; [by rewrite Hp', Hp1|]. split; [auto|]. split.
    + intros q [->|Hq]%elem_of_cons Hnone; [apply Hl'; auto|by apply Hm'].
    + intros [|q before] q' after a b old Hsplit Hq' Hold Hne.
      * injection Hsplit as <- <-. apply Hl'. by eapply Hc1.
      * injection Hsplit as <- ->. cbn [foldl] in Hold. rewrite <- Hp1 in Hold.
        by eapply Hc'.
Qed.

Lemma foldl_prefer_other ps a : forall m,
  (forall q b, q ∈ ps -> PyStr.split_on ":" q <> [a; b]) ->
  foldl prefer m ps !! a = m !! a.
Proof.
  induction ps as [|q ps IH]; intros m Hno; [done|].
  cbn [foldl]. rewrite IH by (intros q' b' Hq'; apply Hno; by right).
  unfold prefer, preference.
  destruct (PyStr.split_on ":" q) as [|a' [|b' [|x l]]] eqn:Hq; try done.
  apply lookup_insert_ne. intros ->. by apply (Hno q b'); [left|].
Qed.

(** [X14]  [handlePrefProviders] returns, whatever PREFERRED_PROVIDERS
    holds.  It takes no record out of the log; for each entry that is
    not of the form providee:provider it logs the critical record of
    line 774 and goes on; for an entry that names another provider than
    the one preferred so far it logs the error of line 777.  Of the
    entries for one providee the last one stands, and a providee without
    an entry keeps the provider it had. *)
Lemma handlePrefProviders_last_wins c :
  let entries :=
    PyStr.split (default EmptyString (getVar (data c) "PREFERRED_PROVIDERS")) in
  let c' := (BBCooker.handlePrefProviders c).2 in
  (BBCooker.handlePrefProviders c).1 = Ret tt /\
  (forall r, r ∈ log c -> r ∈ log c') /\
  (forall p, p ∈ entries ->
     (forall providee provider, PyStr.split_on ":" p <> [providee; provider]) ->
     malformed p ∈ log c') /\
  (forall before p after providee provider old,
     entries = before ++ p :: after ->
     PyStr.split_on ":" p = [providee; provider] ->
     foldl prefer (preferred (recipecache c)) before !! providee = Some old ->
     old <> provider ->
     conflicting providee provider old ∈ log c') /\
  (forall before p after providee provider,
     entries = before ++ p :: after ->
     PyStr.split_on ":" p = [providee; provider] ->
     (forall q b, q ∈ after -> PyStr.split_on ":" q <> [providee; b]) ->
     preferred (recipecache c') !! providee = Some provider) /\
  (forall providee,
     (forall q b, q ∈ entries -> PyStr.split_on ":" q <> [providee; b]) ->
     preferred (recipecache c') !! providee
       = preferred (recipecache c) !! providee).
Proof.
  intros entries c'.
  destruct (handlePrefProviders_loop entries c)
    as (c1 & Hrun & Hpref & Hlog & Hmal & Hconf).
  assert (Hall : BBCooker.handlePrefProviders c = (Ret tt, c1)) by exact Hrun.
  subst c'. rewrite Hall. cbn [fst snd].
  split; [done|]. split; [done|]. split; [|split; [|split]].
  - intros p Hp Hno. apply Hmal; [done|].
    destruct (preference p) as [[a b]|] eqn:Hp'; [|done].
    apply preference_Some in Hp'. by destruct (Hno a b).
  - intros before p after a b old Hsplit Hp Hold Hne.
    eapply Hconf; eauto. by apply preference_Some.
  - intros before p after a b Hsplit Hp Hafter.
    rewrite Hpref, Hsplit, foldl_app. cbn [foldl].
    rewrite foldl_prefer_other by done.
    unfold prefer at 1. apply preference_Some in Hp. rewrite Hp.
    apply lookup_insert_eq.
  - intros a Hno. rewrite Hpref. by apply foldl_prefer_other.
Qed.

End preferences.

Section preferences_scenario.
#[local] Existing Instance LiteralRe.engine.
#[local] Instance preferences_parser : RecipeParser :=
  toy_parser (fun _ => false) (fun _ => None).

Definition preferences_cooker : cooker :=
  new_cooker (list_to_map
    [("PREFERRED_PROVIDERS", "virtual/kernel:linux-a bad virtual/kernel:linux-b")
    ]%string).

Lemma handlePrefProviders_last_wins_witness :
  let c' := (BBCooker.handlePrefProviders preferences_cooker).2 in
  (BBCooker.handlePrefProviders preferences_cooker).1 = Ret tt /\
  malformed "bad" ∈ log c' /\
  conflicting "virtual/kernel" "linux-b" "linux-a" ∈ log c' /\
  preferred (recipecache c') !! "virtual/kernel"%string = Some "linux-b"%string /\
  preferred (recipecache c') !! "virtual/libc"%string
    = preferred (recipecache preferences_cooker) !! "virtual/libc"%string.
Proof.
  pose proof (handlePrefProviders_last_wins preferences_cooker) as Hall.
  cbv zeta in Hall.
  destruct Hall as (Hret & _ & Hmal & Hconf & Hlast & Hkeep).
  split; [exact Hret|]. split; [|split; [|split]].
  - apply Hmal.
    + vm_compute. right. left.
    + intros a b. vm_compute. discriminate.
  - apply (Hconf ["virtual/kernel:linux-a"; "bad"]%string
             "virtual/kernel:linux-b"%string []).
    + vm_compute. reflexivity.
    + vm_compute. reflexivity.
    + vm_compute. reflexivity.
    + discriminate.
  - apply (Hlast ["virtual/kernel:linux-a"; "bad"]%string
             "virtual/kernel:linux-b"%string []).
    + vm_compute. reflexivity.
    + vm_compute. reflexivity.
    + intros q b Hq. by apply not_elem_of_nil in Hq.
  - apply Hkeep. intros q b Hq.
    vm_compute in Hq.
    repeat (apply elem_of_cons in Hq as [->|Hq]; [vm_compute; discriminate|]).
    by apply not_elem_of_nil in Hq.
Defined.

End preferences_scenario.

(** ** The recipe files that are collected *)

Section collected.
Context `{RecipeParser} `{FileSystem}.

Lemma add_new_NoDup gs : forall newfiles,
  NoDup newfiles -> NoDup (CookerCollectFiles.add_new newfiles gs).
Proof.
  unfold CookerCollectFiles.add_new.
  induction gs as [|g gs IH]; intros newfiles Hnd; [done|].
  cbn [foldl]. apply IH. case_bool_decide as Hg; [done|].
  apply NoDup_app. split; [done|]. split; [|apply NoDup_singleton].
  intros x Hx ->%list_elem_of_singleton. done.
Qed.

Lemma expand_NoDup files : forall acc c newfiles c',
  NoDup acc ->
  fold_ files
    (fun newfiles f =>
       if isdir f then
         dirfiles <- CookerCollectFiles.find_bbfiles f ;;
         ret (CookerCollectFiles.add_new newfiles dirfiles)
       else
         let globbed := glob f in
         let globbed :=
           match globbed with
           | [] => if path_exists f then [f] else []
           | _ => globbed
           end in
         ret (CookerCollectFiles.add_new newfiles globbed))
    acc c = (Ret newfiles, c') ->
  NoDup newfiles.
Proof.
  induction files as [|f files IH]; intros acc c newfiles c' Hnd Hrun.
  - by injection Hrun as <- <-.
  - cbn [fold_] in Hrun.
    apply bind_inv_ret in Hrun as (acc' & c1 & Hbody & Hrest).
    eapply IH; [|exact Hrest].
    destruct (isdir f).
    + apply bind_inv_ret in Hbody as (dirfiles & c2 & _ & [= <- <-]).
      by apply add_new_NoDup.
    + injection Hbody as <- <-. by apply add_new_NoDup.
Qed.

(** The mask and the two suffixes, as the loop of lines 1495-1507 tests
    them. *)
Definition masked_by (mask : option regex) (f : string) : bool :=
  match mask with
  | Some r => re_search r f
  | None => false
  end.

Definition is_recipe (mask : option regex) (f : string) : bool :=
  negb (masked_by mask f) && PyStr.endswith f ".bb".

Definition is_append (mask : option regex) (f : string) : bool :=
  negb (masked_by mask f) && negb (PyStr.endswith f ".bb") &&
  PyStr.endswith f ".bbappend".

Abbreviation keep test := (filter (fun f : string => test f = true)).

Lemma classify_run mask newfiles : forall st c st' c',
  fold_ newfiles
    (fun st f =>
       let '(masked, bbfiles, bbappend) := st in
       if match mask with
          | Some r => re_search r f
          | None => false
          end
       then
         logger (Debug 1) "skipping masked file %s" [AStr f] ;;;
         ret (masked + 1, bbfiles, bbappend)
       else if PyStr.endswith f ".bb" then ret (masked, bbfiles ++ [f], bbappend)
       else if PyStr.endswith f ".bbappend"
            then ret (masked, bbfiles, bbappend ++ [f])
       else
         logger (Debug 1) "skipping %s: unknown file extension" [AStr f] ;;;
         ret (masked, bbfiles, bbappend))
    st c = (Ret st', c') ->
  st' = (st.1.1 + Z.of_nat (length (keep (masked_by mask) newfiles)),
         st.1.2 ++ keep (is_recipe mask) newfiles,
         st.2 ++ keep (is_append mask) newfiles) /\
  collection c' = collection c /\ data c' = data c.
Proof.
  induction newfiles as [|f newfiles IH]; intros [[m bb] ba] c st' c' Hrun.
  - injection Hrun as <- <-. simpl. by rewrite Z.add_0_r, !app_nil_r.
  - cbn [fold_] in Hrun.
    apply bind_inv_ret in Hrun as (st1 & c1 & Hbody & Hrest).
    apply IH in Hrest as (-> & Hcc & Hd).
    change (match mask with Some r => re_search r f | None => false end)
      with (masked_by mask f) in Hbody.
    cbn [fst snd].
    destruct (masked_by mask f) eqn:Hm.
    + apply bind_inv_ret in Hbody as ([] & c2 & [= <-] & [= <- <-]).
      rewrite (filter_cons_True (fun f => masked_by mask f = true)) by done.
      rewrite (filter_cons_False (fun f => is_recipe mask f = true))
        by (unfold is_recipe; rewrite Hm; done).
      rewrite (filter_cons_False (fun f => is_append mask f = true))
        by (unfold is_append; rewrite Hm; done).
      cbn [fst snd]. rewrite length_cons, Nat2Z.inj_succ.
      split; [|done]. by rewrite <- Z.add_assoc, Z.add_1_l.
    + rewrite (filter_cons_False (fun f => masked_by mask f = true))
        by (rewrite Hm; done).
      destruct (PyStr.endswith f ".bb") eqn:Hbb.
      * injection Hbody as <- <-.
        rewrite (filter_cons_True (fun f => is_recipe mask f = true))
          by (unfold is_recipe; rewrite Hm, Hbb; done).
        rewrite (filter_cons_False (fun f => is_append mask f = true))
          by (unfold is_append; rewrite Hm, Hbb; done).
        cbn [fst snd]. split; [|done]. by rewrite <- app_assoc.
      * rewrite (filter_cons_False (fun f => is_recipe mask f = true))
          by (unfold is_recipe; rewrite Hm, Hbb; done).
        destruct (PyStr.endswith f ".bbappend") eqn:Hba.
        -- injection Hbody as <- <-.
           rewrite (filter_cons_True (fun f => is_append mask f = true))
             by (unfold is_append; rewrite Hm, Hbb, Hba; done).
           cbn [fst snd]. split; [|done]. by rewrite <- app_assoc.
        -- apply bind_inv_ret in Hbody as ([] & c2 & [= <-] & [= <- <-]).
           rewrite (filter_cons_False (fun f => is_append mask f = true))
             by (unfold is_append; rewrite Hm, Hbb, Hba; done).
           done.
Qed.

(** BBMASK as [collect_bbfiles] reads it: [None] when it is set and is
    no regular expression, [Some None] when it is unset or empty. *)
Definition compiled_mask (d : gmap string string) : option (option regex) :=
  match nonempty (getVar d "BBMASK") with
  | Some m =>
      match re_compile m with
      | Some r => Some (Some r)
      | None => None
      end
  | None => Some None
  end.

Lemma expand_keeps_data files :
  preserves (keeps data) (CookerCollectFiles.expand files).
Proof.
  unfold CookerCollectFiles.expand, CookerCollectFiles.find_bbfiles.
  frame_with kept.
Qed.

(** [X15]  With BBMASK unset, empty or a regular expression, the list
    that [collect_bbfiles] returns has no file twice, and each of its
    files ends in .bb and is not matched by the mask; the number of
    masked files is not negative, and the overlays are recorded. *)
Lemma collect_bbfiles_recipes c mask bbfiles masked :
  compiled_mask (data c) = Some mask ->
  (CookerCollectFiles.collect_bbfiles c).1 = Ret (bbfiles, masked) ->
  NoDup bbfiles /\
  Forall (fun f => PyStr.endswith f ".bb" = true /\ masked_by mask f = false)
         bbfiles /\
  0 <= masked /\
  exists cc', collection (CookerCollectFiles.collect_bbfiles c).2 = Some cc' /\
              is_Some (overlayed cc').
Proof.
  intros Hmask.
  destruct (CookerCollectFiles.collect_bbfiles c) as [out c'] eqn:Hrun.
  simpl. intros ->.
  unfold CookerCollectFiles.collect_bbfiles in Hrun.
  apply bind_inv_ret in Hrun as (cc & c0 & Hcc & Hrun).
  apply the_collection_read in Hcc as Hc0. subst c0.
  apply bind_inv_ret in Hrun as ([] & c1 & [= <-] & Hrun).
  apply bind_inv_ret in Hrun as (d & c1 & [= <- <-] & Hrun).
  apply bind_inv_ret in Hrun as ([] & c1 & [= <-] & Hrun).
  apply bind_inv_ret in Hrun as ([] & c2 & Hfire & Hrun).
  apply bind_inv_ret in Hrun as (newfiles & c3 & Hexp & Hrun).
  apply bind_inv_ret in Hrun as (d3 & c4 & [= <- <-] & Hrun).
  match type of Hexp with
  | CookerCollectFiles.expand ?l _ = _ => set (files := l) in *
  end.
  assert (Hd2 : getVar (data c2) "BBMASK" = getVar (data c) "BBMASK").
  { destruct files.
    - apply bind_inv_ret in Hfire as ([] & c5 & [= <-] & [= <-]). simpl.
      by apply lookup_insert_ne.
    - injection Hfire as <-. simpl. by apply lookup_insert_ne. }
  assert (Hd3 : data c3 = data c2) by exact (expand_keeps_data _ _ _ _ Hexp).
  unfold compiled_mask in Hmask. rewrite Hd3, Hd2, Hmask in Hrun.
  apply bind_inv_ret in Hrun as ([[m b] a] & c5 & Hcl & Hrun).
  apply classify_run in Hcl as ([= -> -> ->] & Hcc5 & _).
  apply bind_inv_ret in Hrun as ([] & c6 & Hup & [= <- <- <-]).
  apply bind_inv_ret in Hup as (cc5 & c7 & _ & Hc').
  unfold modify in Hc'. injection Hc' as <-.
  assert (Hnd : NoDup newfiles).
  { eapply expand_NoDup; [apply NoDup_nil_2|exact Hexp]. }
  simpl. split; [by apply NoDup_filter|]. split; [|split; [lia|]].
  - apply Forall_forall. intros f [Hf _]%list_elem_of_filter.
    unfold is_recipe in Hf. apply andb_true_iff in Hf as [Hm Hbb].
    by apply negb_true_iff in Hm.
  - eexists. split; [reflexivity|]. by eexists.
Qed.

End collected.

Section collected_scenario.
#[local] Existing Instance LiteralRe.engine.
#[local] Existing Instance mask_parser.
#[local] Existing Instance mask_fs.

Lemma collect_bbfiles_recipes_witness :
  NoDup ["/l/a.bb"%string] /\
  Forall (fun f => PyStr.endswith f ".bb" = true /\
                   masked_by (Some (false, "txt"%string)) f = false)
         ["/l/a.bb"%string] /\
  0 <= 1 /\
  exists cc',
    collection (CookerCollectFiles.collect_bbfiles
                  (mask_cooker (Some "txt"%string))).2 = Some cc' /\
    is_Some (overlayed cc').
Proof.
  apply (collect_bbfiles_recipes (mask_cooker (Some "txt"%string))).
  - vm_compute. reflexivity.
  - vm_compute. reflexivity.
Defined.

End collected_scenario.

(** ** handleCollections: the two loops *)

Section collections.
Context `{Regex}.
Variable data : gmap string string.

(** The dictionaries as the first loop (lines 942-997) leaves them. *)
Definition read_layers (collection_list : list string) : M Collections.locals unit :=
  for_ collection_list
    (fun c => Collections.read_priority data c ;;;
              Collections.read_depends data collection_list c).

Lemma priority_of_read c (L : Collections.locals) out L' :
  Collections.priority_of c L = (out, L') -> L' = L.
Proof.
  unfold Collections.priority_of.
  destruct (Collections.collection_priorities L !! c); congruence.
Qed.

Lemma depends_of_read c (L : Collections.locals) out L' :
  Collections.depends_of c L = (out, L') -> L' = L.
Proof.
  unfold Collections.depends_of.
  destruct (Collections.collection_depends L !! c); congruence.
Qed.

Lemma get_prio_read (L : Collections.locals) out L' :
  Collections.get_prio L = (out, L') -> L' = L.
Proof. unfold Collections.get_prio. destruct (Collections.prio L); congruence. Qed.

(** Closes the leaves of a frame over the locals. *)
Ltac locals_leaf tac :=
  first
    [ apply (read_only _), priority_of_read
    | apply (read_only _), depends_of_read
    | apply (read_only _), get_prio_read
    | tac ].

Ltac locals_frame tac :=
  unfold Collections.error, Collections.debug, Collections.set_priority,
    Collections.set_depends, Collections.set_prio, Collections.set_min_prio,
    Collections.append_entry;
  frame_with ltac:(locals_leaf tac).

(** An error has been reported. *)
Definition flagged (L : Collections.locals) : Prop :=
  Collections.errors L = true.

Ltac flag_leaf := unfold invariant, flagged; simpl; auto.

Lemma calc_flagged fuel : forall c,
  preserves (invariant flagged) (Collections.calc_layer_priority fuel c).
Proof.
  induction fuel as [|fuel IH]; intros c; cbn [Collections.calc_layer_priority].
  - apply (preserves_raise _).
  - locals_frame ltac:(first [apply IH | flag_leaf]).
Qed.

Lemma calc_entries fuel : forall c,
  preserves (keeps Collections.bbfile_config_priorities)
            (Collections.calc_layer_priority fuel c).
Proof.
  induction fuel as [|fuel IH]; intros c; cbn [Collections.calc_layer_priority].
  - apply (preserves_raise _).
  - locals_frame ltac:(first [apply IH | kept]).
Qed.

Lemma store_collection_flagged fuel c :
  preserves (invariant flagged) (Collections.store_collection data fuel c).
Proof.
  unfold Collections.store_collection.
  locals_frame ltac:(first [apply calc_flagged | flag_leaf]).
Qed.

Lemma read_layers_entries cs :
  preserves (keeps Collections.bbfile_config_priorities) (read_layers cs).
Proof.
  unfold read_layers, Collections.read_priority, Collections.read_depends,
    Collections.read_dep.
  locals_frame kept.
Qed.

(** What an entry of [bbfile_config_priorities] holds, with the
    dictionaries [L1] of the first loop. *)
Definition entry_of (L1 : Collections.locals) (e : layer_entry) : Prop :=
  getVar data ("BBFILE_PATTERN_" +:+ le_name e) = Some (le_pattern e) /\
  re_compile (le_pattern e) = Some (le_regex e) /\
  settled (fun c => Collections.collection_priorities L1 !! c)
          (fun c => Collections.collection_depends L1 !! c)
          (Collections.min_prio L1) (le_name e) (le_priority e).

Lemma not_flagged (L : Collections.locals) :
  Collections.errors L = false -> ~ flagged L.
Proof. unfold flagged. congruence. Qed.

Lemma store_collection_run L1 fuel c L L' :
  reached L1 L ->
  Collections.store_collection data fuel c L = (Ret tt, L') ->
  Collections.errors L' = false ->
  reached L1 L' /\
  exists e, le_name e = c /\ entry_of L1 e /\
    Collections.bbfile_config_priorities L'
    = Collections.bbfile_config_priorities L ++ [e].
Proof.
  intros HL Hrun Herr. unfold Collections.store_collection in Hrun.
  apply bind_inv_ret in Hrun as ([] & L2 & Hcalc & Hrun).
  destruct (calc_layer_priority_sound L1 _ _ _ _ HL Hcalc)
    as (HL2 & v & Hv & Hfinal).
  destruct (getVar data ("BBFILE_PATTERN_" +:+ c)) as [regex|] eqn:Hpat.
  2:{ injection Hrun as <-. discriminate. }
  destruct (re_compile regex) as [cre|] eqn:Hcre.
  2:{ injection Hrun as <-. discriminate. }
  apply bind_inv_ret in Hrun as (p & L3 & Hp & Hrun).
  rewrite priority_of_run, Hv in Hp. injection Hp as <- <-.
  injection Hrun as <-. split.
  - destruct HL2 as (Hm & Hd & HP). unfold reached. simpl. auto.
  - exists (LayerEntry _ c regex cre v). split; [done|]. split.
    + unfold entry_of. simpl. auto.
    + simpl. by rewrite (calc_entries _ _ _ _ _ Hcalc).
Qed.

Lemma store_loop L1 fuel cs : forall L L',
  reached L1 L ->
  for_ cs (Collections.store_collection data fuel) L = (Ret tt, L') ->
  Collections.errors L' = false ->
  exists es,
    Collections.bbfile_config_priorities L'
    = Collections.bbfile_config_priorities L ++ es /\
    le_name <$> es = cs /\ Forall (entry_of L1) es.
Proof.
  induction cs as [|c cs IH]; intros L L' HL Hrun Herr.
  - injection Hrun as <-. exists []. by rewrite app_nil_r.
  - cbn [for_] in Hrun.
    apply bind_inv_ret in Hrun as ([] & L2 & Hstore & Hrest).
    assert (Herr2 : Collections.errors L2 = false).
    { destruct (Collections.errors L2) eqn:He; [|done].
      exfalso. apply (not_flagged L' Herr).
      eapply (preserves_for (invariant flagged) cs
                (Collections.store_collection data fuel));
        [intros x; apply store_collection_flagged|exact Hrest|exact He]. }
    destruct (store_collection_run L1 fuel c L L2 HL Hstore Herr2)
      as (HL2 & e & Hn & He & Hes).
    destruct (IH L2 L' HL2 Hrest Herr) as (es & Hes' & Hns & Hall).
    exists (e :: es). rewrite Hes', Hes, <- app_assoc. simpl.
    split; [done|]. split; [|by constructor].
    f_equal; [exact Hn|exact Hns].
Qed.

(** [X16]  When [handleCollections] returns, no error was reported and
    [bbfile_config_priorities] holds one entry for each name of
    BBFILE_COLLECTIONS, in that order: the name, its BBFILE_PATTERN, the
    compiled pattern, and the priority settled from the dictionaries of
    the first loop. *)
Lemma handleCollections_entries fuel collections :
  (Collections.handleCollections data fuel (Some collections)
     Collections.init).1 = Ret tt ->
  let L' := (Collections.handleCollections data fuel (Some collections)
               Collections.init).2 in
  let L1 := (read_layers (PyStr.split collections) Collections.init).2 in
  Collections.errors L' = false /\
  le_name <$> Collections.bbfile_config_priorities L' = PyStr.split collections /\
  Forall (entry_of L1) (Collections.bbfile_config_priorities L').
Proof.
  destruct (Collections.handleCollections data fuel (Some collections)
              Collections.init) as [out L'] eqn:Hrun.
  simpl. intros ->. unfold Collections.handleCollections in Hrun.
  apply bind_inv_ret in Hrun as ([] & L2 & Hloops & Hrun).
  apply bind_inv_ret in Hrun as (e & L3 & [= <- <-] & Hrun).
  destruct (Collections.errors L2) eqn:Herr; [discriminate|].
  injection Hrun as <-. split; [done|].
  destruct collections as [|a s].
  { injection Hloops as <-. by split. }
  cbn [nonempty] in Hloops.
  apply bind_inv_ret in Hloops as ([] & L1 & Hread & Hstore).
  fold (read_layers (PyStr.split (String a s))) in Hread.
  rewrite Hread. cbn [snd].
  destruct (store_loop L1 fuel _ L1 L2 (reached_start L1) Hstore Herr)
    as (es & Hes & Hns & Hall).
  rewrite (read_layers_entries _ _ _ _ Hread) in Hes. simpl in Hes.
  rewrite Hes. by split.
Qed.










(** *** The dictionaries of the first loop *)

(** The explicit priority of a collection, and the name that an entry
    of LAYERDEPENDS adds to the dependencies: none when its version is
    no number. *)
Definition explicit (c : string) : option Z :=
  match nonempty (getVar data ("BBFILE_PRIORITY_" +:+ c)) with
  | Some s => PyStr.int s
  | None => None
  end.

Definition well_formed (c : string) : Prop :=
  match nonempty (getVar data ("BBFILE_PRIORITY_" +:+ c)) with
  | Some s => is_Some (PyStr.int s)
  | None => True
  end.

Definition dep_name (dep : string) : option string :=
  match PyStr.split_on ":" dep with
  | name :: ver :: _ =>
      match PyStr.int ver with Some _ => Some name | None => None end
  | l => Some (hd EmptyString l)
  end.

Definition dep_names (c : string) : list string :=
  match nonempty (getVar data ("LAYERDEPENDS_" +:+ c)) with
  | Some deps => omap dep_name (PyStr.split deps)
  | None => []
  end.

Definition min_step (m : Z) (p : Z) : Z :=
  if (m =? 0) || (p <? m) then p else m.

(** What the loops over the dependencies leave alone. *)
Definition tables (L : Collections.locals) :=
  (Collections.collection_priorities L, Collections.collection_depends L,
   Collections.min_prio L).

Lemma read_dep_tables cl c l dep :
  preserves (keeps tables) (Collections.read_dep data cl c l dep).
Proof. unfold Collections.read_dep. locals_frame kept. Qed.

Lemma read_dep_names cl c l dep (L : Collections.locals) l' L' :
  Collections.read_dep data cl c l dep L = (Ret l', L') ->
  l' = l ++ from_option (fun n => [n]) [] (dep_name dep).
Proof.
  unfold Collections.read_dep, dep_name.
  destruct (PyStr.split_on ":" dep) as [|name [|ver rest]]; simpl.
  1,2: by intros (u & L1 & Hc & [= <- <-])%bind_inv_ret.
  destruct (PyStr.int ver) as [v|].
  - by intros (u & L1 & Hc & [= <- <-])%bind_inv_ret.
  - intros (u & L1 & _ & [= <- <-])%bind_inv_ret. by rewrite app_nil_r.
Qed.

Lemma read_deps_names cl c ds : forall l (L : Collections.locals) l' L',
  fold_ ds (Collections.read_dep data cl c) l L = (Ret l', L') ->
  l' = l ++ omap dep_name ds /\ tables L' = tables L.
Proof.
  induction ds as [|d ds IH]; intros l L l' L' Hrun.
  - injection Hrun as <- <-. by rewrite app_nil_r.
  - cbn [fold_] in Hrun.
    apply bind_inv_ret in Hrun as (l1 & L1 & Hd & Hrest).
    apply IH in Hrest as (-> & Ht).
    rewrite Ht, (read_dep_tables _ _ _ _ _ _ _ Hd).
    apply read_dep_names in Hd as ->. split; [|done].
    rewrite <- app_assoc. f_equal. simpl. by destruct (dep_name d).
Qed.

Lemma read_depends_run cl c (L L' : Collections.locals) :
  Collections.read_depends data cl c L = (Ret tt, L') ->
  Collections.collection_depends L'
    = <[c := dep_names c]> (Collections.collection_depends L) /\
  Collections.collection_priorities L' = Collections.collection_priorities L /\
  Collections.min_prio L' = Collections.min_prio L.
Proof.
  unfold Collections.read_depends, dep_names.
  destruct (nonempty (getVar data ("LAYERDEPENDS_" +:+ c))) as [deps|].
  - intros (l & L1 & Hfold & [= <-])%bind_inv_ret.
    apply read_deps_names in Hfold as (-> & [= Hp Hd Hm]). simpl.
    by rewrite Hp, Hd, Hm.
  - by intros [= <-].
Qed.

Lemma read_priority_run c (L L' : Collections.locals) :
  Collections.read_priority data c L = (Ret tt, L') ->
  Collections.collection_depends L' = Collections.collection_depends L /\
  exists v,
    Collections.collection_priorities L'
      = <[c := v]> (Collections.collection_priorities L) /\
    (well_formed c ->
     v = explicit c /\
     Collections.min_prio L'
       = from_option (min_step (Collections.min_prio L))
                     (Collections.min_prio L) (explicit c)).
Proof.
  unfold Collections.read_priority, well_formed, explicit.
  destruct (nonempty (getVar data ("BBFILE_PRIORITY_" +:+ c))) as [s|].
  2:{ intros [= <-]. split; [done|]. by exists None. }
  destruct (PyStr.int s) as [p|].
  - intros Hrun. unfold Collections.set_prio, Collections.get_prio,
      Collections.set_min_prio, Collections.set_priority, bind, modify, gets
      in Hrun. simpl in Hrun.
    destruct ((Collections.min_prio L =? 0) || (p <? Collections.min_prio L))
      eqn:Hb;
      injection Hrun as <-; (split; [done|]); exists (Some p);
      (split; [done|]); intros _; (split; [done|]); simpl; unfold min_step;
      by rewrite Hb.
  - intros (u & L1 & HL1 & Hrun)%bind_inv_ret.
    unfold Collections.error, modify in HL1. injection HL1 as <- <-.
    apply bind_inv_ret in Hrun as (p & L2 & Hp & Hrun).
    apply get_prio_read in Hp as Hp'. subst L2.
    apply bind_inv_ret in Hrun as (m & L2 & [= <- <-] & Hrun).
    apply bind_inv_ret in Hrun as ([] & L2 & Hm & [= <-]).
    simpl in *.
    assert (Hk : Collections.collection_depends L2
                   = Collections.collection_depends L /\
                 Collections.collection_priorities L2
                   = Collections.collection_priorities L).
    { match type of Hm with
      | (if ?b then _ else _) _ = _ => destruct b
      end; unfold Collections.set_min_prio, modify, ret in Hm;
        injection Hm as <-; split; reflexivity. }
    destruct Hk as [Hd Hpr]. split; [done|].
    exists (Some p). rewrite Hpr. split; [done|]. by intros [].
Qed.

Lemma read_layers_loop cl l : forall (L L' : Collections.locals),
  for_ l (fun c => Collections.read_priority data c ;;;
                   Collections.read_depends data cl c) L = (Ret tt, L') ->
  (forall c, c ∉ l ->
     Collections.collection_priorities L' !! c
       = Collections.collection_priorities L !! c /\
     Collections.collection_depends L' !! c
       = Collections.collection_depends L !! c) /\
  (forall c, c ∈ l ->
     Collections.collection_depends L' !! c = Some (dep_names c) /\
     (well_formed c ->
      Collections.collection_priorities L' !! c = Some (explicit c))) /\
  (Forall well_formed l ->
   Collections.min_prio L'
     = foldl min_step (Collections.min_prio L) (omap explicit l)).
Proof.
  induction l as [|x l IH]; intros L L' Hrun.
  - injection Hrun as <-. split; [done|]. split; [|done].
    intros c Hc. by apply not_elem_of_nil in Hc.
  - cbn [for_] in Hrun.
    apply bind_inv_ret in Hrun as ([] & L2 & Hbody & Hrest).
    apply bind_inv_ret in Hbody as ([] & L1 & Hprio & Hdeps).
    apply read_priority_run in Hprio as (Hd1 & v & Hp1 & Hwf).
    apply read_depends_run in Hdeps as (Hd2 & Hp2 & Hm2).
    apply IH in Hrest as (Hout & Hin & Hmin).
    assert (Hx : Collections.collection_depends L2 !! x = Some (dep_names x) /\
                 (well_formed x ->
                  Collections.collection_priorities L2 !! x = Some (explicit x))).
    { rewrite Hd2, Hp2, Hp1, !lookup_insert_eq. split; [done|].
      intros Hw. by destruct (Hwf Hw) as [-> _]. }
    split; [|split].
    + intros c [Hne Hc]%not_elem_of_cons. destruct (Hout c Hc) as [-> ->].
      rewrite Hd2, Hp2, Hp1, Hd1, !lookup_insert_ne by done. done.
    + intros c Hc. destruct (decide (c ∈ l)) as [Hl|Hl]; [by apply Hin|].
      apply elem_of_cons in Hc as [->|Hc]; [|done].
      destruct (Hout x Hl) as [-> ->]. exact Hx.
    + intros [Hw Hall]%Forall_cons. rewrite (Hmin Hall), Hm2.
      destruct (Hwf Hw) as [_ ->]. simpl. by destruct (explicit x).
Qed.

(** [X18]  The dictionaries after the first loop: a collection of the
    list has the names of its LAYERDEPENDS entries as dependencies and,
    when its BBFILE_PRIORITY is unset or a number, that priority;
    names outside the list have no entry.  When every priority given
    is a number, [min_prio] is the least of them, except that a least
    priority of 0 gives way to the next one. *)
Lemma read_layers_tables cl :
  (read_layers cl Collections.init).1 = Ret tt ->
  let L1 := (read_layers cl Collections.init).2 in
  (forall c, c ∉ cl ->
     Collections.collection_priorities L1 !! c = None /\
     Collections.collection_depends L1 !! c = None) /\
  (forall c, c ∈ cl ->
     Collections.collection_depends L1 !! c = Some (dep_names c) /\
     (well_formed c ->
      Collections.collection_priorities L1 !! c = Some (explicit c))) /\
  (Forall well_formed cl ->
   Collections.min_prio L1 = foldl min_step 0 (omap explicit cl)).
Proof.
  intros Hrun%run_eta.
  apply read_layers_loop in Hrun as (Hout & Hin & Hmin).
  split; [|by split]. intros c Hc. by destruct (Hout c Hc) as [-> ->].
Qed.

(** [X19]  A dependency on a layer that is not enabled is reported by
    the first loop, but it does not end as CollectionError: when the
    first collection has no priority and its first dependency is not
    in the list, the recursion looks the dependency up and
    [handleCollections] raises KeyError. *)
Lemma handleCollections_missing_dependency fuel collections c rest d more :
  PyStr.split collections = c :: rest ->
  (read_layers (c :: rest) Collections.init).1 = Ret tt ->
  nonempty (getVar data ("BBFILE_PRIORITY_" +:+ c)) = None ->
  dep_names c = d :: more ->
  d ∉ c :: rest ->
  (Collections.handleCollections data (S (S fuel)) (Some collections)
     Collections.init).1 = Raise (new_exc KeyError).
Proof.
  intros Hsplit Hread Hprio Hdeps Hd.
  destruct (read_layers_tables _ Hread) as (Hout & Hin & _).
  apply run_eta in Hread.
  set (L1 := (read_layers (c :: rest) Collections.init).2) in *.
  destruct (Hin c) as (HcD & HcP); [left|].
  rewrite Hdeps in HcD.
  assert (Hc : Collections.collection_priorities L1 !! c = Some None).
  { rewrite HcP; unfold well_formed, explicit; by rewrite Hprio. }
  destruct (Hout d Hd) as (HdP & _).
  unfold Collections.handleCollections.
  destruct collections as [|a t]; [discriminate|].
  cbn [nonempty]. rewrite Hsplit.
  erewrite bind_raise; [reflexivity|].
  erewrite bind_ret by exact Hread.
  cbn [for_]. erewrite bind_raise; [reflexivity|].
  unfold Collections.store_collection.
  erewrite bind_raise; [reflexivity|].
  cbn [Collections.calc_layer_priority].
  erewrite bind_ret by (rewrite priority_of_run, Hc; reflexivity).
  cbn [Collections.truthy].
  erewrite bind_ret by reflexivity.
  erewrite bind_ret by (rewrite depends_of_run, HcD; reflexivity).
  erewrite bind_raise; [reflexivity|].
  cbn [fold_]. erewrite bind_raise; [reflexivity|].
  erewrite bind_raise; [reflexivity|].
  erewrite bind_raise; [reflexivity|].
  rewrite priority_of_run, HdP. reflexivity.
Qed.

End collections.

Section collections_scenarios.
#[local] Existing Instance LiteralRe.engine.


Lemma handleCollections_entries_witness :
  let L' := (Collections.handleCollections S1_data 10 (Some "A B C"%string)
               Collections.init).2 in
  let L1 := (read_layers S1_data (PyStr.split "A B C") Collections.init).2 in
  Collections.errors L' = false /\
  le_name <$> Collections.bbfile_config_priorities L' = PyStr.split "A B C" /\
  Forall (entry_of S1_data L1) (Collections.bbfile_config_priorities L').
Proof.
  apply (handleCollections_entries S1_data 10 "A B C").
  vm_compute. reflexivity.
Defined.


Lemma read_layers_tables_witness :
  let L1 := (read_layers S1_data ["A"; "B"; "C"]%string Collections.init).2 in
  (forall c, c ∉ ["A"; "B"; "C"]%string ->
     Collections.collection_priorities L1 !! c = None /\
     Collections.collection_depends L1 !! c = None) /\
  (forall c, c ∈ ["A"; "B"; "C"]%string ->
     Collections.collection_depends L1 !! c = Some (dep_names S1_data c) /\
     (well_formed S1_data c ->
      Collections.collection_priorities L1 !! c = Some (explicit S1_data c))) /\
  (Forall (well_formed S1_data) ["A"; "B"; "C"]%string ->
   Collections.min_prio L1
     = foldl min_step 0 (omap (explicit S1_data) ["A"; "B"; "C"]%string)).
Proof.
  apply (read_layers_tables S1_data ["A"; "B"; "C"]%string).
  vm_compute. reflexivity.
Defined.

Lemma handleCollections_missing_dependency_witness :
  (Collections.handleCollections missing_data 2 (Some "B"%string)
     Collections.init).1 = Raise (new_exc KeyError).
Proof.
  apply (handleCollections_missing_dependency missing_data 0 "B" "B" [] "Z" []).
  - vm_compute. reflexivity.
  - vm_compute. reflexivity.
  - vm_compute. reflexivity.
  - vm_compute. reflexivity.
  - intros [[=]|Hin%not_elem_of_nil]%elem_of_cons. done.
Defined.

End collections_scenarios.

(** ** The counters of the parser *)

Section counters.
Context `{RecipeParser} `{FileSystem}.
Variable schedule : list Parser.job -> list Parser.job.

(** The results taken that are counted neither as parsed nor as
    cached. *)
Definition slack (c : cooker) : option Z :=
  (fun p => current p - parsed p - cached p) <$> parser c.

Ltac slack_leaf :=
  first
    [ apply update_keeps; let Hp := fresh in
      intros ? ? Hp; unfold slack; simpl; rewrite Hp; reflexivity
    | unfold keeps, slack; simpl; reflexivity ].

Lemma next_slack : preserves (keeps slack) CookerParser.next.
Proof. unfold CookerParser.next. frame_with slack_leaf. Qed.

Lemma shutdown_slack clean force :
  preserves (keeps slack) (CookerParser.shutdown clean force).
Proof. unfold CookerParser.shutdown. frame_with slack_leaf. Qed.

Lemma handle_slack e : preserves (keeps slack) (CookerParser.handle e).
Proof.
  unfold CookerParser.handle.
  frame_with ltac:(first [apply shutdown_slack | slack_leaf]).
Qed.

Lemma add_virtuals_slack flag result :
  preserves (keeps slack) (for_ result (CookerParser.add_virtual flag)).
Proof. unfold CookerParser.add_virtual. frame_with slack_leaf. Qed.

Lemma record_result_slack flag result :
  preserves (keeps slack) (CookerParser.record_result flag result).
Proof.
  intros c out c' Hrun. unfold CookerParser.record_result in Hrun.
  destruct (parser c) as [p|] eqn:Hp.
  2:{ unfold CookerParser.update, bind, the_parser in Hrun.
      rewrite Hp in Hrun. by injection Hrun as <- <-. }
  rewrite (bind_ret _ _ _ _ _ (update_run _ _ _ Hp)) in Hrun.
  match type of Hrun with bind ?m _ ?c1 = _ =>
    assert (Hmid : exists c2, m c1 = (Ret tt, c2) /\ slack c2 = slack c)
  end.
  { unfold slack. rewrite Hp.
    destruct flag.
    - unfold bind, CookerParser.update, the_parser, modify, fire. simpl.
      destruct (_ =? 0); eexists; (split; [reflexivity|]); simpl; f_equal; lia.
    - unfold bind, CookerParser.update, the_parser, modify. simpl.
      eexists; (split; [reflexivity|]); simpl; f_equal; lia. }
  destruct Hmid as (c2 & Hmid & Hs).
  rewrite (bind_ret _ _ _ _ _ Hmid) in Hrun.
  unfold keeps. rewrite <- Hs. revert Hrun. apply (fun P => P c2 out c').
  change (preserves (keeps slack)
            (for_ result (CookerParser.add_virtual flag) ;;; ret true)).
  pose proof (add_virtuals_slack flag result).
  frame_with slack_leaf.
Qed.

Lemma parse_next_slack : preserves (keeps slack) CookerParser.parse_next.
Proof.
  unfold CookerParser.parse_next.
  frame_with ltac:(first
    [ apply next_slack | apply shutdown_slack | apply handle_slack
    | apply record_result_slack | slack_leaf ]).
Qed.

Lemma init_slack files masked c c' :
  CookerParser.init schedule files masked c = (Ret tt, c') ->
  slack c' = Some 0.
Proof.
  unfold CookerParser.init. intros Hrun.
  apply bind_inv_ret in Hrun as (d & c0 & _ & Hrun).
  apply bind_inv_ret in Hrun as (cpus & c1 & _ & Hrun).
  apply bind_inv_ret in Hrun as (np & c2 & _ & Hrun).
  apply bind_inv_ret in Hrun as ([fc wp] & c3 & _ & Hrun).
  apply bind_inv_ret in Hrun as ([] & c4 & [= <-] & Hrun).
  match type of Hrun with ?m ?c4 = _ =>
    assert (Hk : preserves (keeps slack) m)
      by (unfold CookerParser.start; frame_with slack_leaf);
    apply Hk in Hrun
  end.
  by rewrite Hrun.
Qed.

(** [X20]  From the construction of the parser on, and after any number
    of calls of [parse_next], the results taken are those counted as
    parsed and those counted as cached: current = parsed + cached. *)
Lemma counters_balanced files masked c n :
  (CookerParser.init schedule files masked c).1 = Ret tt ->
  exists p,
    parser (ticks n (CookerParser.init schedule files masked c).2) = Some p /\
    current p = parsed p + cached p.
Proof.
  intros Hinit%run_eta. apply init_slack in Hinit.
  revert Hinit. generalize ((CookerParser.init schedule files masked c).2).
  induction n as [|n IH]; intros c0 Hs.
  - unfold slack in Hs. simpl. destruct (parser c0) as [p|]; [|discriminate].
    exists p. split; [done|]. injection Hs as Hs. lia.
  - cbn [ticks]. apply IH.
    destruct (CookerParser.parse_next c0) as [out c1] eqn:Hrun.
    simpl. by rewrite (parse_next_slack _ _ _ Hrun).
Qed.

End counters.

Section counters_scenario.
#[local] Existing Instance LiteralRe.engine.
#[local] Existing Instance half_cached.
#[local] Existing Instance two_files.

Lemma counters_balanced_witness :
  exists p,
    parser (ticks 2 (CookerParser.init (@rev _)
                       ["/cached/y.bb"; "/new/z.bb"]%string 0 small_cooker).2)
      = Some p /\
    current p = parsed p + cached p.
Proof.
  apply (counters_balanced (@rev _) ["/cached/y.bb"; "/new/z.bb"]%string 0
           small_cooker 2).
  vm_compute. reflexivity.
Defined.

End counters_scenario.

(** ** A worker of the pool *)

Section worker_loop.
Context `{RecipeParser}.

(** The loop of [realrun], for at most [n] rounds. *)
Fixpoint realrun (n : nat) (w : Parser.worker) (ch : Parser.channels)
  : Parser.worker * Parser.channels :=
  match n with
  | O => (w, ch)
  | S n' =>
      if Parser.alive w
      then let '(w', ch') := Parser.realrun_step w ch in realrun n' w' ch'
      else (w, ch)
  end.

(** [X21]  A worker with nothing pending, no message to quit and a
    results queue without bound parses the jobs in front of the first
    sentinel in their order, puts one result for each on the queue, and
    ends at the sentinel, leaving the jobs behind it where they are. *)
Lemma realrun_drains js : forall w ch rest,
  Parser.alive w = true ->
  Parser.pending w = [] ->
  Parser.quit ch = O ->
  Parser.results_capacity ch = None ->
  Parser.jobs ch = (Some <$> js) ++ None :: rest ->
  let out := realrun (S (length js)) w ch in
  Parser.alive out.1 = false /\
  Parser.pending out.1 = [] /\
  Parser.jobs out.2 = rest /\
  Parser.results_chan out.2
    = Parser.results_chan ch ++ ((fun j => Parser.parse j.1 j.2) <$> js).
Proof.
  induction js as [|[f a] js IH]; intros w ch rest Ha Hp Hq Hc Hj.
  - cbn [realrun length]. rewrite Ha. unfold Parser.realrun_step.
    rewrite Hq, Hp, Hj. simpl. by rewrite app_nil_r.
  - cbn [realrun length]. rewrite Ha. unfold Parser.realrun_step.
    rewrite Hq, Hp, Hj. cbn [rev fmap list_fmap app]. unfold Parser.put.
    cbn [Parser.results_capacity]. rewrite Hc.
    specialize (IH w
      (Parser.Channels ((Some <$> js) ++ None :: rest)
         (Parser.results_chan ch ++ [Parser.parse f a]) None 0) rest
      Ha Hp eq_refl eq_refl eq_refl).
    cbn [Parser.jobs Parser.results_chan Parser.quit] in IH.
    destruct IH as (Hal & Hpe & Hjo & Hre).
    split; [exact Hal|]. split; [exact Hpe|]. split; [exact Hjo|].
    rewrite <- app_assoc in Hre. exact Hre.
Qed.

End worker_loop.

Section worker_scenario.
#[local] Existing Instance LiteralRe.engine.
#[local] Existing Instance half_cached.

Lemma realrun_drains_witness :
  let w := Parser.Worker [] true in
  let ch := Parser.Channels
              [Some ("/new/a.bb", []); Some ("/bad/x.bb", []); None; None]%string
              [] None 0 in
  let out := realrun 3 w ch in
  Parser.alive out.1 = false /\
  Parser.pending out.1 = [] /\
  Parser.jobs out.2 = [None] /\
  Parser.results_chan out.2
    = [] ++ ((fun j => Parser.parse j.1 j.2) <$>
               [("/new/a.bb", []); ("/bad/x.bb", [])]%string).
Proof.
  apply (realrun_drains [("/new/a.bb", []); ("/bad/x.bb", [])]%string
           (Parser.Worker [] true)); reflexivity.
Defined.

End worker_scenario.
